(** * Drawdance paint engine: a shallow embedding of
      [libengine/dpengine/paint_engine.c]

    The engine's C functions are rendered as Rocq functions over an explicit
    engine state.  Calls that leave the engine (callbacks, the canvas history,
    message reference counting, preview disposal) are recorded as lists of
    events in call order, so that "is called", "exactly once" and "in this
    order" become statements about lists.

    C [int]s are [Z]; array positions that a [for] loop counts up from zero
    are [nat].  The only narrower integers whose wrap-around the code can
    reach are the [uint8_t] counters and context ids of the meta buffer,
    which are reduced modulo 256 where the C code stores them.  Pointers to
    objects the engine owns are the objects themselves, with [option] or a
    dedicated constructor for [NULL]; pointers to the collaborators' objects
    are values of abstract types. *)

From Stdlib Require Import ZArith List Bool Lia Permutation.
From Stdlib Require Import Strings.Byte.
Import ListNotations.
Open Scope Z_scope.

(* ================================================================== *)
(** * Part I: definitions                                               *)
(* ================================================================== *)

(** ** Messages *)

(** The dab records of the three draw-dabs families.  The paint engine only
    ever reads the [size] of a dab ([DP_classic_dab_size] and friends). *)
Record DP_ClassicDab := { DP_classic_dab_size : Z }.
Record DP_PixelDab := { DP_pixel_dab_size : Z }.
Record DP_MyPaintDab := { DP_mypaint_dab_size : Z }.

(** [DP_Message] with the payloads the engine looks at.  An internal
    preview message carries a [void *] that is either [NULL], the address of
    the static [null_preview] sentinel, or a heap-allocated preview; a dabs
    preview in turn holds references to messages. *)
Inductive DP_Message : Type :=
| Message (context_id : Z) (body : MessageBody)
with MessageBody : Type :=
| MsgInternal (mi : DP_MsgInternal)
| MsgLaserTrail (color persistence : Z)
| MsgMovePointer (x y : Z)
| MsgDefaultLayer (id : Z)
| MsgDrawDabsClassic (dabs : list DP_ClassicDab)
| MsgDrawDabsPixel (dabs : list DP_PixelDab)
| MsgDrawDabsPixelSquare (dabs : list DP_PixelDab)
| MsgDrawDabsMyPaint (dabs : list DP_MyPaintDab)
| MsgOther (type : Z)
with DP_MsgInternal : Type :=
| InternalReset
| InternalSoftReset
| InternalSnapshot
| InternalCatchup (progress : Z)
| InternalCleanup
| InternalPreview (data : PreviewPtr)
| InternalOther (type : Z)
with PreviewPtr : Type :=
| PreviewNULL
| PreviewSentinel
| PreviewAt (preview : DP_PaintEnginePreview)
with DP_PaintEnginePreview : Type :=
| CutPreview (initial_offset_x initial_offset_y : Z)
             (layer_id x y width height : Z) (mask : option (list Z))
| DabsPreview (initial_offset_x initial_offset_y : Z)
              (layer_id count : Z) (messages : list DP_Message).

Definition DP_MessageType := Z.

(** Modelled from the spec: the numbering of [enum DP_MessageType]
    ([dpmsg/message.h] is not among the sources).  The spec fixes what the
    engine relies on: commands have "type >= 128", laser trail, move pointer
    and default layer are meta messages below 128, and internal is a
    pseudo-type of its own below 128.  The values are the protocol's. *)
Definition DP_MSG_INTERNAL : DP_MessageType := 31.
Definition DP_MSG_LASER_TRAIL : DP_MessageType := 65.
Definition DP_MSG_MOVE_POINTER : DP_MessageType := 66.
Definition DP_MSG_DEFAULT_LAYER : DP_MessageType := 71.
Definition DP_MSG_DRAW_DABS_CLASSIC : DP_MessageType := 148.
Definition DP_MSG_DRAW_DABS_PIXEL : DP_MessageType := 149.
Definition DP_MSG_DRAW_DABS_PIXEL_SQUARE : DP_MessageType := 150.
Definition DP_MSG_DRAW_DABS_MYPAINT : DP_MessageType := 151.

Definition DP_message_context_id (msg : DP_Message) : Z :=
  match msg with Message c _ => c end.

Definition DP_message_body (msg : DP_Message) : MessageBody :=
  match msg with Message _ b => b end.

Definition DP_message_type (msg : DP_Message) : DP_MessageType :=
  match DP_message_body msg with
  | MsgInternal _ => DP_MSG_INTERNAL
  | MsgLaserTrail _ _ => DP_MSG_LASER_TRAIL
  | MsgMovePointer _ _ => DP_MSG_MOVE_POINTER
  | MsgDefaultLayer _ => DP_MSG_DEFAULT_LAYER
  | MsgDrawDabsClassic _ => DP_MSG_DRAW_DABS_CLASSIC
  | MsgDrawDabsPixel _ => DP_MSG_DRAW_DABS_PIXEL
  | MsgDrawDabsPixelSquare _ => DP_MSG_DRAW_DABS_PIXEL_SQUARE
  | MsgDrawDabsMyPaint _ => DP_MSG_DRAW_DABS_MYPAINT
  | MsgOther t => t
  end.

(** The typed accessors; on a message of another type they read zero or no
    dabs (the C casts are only reached after the type has been checked). *)
Definition DP_msg_laser_trail_color (msg : DP_Message) : Z :=
  match DP_message_body msg with MsgLaserTrail c _ => c | _ => 0 end.
Definition DP_msg_laser_trail_persistence (msg : DP_Message) : Z :=
  match DP_message_body msg with MsgLaserTrail _ p => p | _ => 0 end.
Definition DP_msg_move_pointer_x (msg : DP_Message) : Z :=
  match DP_message_body msg with MsgMovePointer x _ => x | _ => 0 end.
Definition DP_msg_move_pointer_y (msg : DP_Message) : Z :=
  match DP_message_body msg with MsgMovePointer _ y => y | _ => 0 end.
Definition DP_msg_default_layer_id (msg : DP_Message) : Z :=
  match DP_message_body msg with MsgDefaultLayer i => i | _ => 0 end.
Definition DP_msg_draw_dabs_classic_dabs (msg : DP_Message)
    : list DP_ClassicDab :=
  match DP_message_body msg with MsgDrawDabsClassic dabs => dabs | _ => [] end.
Definition DP_msg_draw_dabs_pixel_dabs (msg : DP_Message) : list DP_PixelDab :=
  match DP_message_body msg with
  | MsgDrawDabsPixel dabs | MsgDrawDabsPixelSquare dabs => dabs
  | _ => []
  end.
Definition DP_msg_draw_dabs_mypaint_dabs (msg : DP_Message)
    : list DP_MyPaintDab :=
  match DP_message_body msg with MsgDrawDabsMyPaint dabs => dabs | _ => [] end.

(** ** Events: the calls that leave the engine *)

(** What the paint thread and the teardown do to their collaborators. *)
Inductive Effect : Type :=
| EMessageIncref (msg : DP_Message)
| EMessageDecref (msg : DP_Message)
| EPreviewDispose (preview : DP_PaintEnginePreview)
| EHistoryReset
| EHistorySoftReset
| EHistorySnapshot
| EHistoryCleanup
| EWarnUnhandledInternal (type : Z)
| EHistoryHandle (msg : DP_Message)
| EHistoryHandleLocal (msg : DP_Message)
| EHistoryHandleMultidabDec (count : Z) (msgs : list DP_Message)
| EHistoryHandleLocalMultidabDec (count : Z) (msgs : list DP_Message).

(** The four callbacks of [DP_paint_engine_handle_inc]. *)
Inductive IncCallback : Type :=
| CbAclsChanged (acl_change_flags : Z)
| CbLaserTrail (context_id persistence color : Z)
| CbMovePointer (context_id x y : Z)
| CbDefaultLayerSet (layer_id : Z).

(** ** The meta buffer of [handle_inc] *)

Record DP_PaintEngineLaserBuffer := {
  lb_persistence : Z; lb_b : Z; lb_g : Z; lb_r : Z; lb_a : Z
}.

Record DP_PaintEngineCursorPosition := { cp_x : Z; cp_y : Z }.

(** The 256-entry C arrays are indexed by a [uint8_t] and so never out of
    range; they are total maps from the index. *)
Definition array_set {A : Type} (arr : Z -> A) (i : Z) (v : A) : Z -> A :=
  fun j => if j =? i then v else arr j.

Record DP_PaintEngineLaserChanges := {
  laser_count : Z;
  laser_users : Z -> Z;
  laser_active : Z -> bool;
  laser_buffers : Z -> DP_PaintEngineLaserBuffer
}.

Record DP_PaintEngineCursorChanges := {
  cursor_count : Z;
  cursor_users : Z -> Z;
  cursor_active : Z -> bool;
  cursor_positions : Z -> DP_PaintEngineCursorPosition
}.

Record DP_PaintEngineMetaBuffer := {
  acl_change_flags : Z;
  have_default_layer : bool;
  default_layer : Z;
  laser_changes : DP_PaintEngineLaserChanges;
  cursor_changes : DP_PaintEngineCursorChanges
}.

(** [(uint8_t)x] *)
Definition uint8 (x : Z) : Z := x mod 256.

(** [DP_UPixel8] is a union of a 32-bit colour and its four bytes, blue
    lowest. *)
Definition upixel8_b (color : Z) : Z := Z.land color 255.
Definition upixel8_g (color : Z) : Z := Z.land (Z.shiftr color 8) 255.
Definition upixel8_r (color : Z) : Z := Z.land (Z.shiftr color 16) 255.
Definition upixel8_a (color : Z) : Z := Z.land (Z.shiftr color 24) 255.
Definition upixel8_color (b g r a : Z) : Z :=
  Z.lor (Z.lor b (Z.shiftl g 8)) (Z.lor (Z.shiftl r 16) (Z.shiftl a 24)).

(** ** Local view and engine state *)

Inductive DP_LayerViewMode : Type :=
| DP_LAYER_VIEW_MODE_NORMAL
| DP_LAYER_VIEW_MODE_SOLO
| DP_LAYER_VIEW_MODE_FRAME
| DP_LAYER_VIEW_MODE_ONION_SKIN.

Definition DP_LayerViewMode_eqb (a b : DP_LayerViewMode) : bool :=
  match a, b with
  | DP_LAYER_VIEW_MODE_NORMAL, DP_LAYER_VIEW_MODE_NORMAL
  | DP_LAYER_VIEW_MODE_SOLO, DP_LAYER_VIEW_MODE_SOLO
  | DP_LAYER_VIEW_MODE_FRAME, DP_LAYER_VIEW_MODE_FRAME
  | DP_LAYER_VIEW_MODE_ONION_SKIN, DP_LAYER_VIEW_MODE_ONION_SKIN => true
  | _, _ => false
  end.

Section EngineState.

(** The collaborators' objects are opaque to the engine: the ACL state
    machine behind [pe->acls], canvas states and layer props lists (of
    which the engine compares and stores pointers). *)
Context {AclState CanvasState LayerPropsList : Type}.

(** [pe->local_view].  [hidden_layers] is the used part of the growable
    [layer_ids] array; a nullable pointer is an [option]. *)
Record LocalView := {
  active_layer_id : Z;
  active_frame_index : Z;
  layer_view_mode : DP_LayerViewMode;
  reveal_censored : bool;
  inspect_context_id : Z;
  hidden_layers : list Z;
  prev_lpl : option LayerPropsList;
  lpl : option LayerPropsList
}.

(** [struct DP_PaintEngine], without the handles that no modelled function
    reads (history, diff, render target, draw contexts, mutex, threads).
    A queue is the list of its messages, oldest first; [queue_sem] is the
    semaphore's value.  [meta_buffer] stands for [pe->buffers] read as a
    [DP_PaintEngineMetaBuffer]; that memory is shared with other uses, so
    nothing is assumed about its contents when [handle_inc] starts. *)
Record DP_PaintEngine := {
  acls : AclState;
  history_cs : CanvasState;
  view_cs : CanvasState;
  local_view : LocalView;
  preview : PreviewPtr;
  local_queue : list DP_Message;
  remote_queue : list DP_Message;
  queue_sem : Z;
  running : bool;
  catchup : Z;
  next_preview : PreviewPtr;
  meta_buffer : DP_PaintEngineMetaBuffer
}.

Definition with_acls (pe : DP_PaintEngine) (v : AclState) :=
  {| acls := v; history_cs := history_cs pe; view_cs := view_cs pe;
     local_view := local_view pe; preview := preview pe;
     local_queue := local_queue pe; remote_queue := remote_queue pe;
     queue_sem := queue_sem pe; running := running pe;
     catchup := catchup pe; next_preview := next_preview pe;
     meta_buffer := meta_buffer pe |}.

Definition with_history_cs (pe : DP_PaintEngine) (v : CanvasState) :=
  {| acls := acls pe; history_cs := v; view_cs := view_cs pe;
     local_view := local_view pe; preview := preview pe;
     local_queue := local_queue pe; remote_queue := remote_queue pe;
     queue_sem := queue_sem pe; running := running pe;
     catchup := catchup pe; next_preview := next_preview pe;
     meta_buffer := meta_buffer pe |}.

Definition with_view_cs (pe : DP_PaintEngine) (v : CanvasState) :=
  {| acls := acls pe; history_cs := history_cs pe; view_cs := v;
     local_view := local_view pe; preview := preview pe;
     local_queue := local_queue pe; remote_queue := remote_queue pe;
     queue_sem := queue_sem pe; running := running pe;
     catchup := catchup pe; next_preview := next_preview pe;
     meta_buffer := meta_buffer pe |}.

Definition with_local_view (pe : DP_PaintEngine) (v : LocalView) :=
  {| acls := acls pe; history_cs := history_cs pe; view_cs := view_cs pe;
     local_view := v; preview := preview pe;
     local_queue := local_queue pe; remote_queue := remote_queue pe;
     queue_sem := queue_sem pe; running := running pe;
     catchup := catchup pe; next_preview := next_preview pe;
     meta_buffer := meta_buffer pe |}.

Definition with_preview (pe : DP_PaintEngine) (v : PreviewPtr) :=
  {| acls := acls pe; history_cs := history_cs pe; view_cs := view_cs pe;
     local_view := local_view pe; preview := v;
     local_queue := local_queue pe; remote_queue := remote_queue pe;
     queue_sem := queue_sem pe; running := running pe;
     catchup := catchup pe; next_preview := next_preview pe;
     meta_buffer := meta_buffer pe |}.

Definition with_local_queue (pe : DP_PaintEngine) (v : list DP_Message) :=
  {| acls := acls pe; history_cs := history_cs pe; view_cs := view_cs pe;
     local_view := local_view pe; preview := preview pe;
     local_queue := v; remote_queue := remote_queue pe;
     queue_sem := queue_sem pe; running := running pe;
     catchup := catchup pe; next_preview := next_preview pe;
     meta_buffer := meta_buffer pe |}.

Definition with_remote_queue (pe : DP_PaintEngine) (v : list DP_Message) :=
  {| acls := acls pe; history_cs := history_cs pe; view_cs := view_cs pe;
     local_view := local_view pe; preview := preview pe;
     local_queue := local_queue pe; remote_queue := v;
     queue_sem := queue_sem pe; running := running pe;
     catchup := catchup pe; next_preview := next_preview pe;
     meta_buffer := meta_buffer pe |}.

Definition with_queue_sem (pe : DP_PaintEngine) (v : Z) :=
  {| acls := acls pe; history_cs := history_cs pe; view_cs := view_cs pe;
     local_view := local_view pe; preview := preview pe;
     local_queue := local_queue pe; remote_queue := remote_queue pe;
     queue_sem := v; running := running pe;
     catchup := catchup pe; next_preview := next_preview pe;
     meta_buffer := meta_buffer pe |}.

Definition with_running (pe : DP_PaintEngine) (v : bool) :=
  {| acls := acls pe; history_cs := history_cs pe; view_cs := view_cs pe;
     local_view := local_view pe; preview := preview pe;
     local_queue := local_queue pe; remote_queue := remote_queue pe;
     queue_sem := queue_sem pe; running := v;
     catchup := catchup pe; next_preview := next_preview pe;
     meta_buffer := meta_buffer pe |}.

Definition with_catchup (pe : DP_PaintEngine) (v : Z) :=
  {| acls := acls pe; history_cs := history_cs pe; view_cs := view_cs pe;
     local_view := local_view pe; preview := preview pe;
     local_queue := local_queue pe; remote_queue := remote_queue pe;
     queue_sem := queue_sem pe; running := running pe;
     catchup := v; next_preview := next_preview pe;
     meta_buffer := meta_buffer pe |}.

Definition with_next_preview (pe : DP_PaintEngine) (v : PreviewPtr) :=
  {| acls := acls pe; history_cs := history_cs pe; view_cs := view_cs pe;
     local_view := local_view pe; preview := preview pe;
     local_queue := local_queue pe; remote_queue := remote_queue pe;
     queue_sem := queue_sem pe; running := running pe;
     catchup := catchup pe; next_preview := v;
     meta_buffer := meta_buffer pe |}.

Definition with_meta_buffer (pe : DP_PaintEngine)
    (v : DP_PaintEngineMetaBuffer) :=
  {| acls := acls pe; history_cs := history_cs pe; view_cs := view_cs pe;
     local_view := local_view pe; preview := preview pe;
     local_queue := local_queue pe; remote_queue := remote_queue pe;
     queue_sem := queue_sem pe; running := running pe;
     catchup := catchup pe; next_preview := next_preview pe;
     meta_buffer := v |}.

(** The queue a [DP_Queue *] chosen by [local] points to. *)
Definition queue_of (pe : DP_PaintEngine) (local : bool) : list DP_Message :=
  if local then local_queue pe else remote_queue pe.

Definition with_queue_of (pe : DP_PaintEngine) (local : bool)
    (v : list DP_Message) : DP_PaintEngine :=
  if local then with_local_queue pe v else with_remote_queue pe v.

(** ** The paint thread *)

Definition free_preview (p : PreviewPtr) : list Effect :=
  match p with
  | PreviewAt preview => [EPreviewDispose preview]
  | PreviewNULL | PreviewSentinel => []
  end.

Definition handle_internal (pe : DP_PaintEngine) (mi : DP_MsgInternal)
    : DP_PaintEngine * list Effect :=
  match mi with
  | InternalReset => (pe, [EHistoryReset])
  | InternalSoftReset => (pe, [EHistorySoftReset])
  | InternalSnapshot => (pe, [EHistorySnapshot])
  | InternalCatchup progress => (with_catchup pe progress, [])
  | InternalCleanup => (pe, [EHistoryCleanup])
  | InternalPreview data =>
      (with_next_preview pe data, free_preview (next_preview pe))
  | InternalOther type => (pe, [EWarnUnhandledInternal type])
  end.

Definition MAX_MULTIDAB_MESSAGES : Z := 1024.
Definition MAX_MULTIDAB_AREA : Z := 256 * 256 * 16.
Definition MAX_MULTIDAB_AREA_THRESHOLD : Z := Z.quot MAX_MULTIDAB_AREA 2.

(** [DP_message_queue_shift]: the oldest message, or [NULL] when the queue
    is empty. *)
Definition DP_message_queue_shift (queue : list DP_Message)
    : option DP_Message * list DP_Message :=
  match queue with
  | [] => (None, [])
  | msg :: rest => (Some msg, rest)
  end.

(** Returns [local], [msgs[0]] and the engine after the shift. *)
Definition shift_first_message (pe : DP_PaintEngine)
    : bool * option DP_Message * DP_PaintEngine :=
  match DP_message_queue_shift (local_queue pe) with
  | (Some msg, rest) => (true, Some msg, with_local_queue pe rest)
  | (None, _) =>
      let '(msg, rest) := DP_message_queue_shift (remote_queue pe) in
      (false, msg, with_remote_queue pe rest)
  end.

(** The three loops run [for (i = 0; i < count && dabs_area <
    MAX_MULTIDAB_AREA; ++i)] over the dabs of one message.  Dab sizes are
    small unsigned wire values, so neither [diameter * diameter] nor the
    running sum leaves the range of [int]; [/] on them is [Z.quot]. *)
Fixpoint get_classic_dabs_area (cds : list DP_ClassicDab) (dabs_area : Z)
    : Z :=
  match cds with
  | [] => dabs_area
  | cd :: rest =>
      if dabs_area <? MAX_MULTIDAB_AREA then
        let radius := Z.quot (DP_classic_dab_size cd) 256 in
        let diameter := radius * 2 in
        let area := Z.max 1 (diameter * diameter) in
        get_classic_dabs_area rest (dabs_area + area)
      else dabs_area
  end.

Fixpoint get_pixel_dabs_area (pds : list DP_PixelDab) (dabs_area : Z) : Z :=
  match pds with
  | [] => dabs_area
  | pd :: rest =>
      if dabs_area <? MAX_MULTIDAB_AREA then
        let radius := DP_pixel_dab_size pd in
        let diameter := radius * 2 in
        let area := Z.max 1 (diameter * diameter) in
        get_pixel_dabs_area rest (dabs_area + area)
      else dabs_area
  end.

Fixpoint get_mypaint_dabs_area (mpds : list DP_MyPaintDab) (dabs_area : Z)
    : Z :=
  match mpds with
  | [] => dabs_area
  | mpd :: rest =>
      if dabs_area <? MAX_MULTIDAB_AREA then
        let diameter := Z.quot (DP_mypaint_dab_size mpd) 256 in
        let area := Z.max 1 (diameter * diameter) in
        get_mypaint_dabs_area rest (dabs_area + area)
      else dabs_area
  end.

Definition get_dabs_area (msg : DP_Message) (type : DP_MessageType)
    (dabs_area : Z) : Z :=
  if type =? DP_MSG_DRAW_DABS_CLASSIC then
    get_classic_dabs_area (DP_msg_draw_dabs_classic_dabs msg) dabs_area
  else if (type =? DP_MSG_DRAW_DABS_PIXEL)
          || (type =? DP_MSG_DRAW_DABS_PIXEL_SQUARE) then
    get_pixel_dabs_area (DP_msg_draw_dabs_pixel_dabs msg) dabs_area
  else if type =? DP_MSG_DRAW_DABS_MYPAINT then
    get_mypaint_dabs_area (DP_msg_draw_dabs_mypaint_dabs msg) dabs_area
  else MAX_MULTIDAB_AREA + 1.

(** The [while] loop of [shift_more_draw_dabs_messages]: [queue] is what
    is left to peek at, [msgs] the filled part of the batch array. *)
Fixpoint shift_more_loop (queue : list DP_Message) (count : Z)
    (total_dabs_area : Z) (msgs : list DP_Message)
    : list DP_Message * Z * list DP_Message :=
  match queue with
  | [] => (queue, count, msgs)
  | msg :: rest =>
      if count <? MAX_MULTIDAB_MESSAGES then
        let total_dabs_area :=
          get_dabs_area msg (DP_message_type msg) total_dabs_area in
        if total_dabs_area <=? MAX_MULTIDAB_AREA
        then shift_more_loop rest (count + 1) total_dabs_area (msgs ++ [msg])
        else (queue, count, msgs)
      else (queue, count, msgs)
  end.

Definition shift_more_draw_dabs_messages (pe : DP_PaintEngine)
    (local : bool) (msgs : list DP_Message) (initial_dabs_area : Z)
    : Z * list DP_Message * DP_PaintEngine :=
  let '(queue, count, msgs) :=
    shift_more_loop (queue_of pe local) 1 initial_dabs_area msgs in
  let pe := with_queue_of pe local queue in
  let pe :=
    if 1 <? count then with_queue_sem pe (queue_sem pe - (count - 1))
    else pe in
  (count, msgs, pe).

Definition maybe_shift_more_messages (pe : DP_PaintEngine) (local : bool)
    (type : DP_MessageType) (first : DP_Message)
    : Z * list DP_Message * DP_PaintEngine :=
  let dabs_area := get_dabs_area first type 0 in
  if dabs_area <=? MAX_MULTIDAB_AREA_THRESHOLD
  then shift_more_draw_dabs_messages pe local [first] dabs_area
  else (1, [first], pe).

Definition handle_single_message (pe : DP_PaintEngine) (local : bool)
    (type : DP_MessageType) (msg : DP_Message)
    : DP_PaintEngine * list Effect :=
  let '(pe, effects) :=
    if type =? DP_MSG_INTERNAL then
      match DP_message_body msg with
      | MsgInternal mi => handle_internal pe mi
      | _ => (pe, [])
      end
    else if local then (pe, [EHistoryHandleLocal msg])
    else (pe, [EHistoryHandle msg]) in
  (pe, effects ++ [EMessageDecref msg]).

Definition handle_multidab (local : bool) (count : Z)
    (msgs : list DP_Message) : list Effect :=
  if local then [EHistoryHandleLocalMultidabDec count msgs]
  else [EHistoryHandleMultidabDec count msgs].

(** The part of [handle_message] that runs under [queue_mutex]: which
    queue was served, the batch [msgs[0..count)], and the engine after the
    shifts.  [None] when both queues are empty: [msgs[0]] is then [NULL]
    and its type cannot be read (the semaphore keeps the paint thread from
    getting there). *)
Definition handle_message_shift (pe : DP_PaintEngine)
    : option (bool * Z * list DP_Message * DP_PaintEngine) :=
  match shift_first_message pe with
  | (local, Some first, pe) =>
      let type := DP_message_type first in
      let '(count, msgs, pe) := maybe_shift_more_messages pe local type first in
      Some (local, count, msgs, pe)
  | (_, None, _) => None
  end.

Definition handle_message (pe : DP_PaintEngine)
    : option (DP_PaintEngine * list Effect) :=
  match handle_message_shift pe with
  | Some (local, count, msgs, pe) =>
      if count =? 1 then
        match msgs with
        | first :: _ =>
            Some (handle_single_message pe local (DP_message_type first) first)
        | [] => None
        end
      else Some (pe, handle_multidab local count msgs)
  | None => None
  end.

(** ** Teardown *)

(** Modelled from the spec: [DP_message_queue_dispose]
    ([dpmsg/message_queue.c] is not among the sources).  Teardown "drains
    both queues (decrementing refcounts; disposing any preview-install
    internal messages)": every message left in the queue, oldest first, has
    the payload of a preview install disposed of and is decref'd. *)
Definition DP_message_queue_dispose (queue : list DP_Message)
    : list Effect :=
  flat_map (fun msg =>
              match DP_message_body msg with
              | MsgInternal (InternalPreview data) => free_preview data
              | _ => []
              end
              ++ [EMessageDecref msg]) queue.

(** The [while ((msg = DP_message_queue_shift(&pe->local_queue)))] loop of
    [DP_paint_engine_free_join]. *)
Fixpoint free_join_drain (queue : list DP_Message) : list Effect :=
  match queue with
  | [] => []
  | msg :: rest =>
      (if DP_message_type msg =? DP_MSG_INTERNAL then
         match DP_message_body msg with
         | MsgInternal (InternalPreview data) => free_preview data
         | _ => []
         end
       else [])
      ++ EMessageDecref msg :: free_join_drain rest
  end.

(** [DP_paint_engine_free_join] on the engine as the paint thread left it
    (it was told to stop, woken and joined before the queues are touched).
    The events are those on messages and previews; the releases of the
    remaining fields follow and touch neither. *)
Definition DP_paint_engine_free_join (pe : DP_PaintEngine) : list Effect :=
  free_preview (next_preview pe)
  ++ DP_message_queue_dispose (remote_queue pe)
  ++ free_join_drain (local_queue pe)
  ++ DP_message_queue_dispose []
  ++ free_preview (preview pe).

(** ** Local view setters *)

Definition with_active_layer_id (lv : LocalView) (v : Z) :=
  {| active_layer_id := v; active_frame_index := active_frame_index lv;
     layer_view_mode := layer_view_mode lv;
     reveal_censored := reveal_censored lv;
     inspect_context_id := inspect_context_id lv;
     hidden_layers := hidden_layers lv;
     prev_lpl := prev_lpl lv; lpl := lpl lv |}.

Definition with_active_frame_index (lv : LocalView) (v : Z) :=
  {| active_layer_id := active_layer_id lv; active_frame_index := v;
     layer_view_mode := layer_view_mode lv;
     reveal_censored := reveal_censored lv;
     inspect_context_id := inspect_context_id lv;
     hidden_layers := hidden_layers lv;
     prev_lpl := prev_lpl lv; lpl := lpl lv |}.

Definition with_layer_view_mode (lv : LocalView) (v : DP_LayerViewMode) :=
  {| active_layer_id := active_layer_id lv;
     active_frame_index := active_frame_index lv;
     layer_view_mode := v;
     reveal_censored := reveal_censored lv;
     inspect_context_id := inspect_context_id lv;
     hidden_layers := hidden_layers lv;
     prev_lpl := prev_lpl lv; lpl := lpl lv |}.

Definition with_reveal_censored (lv : LocalView) (v : bool) :=
  {| active_layer_id := active_layer_id lv;
     active_frame_index := active_frame_index lv;
     layer_view_mode := layer_view_mode lv;
     reveal_censored := v;
     inspect_context_id := inspect_context_id lv;
     hidden_layers := hidden_layers lv;
     prev_lpl := prev_lpl lv; lpl := lpl lv |}.

Definition with_inspect_context_id (lv : LocalView) (v : Z) :=
  {| active_layer_id := active_layer_id lv;
     active_frame_index := active_frame_index lv;
     layer_view_mode := layer_view_mode lv;
     reveal_censored := reveal_censored lv;
     inspect_context_id := v;
     hidden_layers := hidden_layers lv;
     prev_lpl := prev_lpl lv; lpl := lpl lv |}.

Definition with_hidden_layers (lv : LocalView) (v : list Z) :=
  {| active_layer_id := active_layer_id lv;
     active_frame_index := active_frame_index lv;
     layer_view_mode := layer_view_mode lv;
     reveal_censored := reveal_censored lv;
     inspect_context_id := inspect_context_id lv;
     hidden_layers := v;
     prev_lpl := prev_lpl lv; lpl := lpl lv |}.

Definition with_prev_lpl (lv : LocalView) (v : option LayerPropsList) :=
  {| active_layer_id := active_layer_id lv;
     active_frame_index := active_frame_index lv;
     layer_view_mode := layer_view_mode lv;
     reveal_censored := reveal_censored lv;
     inspect_context_id := inspect_context_id lv;
     hidden_layers := hidden_layers lv;
     prev_lpl := v; lpl := lpl lv |}.

Definition with_lpl (lv : LocalView) (v : option LayerPropsList) :=
  {| active_layer_id := active_layer_id lv;
     active_frame_index := active_frame_index lv;
     layer_view_mode := layer_view_mode lv;
     reveal_censored := reveal_censored lv;
     inspect_context_id := inspect_context_id lv;
     hidden_layers := hidden_layers lv;
     prev_lpl := prev_lpl lv; lpl := v |}.

Definition invalidate_local_view (pe : DP_PaintEngine) : DP_PaintEngine :=
  with_local_view pe (with_prev_lpl (local_view pe) None).

Definition DP_paint_engine_active_layer_id_set (pe : DP_PaintEngine)
    (layer_id : Z) : DP_PaintEngine :=
  if negb (active_layer_id (local_view pe) =? layer_id) then
    let pe := with_local_view pe
                (with_active_layer_id (local_view pe) layer_id) in
    if negb (DP_LayerViewMode_eqb (layer_view_mode (local_view pe))
               DP_LAYER_VIEW_MODE_NORMAL)
    then invalidate_local_view pe
    else pe
  else pe.

Definition DP_paint_engine_active_frame_index_set (pe : DP_PaintEngine)
    (frame_index : Z) : DP_PaintEngine :=
  if negb (active_frame_index (local_view pe) =? frame_index) then
    let pe := with_local_view pe
                (with_active_frame_index (local_view pe) frame_index) in
    let mode := layer_view_mode (local_view pe) in
    if DP_LayerViewMode_eqb mode DP_LAYER_VIEW_MODE_FRAME
       || DP_LayerViewMode_eqb mode DP_LAYER_VIEW_MODE_ONION_SKIN
    then invalidate_local_view pe
    else pe
  else pe.

Definition DP_paint_engine_view_mode_set (pe : DP_PaintEngine)
    (mode : DP_LayerViewMode) : DP_PaintEngine :=
  if negb (DP_LayerViewMode_eqb (layer_view_mode (local_view pe)) mode) then
    invalidate_local_view
      (with_local_view pe (with_layer_view_mode (local_view pe) mode))
  else pe.

Definition DP_paint_engine_reveal_censored_set (pe : DP_PaintEngine)
    (reveal : bool) : DP_PaintEngine :=
  if negb (Bool.eqb (reveal_censored (local_view pe)) reveal) then
    invalidate_local_view
      (with_local_view pe (with_reveal_censored (local_view pe) reveal))
  else pe.

(** The index of [layer_id] among the used entries, or -1. *)
Fixpoint search_hidden_layer_index_from (layer_ids : list Z) (i : Z)
    (layer_id : Z) : Z :=
  match layer_ids with
  | [] => -1
  | x :: rest =>
      if x =? layer_id then i
      else search_hidden_layer_index_from rest (i + 1) layer_id
  end.

Definition search_hidden_layer_index (pe : DP_PaintEngine) (layer_id : Z)
    : Z :=
  search_hidden_layer_index_from (hidden_layers (local_view pe)) 0 layer_id.

Definition insert_hidden_layer (pe : DP_PaintEngine) (layer_id : Z)
    : DP_PaintEngine :=
  with_local_view pe
    (with_hidden_layers (local_view pe)
       (hidden_layers (local_view pe) ++ [layer_id])).

Fixpoint list_set {A : Type} (l : list A) (i : nat) (v : A) : list A :=
  match l, i with
  | [], _ => []
  | _ :: t, O => v :: t
  | h :: t, S i => h :: list_set t i v
  end.

(** [layer_ids[index] = layer_ids[--used]] *)
Definition remove_hidden_layer_at (layer_ids : list Z) (index : nat)
    : list Z :=
  removelast (list_set layer_ids index (last layer_ids 0)).

Definition remove_hidden_layer (pe : DP_PaintEngine) (index : Z)
    : DP_PaintEngine :=
  with_local_view pe
    (with_hidden_layers (local_view pe)
       (remove_hidden_layer_at (hidden_layers (local_view pe))
          (Z.to_nat index))).

Definition DP_paint_engine_layer_visibility_set (pe : DP_PaintEngine)
    (layer_id : Z) (hidden : bool) : DP_PaintEngine :=
  let index := search_hidden_layer_index pe layer_id in
  if hidden && (index =? -1) then
    invalidate_local_view (insert_hidden_layer pe layer_id)
  else if negb hidden && negb (index =? -1) then
    invalidate_local_view (remove_hidden_layer pe index)
  else pe.

Definition DP_paint_engine_inspect_context_id_set (pe : DP_PaintEngine)
    (context_id : Z) : DP_PaintEngine :=
  if negb (inspect_context_id (local_view pe) =? context_id) then
    invalidate_local_view
      (with_local_view pe
         (with_inspect_context_id (local_view pe) context_id))
  else pe.

(** ** Intake: [DP_paint_engine_handle_inc] *)

(** The ACL state machine is a collaborator: [DP_acl_state_handle] steps
    its state on a message and returns a [uint8_t] of flags. *)
Variable DP_acl_state_handle : AclState -> DP_Message -> AclState * Z.

(** Modelled from the spec: "bit FILTERED (0x01)" of [dpmsg/acl.h], which
    is not among the sources. *)
Definition DP_ACL_STATE_FILTERED_BIT : Z := 1.

(** The change mask of [dpmsg/acl.h]; its value is left open. *)
Variable DP_ACL_STATE_CHANGE_MASK : Z.

Definition is_internal_or_command (type : DP_MessageType) : bool :=
  (128 <=? type) || (type =? DP_MSG_INTERNAL).

Definition handle_laser_trail (pe : DP_PaintEngine) (msg : DP_Message)
    : DP_PaintEngine :=
  let context_id := uint8 (DP_message_context_id msg) in
  let mb := meta_buffer pe in
  let laser := laser_changes mb in
  let count := laser_count laser in
  let laser :=
    if count =? 0 then
      {| laser_count := 1;
         laser_users := array_set (laser_users laser) 0 context_id;
         laser_active := fun _ => false;
         laser_buffers := laser_buffers laser |}
    else if negb (laser_active laser context_id) then
      {| laser_count := uint8 (count + 1);
         laser_users := array_set (laser_users laser) count context_id;
         laser_active := array_set (laser_active laser) context_id true;
         laser_buffers := laser_buffers laser |}
    else laser in
  let color := DP_msg_laser_trail_color msg in
  let laser :=
    {| laser_count := laser_count laser;
       laser_users := laser_users laser;
       laser_active := laser_active laser;
       laser_buffers :=
         array_set (laser_buffers laser) context_id
           {| lb_persistence := DP_msg_laser_trail_persistence msg;
              lb_b := upixel8_b color; lb_g := upixel8_g color;
              lb_r := upixel8_r color; lb_a := upixel8_a color |} |} in
  with_meta_buffer pe
    {| acl_change_flags := acl_change_flags mb;
       have_default_layer := have_default_layer mb;
       default_layer := default_layer mb;
       laser_changes := laser;
       cursor_changes := cursor_changes mb |}.

Definition handle_move_pointer (pe : DP_PaintEngine) (msg : DP_Message)
    : DP_PaintEngine :=
  let context_id := uint8 (DP_message_context_id msg) in
  let mb := meta_buffer pe in
  let cursor := cursor_changes mb in
  let count := cursor_count cursor in
  let cursor :=
    if count =? 0 then
      {| cursor_count := 1;
         cursor_users := array_set (cursor_users cursor) 0 context_id;
         cursor_active := fun _ => false;
         cursor_positions := cursor_positions cursor |}
    else if negb (cursor_active cursor context_id) then
      {| cursor_count := uint8 (count + 1);
         cursor_users := array_set (cursor_users cursor) count context_id;
         cursor_active := array_set (cursor_active cursor) context_id true;
         cursor_positions := cursor_positions cursor |}
    else cursor in
  let cursor :=
    {| cursor_count := cursor_count cursor;
       cursor_users := cursor_users cursor;
       cursor_active := cursor_active cursor;
       cursor_positions :=
         array_set (cursor_positions cursor) context_id
           {| cp_x := DP_msg_move_pointer_x msg;
              cp_y := DP_msg_move_pointer_y msg |} |} in
  with_meta_buffer pe
    {| acl_change_flags := acl_change_flags mb;
       have_default_layer := have_default_layer mb;
       default_layer := default_layer mb;
       laser_changes := laser_changes mb;
       cursor_changes := cursor |}.

Definition handle_default_layer (pe : DP_PaintEngine) (msg : DP_Message)
    : DP_PaintEngine :=
  let mb := meta_buffer pe in
  with_meta_buffer pe
    {| acl_change_flags := acl_change_flags mb;
       have_default_layer := true;
       default_layer := DP_msg_default_layer_id msg;
       laser_changes := laser_changes mb;
       cursor_changes := cursor_changes mb |}.

Definition should_push_message_remote (pe : DP_PaintEngine)
    (msg : DP_Message) : bool * DP_PaintEngine :=
  let '(acls', r) := DP_acl_state_handle (acls pe) msg in
  let result := uint8 r in
  let pe := with_acls pe acls' in
  let mb := meta_buffer pe in
  let pe :=
    with_meta_buffer pe
      {| acl_change_flags := Z.lor (acl_change_flags mb) result;
         have_default_layer := have_default_layer mb;
         default_layer := default_layer mb;
         laser_changes := laser_changes mb;
         cursor_changes := cursor_changes mb |} in
  if Z.land result DP_ACL_STATE_FILTERED_BIT =? 0 then
    let type := DP_message_type msg in
    if is_internal_or_command type then (true, pe)
    else if type =? DP_MSG_LASER_TRAIL then
      (false, handle_laser_trail pe msg)
    else if type =? DP_MSG_MOVE_POINTER then
      (false, handle_move_pointer pe msg)
    else if type =? DP_MSG_DEFAULT_LAYER then
      (false, handle_default_layer pe msg)
    else (false, pe)
  else (false, pe).

Definition should_push_message_local (pe : DP_PaintEngine)
    (msg : DP_Message) : bool * DP_PaintEngine :=
  (is_internal_or_command (DP_message_type msg), pe).

(** [DP_message_queue_push_inc] on the queue chosen by [local]. *)
Definition DP_message_queue_push_inc (pe : DP_PaintEngine) (local : bool)
    (msg : DP_Message) : DP_PaintEngine :=
  with_queue_of pe local (queue_of pe local ++ [msg]).

(** The [for (int i = 1; i < count; ++i)] loop of [push_messages]. *)
Fixpoint push_messages_loop
    (should_push : DP_PaintEngine -> DP_Message -> bool * DP_PaintEngine)
    (pe : DP_PaintEngine) (local : bool) (msgs : list DP_Message)
    (pushed : Z) : Z * DP_PaintEngine :=
  match msgs with
  | [] => (pushed, pe)
  | msg :: rest =>
      let '(push, pe) := should_push pe msg in
      if push then
        push_messages_loop should_push
          (DP_message_queue_push_inc pe local msg) local rest (pushed + 1)
      else push_messages_loop should_push pe local rest pushed
  end.

(** [msgs] is the array from the message that triggered the call on; it is
    never empty there. *)
Definition push_messages (pe : DP_PaintEngine) (local : bool)
    (msgs : list DP_Message)
    (should_push : DP_PaintEngine -> DP_Message -> bool * DP_PaintEngine)
    : Z * DP_PaintEngine :=
  match msgs with
  | [] => (0, pe)
  | first :: rest =>
      let pe := DP_message_queue_push_inc pe local first in
      let '(pushed, pe) := push_messages_loop should_push pe local rest 1 in
      (pushed, with_queue_sem pe (queue_sem pe + pushed))
  end.

(** The first loop of [handle_inc]: "Don't lock anything until we actually
    find a message to push." *)
Fixpoint handle_inc_scan
    (should_push : DP_PaintEngine -> DP_Message -> bool * DP_PaintEngine)
    (pe : DP_PaintEngine) (local : bool) (msgs : list DP_Message)
    : Z * DP_PaintEngine :=
  match msgs with
  | [] => (0, pe)
  | msg :: rest =>
      let '(push, pe) := should_push pe msg in
      if push then push_messages pe local (msg :: rest) should_push
      else handle_inc_scan should_push pe local rest
  end.

(** [0, 1, ..., n-1] as a [for (int i = 0; i < n; ++i)] visits them. *)
Definition loop_indices (n : Z) : list Z :=
  map Z.of_nat (seq 0 (Z.to_nat n)).

Definition laser_trail_calls (laser : DP_PaintEngineLaserChanges)
    : list IncCallback :=
  map (fun i =>
         let context_id := laser_users laser i in
         let lb := laser_buffers laser context_id in
         CbLaserTrail context_id (lb_persistence lb)
           (upixel8_color (lb_b lb) (lb_g lb) (lb_r lb) (lb_a lb)))
      (loop_indices (laser_count laser)).

Definition move_pointer_calls (cursor : DP_PaintEngineCursorChanges)
    : list IncCallback :=
  map (fun i =>
         let context_id := cursor_users cursor i in
         let cp := cursor_positions cursor context_id in
         CbMovePointer context_id (cp_x cp) (cp_y cp))
      (loop_indices (cursor_count cursor)).

(** The meta buffer as [handle_inc] resets it on entry. *)
Definition reset_meta_buffer (mb : DP_PaintEngineMetaBuffer)
    : DP_PaintEngineMetaBuffer :=
  {| acl_change_flags := 0;
     have_default_layer := false;
     default_layer := default_layer mb;
     laser_changes :=
       {| laser_count := 0;
          laser_users := laser_users (laser_changes mb);
          laser_active := laser_active (laser_changes mb);
          laser_buffers := laser_buffers (laser_changes mb) |};
     cursor_changes :=
       {| cursor_count := 0;
          cursor_users := cursor_users (cursor_changes mb);
          cursor_active := cursor_active (cursor_changes mb);
          cursor_positions := cursor_positions (cursor_changes mb) |} |}.

(** The callbacks fired after the loop, in call order. *)
Definition handle_inc_callbacks (mb : DP_PaintEngineMetaBuffer)
    : list IncCallback :=
  let flags := Z.land (acl_change_flags mb) DP_ACL_STATE_CHANGE_MASK in
  (if negb (flags =? 0) then [CbAclsChanged flags] else [])
  ++ laser_trail_calls (laser_changes mb)
  ++ move_pointer_calls (cursor_changes mb)
  ++ (if have_default_layer mb
      then [CbDefaultLayerSet (default_layer mb)] else []).

(** [msgs] holds at least [count] messages; the first [count] are read.
    Returns [pushed], the engine afterwards and the callbacks fired. *)
Definition DP_paint_engine_handle_inc (pe : DP_PaintEngine) (local : bool)
    (count : Z) (msgs : list DP_Message)
    : Z * DP_PaintEngine * list IncCallback :=
  let should_push :=
    if local then should_push_message_local
    else should_push_message_remote in
  let pe := with_meta_buffer pe (reset_meta_buffer (meta_buffer pe)) in
  let '(pushed, pe) :=
    handle_inc_scan should_push pe local (firstn (Z.to_nat count) msgs) in
  (pushed, pe, handle_inc_callbacks (meta_buffer pe)).

(** The ACL state machine stepped over [msgs] in order, one
    [DP_acl_state_handle] call per message. *)
Definition acl_run (s : AclState) (msgs : list DP_Message) : AclState :=
  fold_left (fun s msg => fst (DP_acl_state_handle s msg)) msgs s.

(** ** Previews *)

(** [DP_msg_internal_preview_new(0, preview)], pushed without incref. *)
Definition sync_preview (pe : DP_PaintEngine) (preview : PreviewPtr)
    : DP_PaintEngine :=
  let msg := Message 0 (MsgInternal (InternalPreview preview)) in
  let pe := with_local_queue pe (local_queue pe ++ [msg]) in
  with_queue_sem pe (queue_sem pe + 1).

Definition DP_paint_engine_preview_clear (pe : DP_PaintEngine)
    : DP_PaintEngine :=
  sync_preview pe PreviewSentinel.

(** ** The canvas collaborators *)

Record DP_UserCursor := {
  uc_context_id : Z; uc_layer_id : Z; uc_x : Z; uc_y : Z
}.

(** What the engine reads of a layer props tree: the id, the censored flag
    and the child list, which is [NULL] ([None]) on a leaf and a list,
    possibly empty, on a group. *)
Local Unset Elimination Schemes.
Inductive DP_LayerProps : Type :=
| LayerProps (id : Z) (censored : bool)
             (children : option (list DP_LayerProps)).
Local Set Elimination Schemes.

Definition DP_layer_props_id (lp : DP_LayerProps) : Z :=
  match lp with LayerProps id _ _ => id end.
Definition DP_layer_props_censored (lp : DP_LayerProps) : bool :=
  match lp with LayerProps _ c _ => c end.
Definition DP_layer_props_children_noinc (lp : DP_LayerProps)
    : option (list DP_LayerProps) :=
  match lp with LayerProps _ _ ch => ch end.

(** One pass through the [if (hide_layer || change_censored)] block of
    [set_local_view_layer_props_recursive]: the transient props reached by
    the draw context's index path get [hidden_by_view_mode] set when
    [edit_hide], and [censored] cleared when [edit_uncensor]. *)
Record LayerPropsEdit := {
  edit_indexes : list nat;
  edit_hide : bool;
  edit_uncensor : bool
}.

(** The canvas state interface the engine consumes.  Annotation and
    metadata objects are only compared by address.  [lpl_eqb] is pointer
    equality of layer props lists; [layer_props_tree] reads a list's
    entries.  The remaining operations build the next canvas state and
    belong to the canvas-state, layer-routes and preview code. *)
Record CanvasApi := {
  DP_canvas_state_width : CanvasState -> Z;
  DP_canvas_state_height : CanvasState -> Z;
  DP_canvas_state_offset_x : CanvasState -> Z;
  DP_canvas_state_offset_y : CanvasState -> Z;
  DP_canvas_state_layer_props_noinc : CanvasState -> LayerPropsList;
  DP_canvas_state_annotations_noinc : CanvasState -> Z;
  DP_canvas_state_metadata_noinc : CanvasState -> Z;
  DP_canvas_state_transient : CanvasState -> bool;
  DP_transient_canvas_state_new : CanvasState -> CanvasState;
  DP_transient_canvas_state_layer_props_set_inc :
    CanvasState -> option LayerPropsList -> CanvasState;
  DP_canvas_state_diff : CanvasState -> CanvasState -> list (Z * Z) * bool;
  lpl_eqb : LayerPropsList -> LayerPropsList -> bool;
  layer_props_tree : LayerPropsList -> list DP_LayerProps;
  layer_props_edit : CanvasState -> LayerPropsEdit -> CanvasState;
  layer_routes_hide : CanvasState -> Z -> option CanvasState;
  inspect_overlay : Z -> CanvasState -> CanvasState;
  preview_render :
    DP_PaintEnginePreview -> CanvasState -> Z -> Z -> CanvasState
}.

Variable api : CanvasApi.

Definition preview_initial_offset_x (p : DP_PaintEnginePreview) : Z :=
  match p with CutPreview x _ _ _ _ _ _ _ | DabsPreview x _ _ _ _ => x end.
Definition preview_initial_offset_y (p : DP_PaintEnginePreview) : Z :=
  match p with CutPreview _ y _ _ _ _ _ _ | DabsPreview _ y _ _ _ => y end.

(** [DP_paint_engine_preview_cut]: the mask, when given, is read as
    [width * height] alpha values.  [set_preview] stamps the offsets of the
    current view and hands the preview to [sync_preview]; which of the two
    render and dispose functions it carries is the constructor. *)
Definition DP_paint_engine_preview_cut (pe : DP_PaintEngine)
    (layer_id x y width height : Z) (mask_or_null : option (list Z))
    : DP_PaintEngine :=
  let mask :=
    match mask_or_null with
    | Some alphas => Some (firstn (Z.to_nat (width * height)) alphas)
    | None => None
    end in
  let cs := view_cs pe in
  sync_preview pe
    (PreviewAt (CutPreview (DP_canvas_state_offset_x api cs)
                           (DP_canvas_state_offset_y api cs)
                           layer_id x y width height mask)).

(** [DP_paint_engine_preview_dabs_inc]: returns the engine and the message
    increfs it made. *)
Definition DP_paint_engine_preview_dabs_inc (pe : DP_PaintEngine)
    (layer_id count : Z) (messages : list DP_Message)
    : DP_PaintEngine * list Effect :=
  if 0 <? count then
    let held := firstn (Z.to_nat count) messages in
    let cs := view_cs pe in
    (sync_preview pe
       (PreviewAt (DabsPreview (DP_canvas_state_offset_x api cs)
                               (DP_canvas_state_offset_y api cs)
                               layer_id count held)),
     map EMessageIncref held)
  else (pe, []).

(** ** View composition *)

Definition apply_preview (pe : DP_PaintEngine) (cs : CanvasState)
    : CanvasState :=
  match preview pe with
  | PreviewAt p =>
      preview_render api p cs
        (preview_initial_offset_x p - DP_canvas_state_offset_x api cs)
        (preview_initial_offset_y p - DP_canvas_state_offset_y api cs)
  | PreviewNULL | PreviewSentinel => cs
  end.

Definition get_or_make_transient_canvas_state (cs : CanvasState)
    : CanvasState :=
  if DP_canvas_state_transient api cs then cs
  else DP_transient_canvas_state_new api cs.

Definition apply_inspect (pe : DP_PaintEngine) (cs : CanvasState)
    : CanvasState :=
  let context_id := inspect_context_id (local_view pe) in
  if context_id =? 0 then cs
  else inspect_overlay api context_id
         (get_or_make_transient_canvas_state cs).

(** The view mode handed down to the children of [lp], and whether [lp]
    itself is hidden: the [switch (layer_view_mode)]. *)
Definition solo_switch (active_layer_id : Z) (mode : DP_LayerViewMode)
    (lp : DP_LayerProps) : bool * DP_LayerViewMode :=
  match mode with
  | DP_LAYER_VIEW_MODE_SOLO =>
      if DP_layer_props_id lp =? active_layer_id
      then (false, DP_LAYER_VIEW_MODE_NORMAL)
      else (match DP_layer_props_children_noinc lp with
            | None => true
            | Some _ => false
            end, mode)
  | _ => (false, mode)
  end.

(** The body of the [for] loop for the entry [lp] found at [indexes] (the
    draw context's index stack after [push] and [set]), followed by the
    recursive call on its children. *)
Fixpoint set_local_view_layer_props_entry (active_layer_id : Z)
    (mode : DP_LayerViewMode) (reveal : bool) (indexes : list nat)
    (lp : DP_LayerProps) {struct lp} : list LayerPropsEdit :=
  match lp with
  | LayerProps id censored child_lpl =>
      let '(hide_layer, child_mode) :=
        solo_switch active_layer_id mode (LayerProps id censored child_lpl) in
      let change_censored := reveal && censored in
      (if hide_layer || change_censored
       then [{| edit_indexes := indexes; edit_hide := hide_layer;
                edit_uncensor := change_censored |}]
       else [])
      ++ match child_lpl with
         | Some entries =>
             (fix each (l : list DP_LayerProps) (i : nat)
                : list LayerPropsEdit :=
                match l with
                | [] => []
                | child :: rest =>
                    set_local_view_layer_props_entry active_layer_id
                      child_mode reveal (indexes ++ [i]) child
                    ++ each rest (S i)
                end) entries O
         | None => []
         end
  end.

(** The [for (int i = ...; i < count; ++i)] loop from index [i] on. *)
Fixpoint set_local_view_layer_props_from (active_layer_id : Z)
    (mode : DP_LayerViewMode) (reveal : bool) (indexes : list nat)
    (entries : list DP_LayerProps) (i : nat) : list LayerPropsEdit :=
  match entries with
  | [] => []
  | lp :: rest =>
      set_local_view_layer_props_entry active_layer_id mode reveal
        (indexes ++ [i]) lp
      ++ set_local_view_layer_props_from active_layer_id mode reveal
           indexes rest (S i)
  end.

(** [indexes] is the index stack on entry; the edits are listed in the
    order the C code makes them. *)
Definition set_local_view_layer_props_recursive (active_layer_id : Z)
    (mode : DP_LayerViewMode) (reveal : bool) (indexes : list nat)
    (entries : list DP_LayerProps) : list LayerPropsEdit :=
  set_local_view_layer_props_from active_layer_id mode reveal indexes
    entries O.

(** The [while (i < used)] loop of [set_hidden_layer_props].  Every round
    either moves [i] up or purges one id, so [length layer_ids] rounds are
    enough; [fuel] counts them down. *)
Fixpoint set_hidden_layer_props_loop (fuel : nat) (layer_ids : list Z)
    (i : nat) (tcs : CanvasState) : list Z * CanvasState :=
  match fuel with
  | O => (layer_ids, tcs)
  | S fuel =>
      match nth_error layer_ids i with
      | None => (layer_ids, tcs)
      | Some layer_id =>
          match layer_routes_hide api tcs layer_id with
          | Some tcs => set_hidden_layer_props_loop fuel layer_ids (S i) tcs
          | None =>
              set_hidden_layer_props_loop fuel
                (remove_hidden_layer_at layer_ids i) i tcs
          end
      end
  end.

Definition set_hidden_layer_props (pe : DP_PaintEngine) (tcs : CanvasState)
    : DP_PaintEngine * CanvasState :=
  let layer_ids := hidden_layers (local_view pe) in
  let '(layer_ids, tcs) :=
    set_hidden_layer_props_loop (length layer_ids) layer_ids O tcs in
  (with_local_view pe (with_hidden_layers (local_view pe) layer_ids), tcs).

Definition set_local_layer_props (pe : DP_PaintEngine) (cs : CanvasState)
    : DP_PaintEngine * CanvasState :=
  let tcs := get_or_make_transient_canvas_state cs in
  let mode := layer_view_mode (local_view pe) in
  let reveal := reveal_censored (local_view pe) in
  let tcs :=
    if negb (DP_LayerViewMode_eqb mode DP_LAYER_VIEW_MODE_NORMAL) || reveal
    then
      fold_left (layer_props_edit api)
        (set_local_view_layer_props_recursive
           (active_layer_id (local_view pe)) mode reveal []
           (layer_props_tree api
              (DP_canvas_state_layer_props_noinc api tcs)))
        tcs
    else tcs in
  let '(pe, tcs) :=
    match hidden_layers (local_view pe) with
    | [] => (pe, tcs)
    | _ :: _ => set_hidden_layer_props pe tcs
    end in
  (with_local_view pe
     (with_lpl (local_view pe)
        (Some (DP_canvas_state_layer_props_noinc api tcs))),
   tcs).

Definition apply_local_layer_props (pe : DP_PaintEngine) (cs : CanvasState)
    : DP_PaintEngine * CanvasState :=
  let cs_lpl := DP_canvas_state_layer_props_noinc api cs in
  let same :=
    match prev_lpl (local_view pe) with
    | Some prev => lpl_eqb api cs_lpl prev
    | None => false
    end in
  if same then
    let keep_layer_props :=
      DP_LayerViewMode_eqb (layer_view_mode (local_view pe))
        DP_LAYER_VIEW_MODE_NORMAL
      && negb (reveal_censored (local_view pe))
      && (Z.of_nat (length (hidden_layers (local_view pe))) =? 0) in
    if keep_layer_props then (pe, cs)
    else
      (pe,
       DP_transient_canvas_state_layer_props_set_inc api
         (get_or_make_transient_canvas_state cs) (lpl (local_view pe)))
  else
    set_local_layer_props
      (with_local_view pe (with_prev_lpl (local_view pe) (Some cs_lpl))) cs.

(** The callbacks of [DP_paint_engine_tick] ([timeline_changed] is taken
    and never called). *)
Inductive TickCallback : Type :=
| CbCatchup (progress : Z)
| CbResized (offset_x offset_y prev_width prev_height : Z)
| CbTileChanged (x y : Z)
| CbLayerPropsChanged (lpl : LayerPropsList)
| CbAnnotationsChanged (al : Z)
| CbDocumentMetadataChanged (dm : Z)
| CbCursorMoved (context_id layer_id x y : Z).

Definition emit_changes (prev cs : CanvasState) (ucb : list DP_UserCursor)
    : list TickCallback :=
  let prev_width := DP_canvas_state_width api prev in
  let prev_height := DP_canvas_state_height api prev in
  let width := DP_canvas_state_width api cs in
  let height := DP_canvas_state_height api cs in
  let '(positions, layer_props_changed) := DP_canvas_state_diff api cs prev in
  let al := DP_canvas_state_annotations_noinc api cs in
  let dm := DP_canvas_state_metadata_noinc api cs in
  (if negb (prev_width =? width) || negb (prev_height =? height)
   then [CbResized
           (DP_canvas_state_offset_x api prev - DP_canvas_state_offset_x api cs)
           (DP_canvas_state_offset_y api prev - DP_canvas_state_offset_y api cs)
           prev_width prev_height]
   else [])
  ++ map (fun xy => CbTileChanged (fst xy) (snd xy)) positions
  ++ (if layer_props_changed
      then [CbLayerPropsChanged (DP_canvas_state_layer_props_noinc api cs)]
      else [])
  ++ (if negb (al =? DP_canvas_state_annotations_noinc api prev)
      then [CbAnnotationsChanged al] else [])
  ++ (if negb (dm =? DP_canvas_state_metadata_noinc api prev)
      then [CbDocumentMetadataChanged dm] else [])
  ++ map (fun uc =>
            CbCursorMoved (uc_context_id uc) (uc_layer_id uc)
              (uc_x uc) (uc_y uc)) ucb.

Definition preview_is_null (p : PreviewPtr) : bool :=
  match p with PreviewNULL => true | _ => false end.

(** [DP_paint_engine_tick].  [compare_and_get] is the history's answer to
    [DP_canvas_history_compare_and_get(pe->ch, prev, ucb)]: the new state,
    if there is one, and the user cursors it wrote to [ucb].  Returns the
    engine afterwards, the callbacks in call order and the preview
    disposals made. *)
Definition DP_paint_engine_tick (pe : DP_PaintEngine)
    (compare_and_get :
       CanvasState -> option CanvasState * list DP_UserCursor)
    : DP_PaintEngine * list TickCallback * list Effect :=
  let progress := catchup pe in
  let pe := with_catchup pe (-1) in
  let catchup_calls :=
    if negb (progress =? -1) then [CbCatchup progress] else [] in
  let '(next_history_cs, ucb) := compare_and_get (history_cs pe) in
  let pe :=
    match next_history_cs with
    | Some cs => with_history_cs pe cs
    | None => pe
    end in
  let next := next_preview pe in
  let pe := with_next_preview pe PreviewNULL in
  let '(pe, effects) :=
    match next with
    | PreviewNULL => (pe, [])
    | PreviewSentinel =>
        (with_preview pe PreviewNULL, free_preview (preview pe))
    | PreviewAt _ => (with_preview pe next, free_preview (preview pe))
    end in
  let local_view_changed :=
    match prev_lpl (local_view pe) with None => true | Some _ => false end in
  let have_history :=
    match next_history_cs with Some _ => true | None => false end in
  if have_history || negb (preview_is_null next) || local_view_changed then
    let prev_view_cs := view_cs pe in
    let '(pe, next_view_cs) :=
      apply_local_layer_props pe
        (apply_inspect pe (apply_preview pe (history_cs pe))) in
    let pe := with_view_cs pe next_view_cs in
    (pe, catchup_calls ++ emit_changes prev_view_cs next_view_cs ucb,
     effects)
  else (pe, catchup_calls, effects).

End EngineState.

(** ** Construction and the spec's area estimate *)

(** [DP_paint_engine_new_inc]: the fields as the constructor leaves them.
    [cs] is the fresh canvas state both [history_cs] and [view_cs] start
    from; the flexible buffer is not initialised, so [mb] is whatever the
    allocation held. *)
Definition DP_paint_engine_new_inc {AclState CanvasState LayerPropsList : Type}
    (acls : AclState) (cs : CanvasState) (mb : DP_PaintEngineMetaBuffer)
    : @DP_PaintEngine AclState CanvasState LayerPropsList :=
  {| acls := acls;
     history_cs := cs;
     view_cs := cs;
     local_view :=
       {| active_layer_id := 0; active_frame_index := 0;
          layer_view_mode := DP_LAYER_VIEW_MODE_NORMAL;
          reveal_censored := false; inspect_context_id := 0;
          hidden_layers := []; prev_lpl := None; lpl := None |};
     preview := PreviewNULL;
     local_queue := [];
     remote_queue := [];
     queue_sem := 0;
     running := true;
     catchup := -1;
     next_preview := PreviewNULL;
     meta_buffer := mb |}.

(** The area estimate in the spec's words, "per dab max(1, diameter^2)" with
    the diameter of each family, summed over every dab of a message and over
    every message of a batch, with no early exit. *)
Definition classic_dab_area (cd : DP_ClassicDab) : Z :=
  let diameter := Z.quot (DP_classic_dab_size cd) 256 * 2 in
  Z.max 1 (diameter * diameter).
Definition pixel_dab_area (pd : DP_PixelDab) : Z :=
  let diameter := DP_pixel_dab_size pd * 2 in
  Z.max 1 (diameter * diameter).
Definition mypaint_dab_area (mpd : DP_MyPaintDab) : Z :=
  let diameter := Z.quot (DP_mypaint_dab_size mpd) 256 in
  Z.max 1 (diameter * diameter).

Definition sumZ (l : list Z) : Z := fold_right Z.add 0 l.

Definition message_dab_areas (msg : DP_Message) : list Z :=
  match DP_message_body msg with
  | MsgDrawDabsClassic dabs => map classic_dab_area dabs
  | MsgDrawDabsPixel dabs | MsgDrawDabsPixelSquare dabs =>
      map pixel_dab_area dabs
  | MsgDrawDabsMyPaint dabs => map mypaint_dab_area dabs
  | _ => []
  end.

Definition batch_dab_areas (msgs : list DP_Message) : list Z :=
  flat_map message_dab_areas msgs.

Definition spec_batch_area (msgs : list DP_Message) : Z :=
  sumZ (batch_dab_areas msgs).

(** The estimate as the code accumulates it over a batch: [get_dabs_area]
    threaded through the messages, starting from zero. *)
Definition running_dabs_area (msgs : list DP_Message) : Z :=
  fold_left (fun area msg => get_dabs_area msg (DP_message_type msg) area)
            msgs 0.

(** ** Reading event lists *)

Definition decrefs (effects : list Effect) : list DP_Message :=
  flat_map (fun e => match e with EMessageDecref m => [m] | _ => [] end)
           effects.

Definition disposals (effects : list Effect) : list DP_PaintEnginePreview :=
  flat_map (fun e => match e with EPreviewDispose p => [p] | _ => [] end)
           effects.

(** The preview a pointer owns: none for [NULL] and for the sentinel. *)
Definition preview_object (p : PreviewPtr) : list DP_PaintEnginePreview :=
  match p with PreviewAt q => [q] | _ => [] end.

(** The previews owned by the preview-install messages waiting in a queue. *)
Definition queued_previews (queue : list DP_Message)
    : list DP_PaintEnginePreview :=
  flat_map (fun msg =>
              match DP_message_body msg with
              | MsgInternal (InternalPreview data) => preview_object data
              | _ => []
              end) queue.

(** The messages a list of calls took a reference to. *)
Definition increfs (effects : list Effect) : list DP_Message :=
  flat_map (fun e => match e with EMessageIncref m => [m] | _ => [] end)
           effects.

(** [dabs_preview_dispose]: [DP_message_decref(pedp->messages[i])] for [i]
    below [count]. *)
Definition dabs_preview_dispose (count : Z) (messages : list DP_Message)
    : list Effect :=
  map EMessageDecref (firstn (Z.to_nat count) messages).

(** [preview->dispose(preview)]: the dabs preview gives up its messages;
    [cut_preview_dispose] releases the layer props and content of its last
    render, which are no messages. *)
Definition preview_dispose (p : DP_PaintEnginePreview) : list Effect :=
  match p with
  | CutPreview _ _ _ _ _ _ _ _ => []
  | DabsPreview _ _ _ count messages => dabs_preview_dispose count messages
  end.

(** ** Reading the layer props tree by index path *)

(** The entry reached from [lp] by following the child indexes [rel]. *)
Fixpoint layer_props_below (lp : DP_LayerProps) (rel : list nat)
    : option DP_LayerProps :=
  match rel with
  | [] => Some lp
  | i :: rest =>
      match DP_layer_props_children_noinc lp with
      | Some entries =>
          match nth_error entries i with
          | Some child => layer_props_below child rest
          | None => None
          end
      | None => None
      end
  end.

(** The ids of the entries passed on the way down from [lp] along [rel],
    [lp] included and the entry reached excluded. *)
Fixpoint group_ids_above (lp : DP_LayerProps) (rel : list nat) : list Z :=
  match rel with
  | [] => []
  | i :: rest =>
      DP_layer_props_id lp
      :: match DP_layer_props_children_noinc lp with
         | Some entries =>
             match nth_error entries i with
             | Some child => group_ids_above child rest
             | None => []
             end
         | None => []
         end
  end.

(** The entry of the root list [entries] at the index path [indexes], and
    the ids of the groups that enclose it. *)
Definition layer_props_at (entries : list DP_LayerProps) (indexes : list nat)
    : option DP_LayerProps :=
  match indexes with
  | [] => None
  | i :: rest =>
      match nth_error entries i with
      | Some lp => layer_props_below lp rest
      | None => None
      end
  end.

Definition enclosing_group_ids (entries : list DP_LayerProps)
    (indexes : list nat) : list Z :=
  match indexes with
  | [] => []
  | i :: rest =>
      match nth_error entries i with
      | Some lp => group_ids_above lp rest
      | None => []
      end
  end.

(** The layer at [indexes] gets [hidden_by_view_mode] set by [edits]. *)
Definition hidden_by_view_mode (edits : list LayerPropsEdit)
    (indexes : list nat) : Prop :=
  exists e, In e edits /\ edit_indexes e = indexes /\ edit_hide e = true.

(** What Solo mode does below one entry: a leaf is hidden when its id is
    not the active one and neither is the id of any entry above it. *)
Definition solo_hidden_below (active : Z) (lp : DP_LayerProps)
    (rel : list nat) : Prop :=
  exists lp',
    layer_props_below lp rel = Some lp'
    /\ DP_layer_props_children_noinc lp' = None
    /\ DP_layer_props_id lp' <> active
    /\ ~ In active (group_ids_above lp rel).

(** The hides made while visiting [lp], in any mode and under any index
    stack, are those of [solo_hidden_below], and only in Solo mode. *)
Definition entry_hides_as_specified (active : Z) (reveal : bool)
    (lp : DP_LayerProps) : Prop :=
  forall mode pre p,
    hidden_by_view_mode
      (set_local_view_layer_props_entry active mode reveal pre lp) p
    <-> mode = DP_LAYER_VIEW_MODE_SOLO
        /\ exists rel, p = pre ++ rel /\ solo_hidden_below active lp rel.

(** The layer at [indexes] gets [censored] cleared by [edits]. *)
Definition uncensored_by_reveal (edits : list LayerPropsEdit)
    (indexes : list nat) : Prop :=
  exists e, In e edits /\ edit_indexes e = indexes /\ edit_uncensor e = true.

(** What the walk uncensors below one entry: whatever is censored. *)
Definition censored_below (lp : DP_LayerProps) (rel : list nat) : Prop :=
  exists lp',
    layer_props_below lp rel = Some lp'
    /\ DP_layer_props_censored lp' = true.

(** ** Sample collaborators and inputs *)

(** An ACL state machine that lets every message through unchanged. *)
Definition acl_pass_all (s : unit) (msg : DP_Message) : unit * Z := (s, 0).

(** An ACL state machine that records the messages it is asked about and
    answers with [verdict]. *)
Definition acl_recorder (verdict : DP_Message -> Z) (log : list DP_Message)
    (msg : DP_Message) : list DP_Message * Z :=
  (log ++ [msg], verdict msg).

(** A canvas world of numbered states in which nothing ever differs. *)
Definition sample_api : @CanvasApi Z Z :=
  {| DP_canvas_state_width := fun _ => 0;
     DP_canvas_state_height := fun _ => 0;
     DP_canvas_state_offset_x := fun _ => 0;
     DP_canvas_state_offset_y := fun _ => 0;
     DP_canvas_state_layer_props_noinc := fun cs => cs;
     DP_canvas_state_annotations_noinc := fun _ => 0;
     DP_canvas_state_metadata_noinc := fun _ => 0;
     DP_canvas_state_transient := fun _ => false;
     DP_transient_canvas_state_new := fun cs => cs + 1;
     DP_transient_canvas_state_layer_props_set_inc := fun cs _ => cs;
     DP_canvas_state_diff := fun _ _ => ([], false);
     lpl_eqb := Z.eqb;
     layer_props_tree := fun _ => [];
     layer_props_edit := fun cs _ => cs;
     layer_routes_hide := fun cs _ => Some cs;
     inspect_overlay := fun _ cs => cs;
     preview_render := fun _ cs _ _ => cs |}.

Definition sample_meta_buffer : DP_PaintEngineMetaBuffer :=
  {| acl_change_flags := 0; have_default_layer := false; default_layer := 0;
     laser_changes :=
       {| laser_count := 0; laser_users := fun _ => 0;
          laser_active := fun _ => false;
          laser_buffers := fun _ =>
            {| lb_persistence := 0; lb_b := 0; lb_g := 0;
               lb_r := 0; lb_a := 0 |} |};
     cursor_changes :=
       {| cursor_count := 0; cursor_users := fun _ => 0;
          cursor_active := fun _ => false;
          cursor_positions := fun _ => {| cp_x := 0; cp_y := 0 |} |} |}.

Definition sample_engine : @DP_PaintEngine unit Z Z :=
  DP_paint_engine_new_inc tt 0 sample_meta_buffer.

Definition pixel_dabs (n : nat) (size : Z) : list DP_PixelDab :=
  repeat {| DP_pixel_dab_size := size |} n.

(** Three pixel-dab messages of 8, 16 and 16 dabs of radius 128 (area
    65536 each): the first reaches the batching threshold, the first eight
    dabs of the second bring the running total to exactly
    [MAX_MULTIDAB_AREA]. *)
Definition overshoot_queue : list DP_Message :=
  [ Message 1 (MsgDrawDabsPixel (pixel_dabs 8 128));
    Message 1 (MsgDrawDabsPixel (pixel_dabs 16 128));
    Message 1 (MsgDrawDabsPixel (pixel_dabs 16 128)) ].

(** The engine as [handle_message] finds it with [overshoot_queue] waiting:
    three posts, of which the paint thread's wait has taken one. *)
Definition overshoot_engine : @DP_PaintEngine unit Z Z :=
  with_queue_sem (with_remote_queue sample_engine overshoot_queue) 2.

(** The spec's scenario S3: one classic-dabs message waiting in each queue. *)
Definition both_queues_engine : @DP_PaintEngine unit Z Z :=
  with_queue_sem
    (with_remote_queue
       (with_local_queue sample_engine
          [Message 1 (MsgDrawDabsClassic [{| DP_classic_dab_size := 512 |}])])
       [Message 2 (MsgDrawDabsClassic [{| DP_classic_dab_size := 512 |}])])
    1.

Definition sample_cut_preview : DP_PaintEnginePreview :=
  CutPreview 0 0 5 0 0 64 64 None.

(** A preview-install message left in each queue at teardown. *)
Definition queued_previews_engine : @DP_PaintEngine unit Z Z :=
  with_queue_sem
    (with_remote_queue
       (with_local_queue sample_engine
          [Message 0
             (MsgInternal
                (InternalPreview
                   (PreviewAt (CutPreview 0 0 6 0 0 64 64 None))))])
       [Message 0
          (MsgInternal (InternalPreview (PreviewAt sample_cut_preview)))])
    2.

(** A history with nothing new to report. *)
Definition history_unchanged (prev : Z) : option Z * list DP_UserCursor :=
  (None, []).

(** Two laser trails and two pointer moves, all of context 5, let through by
    the ACL filter. *)
Definition repeated_context_batch : list DP_Message :=
  [ Message 5 (MsgLaserTrail 4278190335 1);
    Message 5 (MsgLaserTrail 4294901760 2);
    Message 5 (MsgMovePointer 10 20);
    Message 5 (MsgMovePointer 30 40) ].

(** An ACL state machine that reports a change (bit 1) on every message and
    filters none. *)
Definition acl_always_changed (s : unit) (msg : DP_Message) : unit * Z :=
  (s, 2).

(** A batch that exercises all four callbacks: contexts 9 and 3 each send
    two laser trails, context 3 moves its pointer twice, and the default
    layer is set twice. *)
Definition all_callbacks_batch : list DP_Message :=
  [ Message 9 (MsgLaserTrail 255 1);
    Message 1 (MsgDefaultLayer 11);
    Message 3 (MsgMovePointer 1 2);
    Message 3 (MsgLaserTrail 65280 2);
    Message 9 (MsgLaserTrail 16711680 3);
    Message 3 (MsgMovePointer 3 4);
    Message 3 (MsgLaserTrail 4278190080 4);
    Message 1 (MsgDefaultLayer 12) ].

(** A group with id 1 holding the single leaf 2, next to a leaf 3. *)
Definition active_group_tree : list DP_LayerProps :=
  [ LayerProps 1 false (Some [LayerProps 2 false None]);
    LayerProps 3 false None ].

(** A running engine with work waiting and the semaphore counting it: a
    preview install and a pixel-dab message in the local queue, two
    pixel-dab messages in the remote one; a cut preview is installed and
    another one pending. *)
Definition waiting_engine : @DP_PaintEngine unit Z Z :=
  with_queue_sem
    (with_remote_queue
       (with_local_queue
          (with_next_preview
             (with_preview sample_engine
                (PreviewAt (CutPreview 0 0 1 0 0 8 8 None)))
             (PreviewAt (CutPreview 0 0 2 0 0 8 8 None)))
          [ Message 0
              (MsgInternal (InternalPreview (PreviewAt sample_cut_preview)));
            Message 1 (MsgDrawDabsPixel (pixel_dabs 2 4)) ])
       [ Message 2 (MsgDrawDabsPixel (pixel_dabs 2 4));
         Message 3 (MsgDrawDabsPixel (pixel_dabs 2 4)) ])
    4.

(** The same canvas world, in which only the layers with an id below 10
    exist. *)
Definition sample_api_few_layers : @CanvasApi Z Z :=
  {| DP_canvas_state_width := fun _ => 0;
     DP_canvas_state_height := fun _ => 0;
     DP_canvas_state_offset_x := fun _ => 0;
     DP_canvas_state_offset_y := fun _ => 0;
     DP_canvas_state_layer_props_noinc := fun cs => cs;
     DP_canvas_state_annotations_noinc := fun _ => 0;
     DP_canvas_state_metadata_noinc := fun _ => 0;
     DP_canvas_state_transient := fun _ => false;
     DP_transient_canvas_state_new := fun cs => cs + 1;
     DP_transient_canvas_state_layer_props_set_inc := fun cs _ => cs;
     DP_canvas_state_diff := fun _ _ => ([], false);
     lpl_eqb := Z.eqb;
     layer_props_tree := fun _ => [];
     layer_props_edit := fun cs _ => cs;
     layer_routes_hide := fun cs id => if id <? 10 then Some cs else None;
     inspect_overlay := fun _ cs => cs;
     preview_render := fun _ cs _ _ => cs |}.

(** An engine on which the layers 3, 12, 5 and 14 were hidden, in that
    order. *)
Definition hidden_layers_engine : @DP_PaintEngine unit Z Z :=
  with_local_view sample_engine
    (with_hidden_layers (local_view sample_engine) [3; 12; 5; 14]).

(** A censored group 1 holding the censored leaf 2 and the leaf 4, next
    to the leaf 3. *)
Definition censored_tree : list DP_LayerProps :=
  [ LayerProps 1 true
      (Some [LayerProps 2 true None; LayerProps 4 false None]);
    LayerProps 3 false None ].

(** ** Reading a batch the way the remote intake does *)

Section IntakeReading.

Context {AclState CanvasState LayerPropsList : Type}.
Variable DP_acl_state_handle : AclState -> DP_Message -> AclState * Z.

(** The ACL filter, in state [s], does not set the FILTERED bit on [msg]. *)
Definition acl_passes (s : AclState) (msg : DP_Message) : bool :=
  Z.land (uint8 (snd (DP_acl_state_handle s msg))) DP_ACL_STATE_FILTERED_BIT
  =? 0.

(** The messages of a batch that the filter lets through, when it is asked
    about each message in turn, starting in state [s]. *)
Fixpoint acl_unfiltered (s : AclState) (msgs : list DP_Message)
    : list DP_Message :=
  match msgs with
  | [] => []
  | msg :: rest =>
      (if acl_passes s msg then [msg] else [])
      ++ acl_unfiltered (fst (DP_acl_state_handle s msg)) rest
  end.

(** The filter's answers to the batch, or-ed onto [flags] in turn. *)
Fixpoint acl_flags (s : AclState) (msgs : list DP_Message) (flags : Z) : Z :=
  match msgs with
  | [] => flags
  | msg :: rest =>
      acl_flags (fst (DP_acl_state_handle s msg)) rest
        (Z.lor flags (uint8 (snd (DP_acl_state_handle s msg))))
  end.

(** One round of either intake loop of [handle_inc]: ask [should_push],
    push and count when it says so. *)
Definition intake_step
    (should_push :
       @DP_PaintEngine AclState CanvasState LayerPropsList ->
       DP_Message ->
       bool * @DP_PaintEngine AclState CanvasState LayerPropsList)
    (local : bool)
    (acc : Z * @DP_PaintEngine AclState CanvasState LayerPropsList)
    (msg : DP_Message)
    : Z * @DP_PaintEngine AclState CanvasState LayerPropsList :=
  let '(push, pe) := should_push (snd acc) msg in
  if push then (fst acc + 1, DP_message_queue_push_inc pe local msg)
  else (fst acc, pe).

End IntakeReading.

(** The messages of a given type, in order. *)
Definition of_type (type : DP_MessageType) (msgs : list DP_Message)
    : list DP_Message :=
  filter (fun msg => DP_message_type msg =? type) msgs.

(** The last message of [msgs] whose context id, as a [uint8_t], is [c]. *)
Fixpoint latest_of_context (c : Z) (msgs : list DP_Message)
    : option DP_Message :=
  match msgs with
  | [] => None
  | msg :: rest =>
      match latest_of_context c rest with
      | Some later => Some later
      | None =>
          if uint8 (DP_message_context_id msg) =? c then Some msg else None
      end
  end.

(** What a laser trail or pointer move leaves in its context's slot. *)
Definition laser_buffer_of (msg : DP_Message) : DP_PaintEngineLaserBuffer :=
  let color := DP_msg_laser_trail_color msg in
  {| lb_persistence := DP_msg_laser_trail_persistence msg;
     lb_b := upixel8_b color; lb_g := upixel8_g color;
     lb_r := upixel8_r color; lb_a := upixel8_a color |}.

Definition cursor_position_of (msg : DP_Message)
    : DP_PaintEngineCursorPosition :=
  {| cp_x := DP_msg_move_pointer_x msg; cp_y := DP_msg_move_pointer_y msg |}.

(** The contexts of a list of messages, as the [uint8_t] the tables are
    indexed by. *)
Definition contexts (msgs : list DP_Message) : list Z :=
  map (fun msg => uint8 (DP_message_context_id msg)) msgs.

(** The [count], [users] and [active] fields of a laser or cursor table
    after the contexts [cs] of one call have been folded in: every listed
    user is one of [cs], and as long as the [uint8_t] count cannot have
    wrapped (at most 255 entries in [cs]) no context of [cs] is missing
    from the list. *)
Definition user_list_tracks (count : Z) (users : Z -> Z) (active : Z -> bool)
    (cs : list Z) : Prop :=
  0 <= count < 256
  /\ (forall i, 0 <= i < count -> In (users i) cs)
  /\ ((length cs <= 255)%nat ->
        count <= Z.of_nat (length cs)
        /\ (cs <> [] -> 1 <= count)
        /\ (forall c, In c cs -> exists i, 0 <= i < count /\ users i = c)
        /\ (1 <= count ->
            forall c, active c = true ->
              exists i, 0 <= i < count /\ users i = c)).

(** The laser table after the laser trails [ls] of one call: the user list
    tracks their contexts, and every context's slot holds its latest
    trail. *)
Definition laser_table_tracks (laser : DP_PaintEngineLaserChanges)
    (ls : list DP_Message) : Prop :=
  user_list_tracks (laser_count laser) (laser_users laser)
    (laser_active laser) (contexts ls)
  /\ (forall c m, latest_of_context c ls = Some m ->
        laser_buffers laser c = laser_buffer_of m).

(** The same for the cursor table and the pointer moves [ms]. *)
Definition cursor_table_tracks (cursor : DP_PaintEngineCursorChanges)
    (ms : list DP_Message) : Prop :=
  user_list_tracks (cursor_count cursor) (cursor_users cursor)
    (cursor_active cursor) (contexts ms)
  /\ (forall c m, latest_of_context c ms = Some m ->
        cursor_positions cursor c = cursor_position_of m).

(** The layer ids of the default-layer messages of a batch, in order. *)
Definition default_layer_ids (msgs : list DP_Message) : list Z :=
  map DP_msg_default_layer_id (of_type DP_MSG_DEFAULT_LAYER msgs).

(** ** The paint thread's loop *)

(** How a run of the paint thread ends: waiting on the semaphore at zero,
    out of the loop because [running] was cleared, inside [handle_message]
    with [msgs[0] == NULL], or still going when the rounds are used up. *)
Inductive PaintThreadStatus : Type :=
| PaintWaiting
| PaintExited
| PaintNullMessage
| PaintMoreRounds.

(** The draw-dabs family, the types [get_dabs_area] knows. *)
Definition is_draw_dabs (type : DP_MessageType) : bool :=
  (type =? DP_MSG_DRAW_DABS_CLASSIC)
  || (type =? DP_MSG_DRAW_DABS_PIXEL)
  || (type =? DP_MSG_DRAW_DABS_PIXEL_SQUARE)
  || (type =? DP_MSG_DRAW_DABS_MYPAINT).

(** The messages whose reference the paint thread gave up: by
    [DP_message_decref], or by handing the batch to one of the history's
    [_dec] entry points. *)
Definition handed_off (effects : list Effect) : list DP_Message :=
  flat_map (fun e => match e with
                     | EMessageDecref m => [m]
                     | EHistoryHandleMultidabDec _ msgs
                     | EHistoryHandleLocalMultidabDec _ msgs => msgs
                     | _ => []
                     end) effects.

Section PaintLoop.

Context {AclState CanvasState LayerPropsList : Type}.

(** [run_paint_engine] with no other thread getting in between: up to
    [rounds] turns of the [while (true)] loop.  [DP_SEMAPHORE_MUST_WAIT]
    takes one from a positive semaphore and otherwise leaves the thread
    waiting.  Returns how the run ended, the engine then and the calls
    made, in order. *)
Fixpoint run_paint_engine (rounds : nat)
    (pe : @DP_PaintEngine AclState CanvasState LayerPropsList)
    : PaintThreadStatus * @DP_PaintEngine AclState CanvasState LayerPropsList
      * list Effect :=
  match rounds with
  | O => (PaintMoreRounds, pe, [])
  | S rounds =>
      if queue_sem pe <=? 0 then (PaintWaiting, pe, [])
      else
        let pe := with_queue_sem pe (queue_sem pe - 1) in
        if running pe then
          match handle_message pe with
          | Some (pe, effects) =>
              let '(status, pe, later) := run_paint_engine rounds pe in
              (status, pe, effects ++ later)
          | None => (PaintNullMessage, pe, [])
          end
        else (PaintExited, pe, [])
  end.

(** What the paint thread sees of [DP_paint_engine_free_join] before it is
    joined: [running] cleared, then the semaphore posted. *)
Definition free_join_stop
    (pe : @DP_PaintEngine AclState CanvasState LayerPropsList)
    : @DP_PaintEngine AclState CanvasState LayerPropsList :=
  let pe := with_running pe false in
  with_queue_sem pe (queue_sem pe + 1).

(** The semaphore counts the queued messages. *)
Definition queues_accounted
    (pe : @DP_PaintEngine AclState CanvasState LayerPropsList) : Prop :=
  queue_sem pe
  = Z.of_nat (length (local_queue pe)) + Z.of_nat (length (remote_queue pe)).

(** Every preview the engine holds a pointer to: the installed one, the
    one waiting for the next tick, and those of queued install messages. *)
Definition held_previews
    (pe : @DP_PaintEngine AclState CanvasState LayerPropsList)
    : list DP_PaintEnginePreview :=
  preview_object (preview pe)
  ++ preview_object (next_preview pe)
  ++ queued_previews (local_queue pe)
  ++ queued_previews (remote_queue pe).

End PaintLoop.

(* ================================================================== *)
(** * Part I, continued: [libcommon/dpcommon]                           *)
(* ================================================================== *)

(** ** The thread's error state: [common.c] *)

(** [DP_ErrorState]: the error counter, an [unsigned int] that wraps at
    2^32, and the message buffer with its size ([NULL] and 0 before the
    first error).  A message is its formatted text, as [vsnprintf] makes
    it. *)
Record DP_ErrorState := {
  es_count : Z;
  es_buffer : option (list byte);
  es_buffer_size : Z
}.

Definition UINT_MAX : Z := 2 ^ 32 - 1.

(** [(unsigned int)x] *)
Definition uint (x : Z) : Z := x mod 2 ^ 32.

Definition DP_error (error : DP_ErrorState) : option (list byte) :=
  es_buffer error.

Definition DP_error_since (error : DP_ErrorState) (count : Z)
    : option (list byte) :=
  if negb (count =? es_count error) then es_buffer error else None.

(** [DP_error_set]: the counter goes up by one; the message is formatted
    into the buffer, which is resized to fit and formatted into again when
    it was too small ([DP_thread_error_state_resize] gives a buffer of the
    size asked for). *)
Definition DP_error_set (error : DP_ErrorState) (message : list byte)
    : DP_ErrorState :=
  let count := uint (es_count error + 1) in
  let size := Z.of_nat (length message) + 1 in
  if es_buffer_size error <? size then
    {| es_count := count; es_buffer := Some message;
       es_buffer_size := size |}
  else
    {| es_count := count; es_buffer := Some message;
       es_buffer_size := es_buffer_size error |}.

Definition DP_error_count (error : DP_ErrorState) : Z := es_count error.

Definition DP_error_count_set (error : DP_ErrorState) (count : Z)
    : DP_ErrorState :=
  {| es_count := count; es_buffer := es_buffer error;
     es_buffer_size := es_buffer_size error |}.

(** Every step of [UINT_MAX - count + error_count + 1] is an
    [unsigned int] operation. *)
Definition DP_error_count_since (error : DP_ErrorState) (count : Z) : Z :=
  let error_count := DP_error_count error in
  if count <=? error_count then error_count - count
  else uint (uint (uint (UINT_MAX - count) + error_count) + 1).

(** ** Inputs: [input.c] *)

(** What [DP_error_set] is called with by the input and output code. *)
Inductive StreamError : Type :=
| RewindNotSupported
| MemInputCannotRewind (pos size : Z)
| ClearNotSupported.

(** [DP_InputMethods] over the input's internal state: [read] returns the
    bytes it stored in the caller's buffer (their number is its result),
    whether it flagged an error, and the state afterwards; [rewind_by] may
    be [NULL]. *)
Record DP_InputMethods (Internal : Type) := {
  input_read : Internal -> Z -> list byte * bool * Internal;
  input_rewind_by :
    option (Internal -> Z -> (bool * option StreamError) * Internal)
}.
Arguments input_read {Internal}.
Arguments input_rewind_by {Internal}.

(** [DP_input_read]: [have_buffer] says whether [buffer] is not [NULL].
    Returns the bytes read, what was written to [out_error] ([None] when it
    is left alone) and the state afterwards. *)
Definition DP_input_read {Internal : Type} (methods : DP_InputMethods Internal)
    (internal : Internal) (have_buffer : bool) (size : Z)
    : list byte * option bool * Internal :=
  if have_buffer && (0 <? size) then
    let '(data, error, internal) := input_read methods internal size in
    (data, Some error, internal)
  else ([], None, internal).

Definition DP_input_rewind_by {Internal : Type}
    (methods : DP_InputMethods Internal) (internal : Internal) (size : Z)
    : (bool * option StreamError) * Internal :=
  if 0 <? size then
    match input_rewind_by methods with
    | Some rewind_by => rewind_by internal size
    | None => ((false, Some RewindNotSupported), internal)
    end
  else ((true, None), internal).

(** [DP_MemInputState]: [size] is the length of [buffer]. *)
Record DP_MemInputState := {
  mis_buffer : list byte;
  mis_pos : Z
}.

Definition mis_size (state : DP_MemInputState) : Z :=
  Z.of_nat (length (mis_buffer state)).

Definition mem_input_read (state : DP_MemInputState) (size : Z)
    : list byte * bool * DP_MemInputState :=
  let left := mis_size state - mis_pos state in
  let read := if size <=? left then size else left in
  (firstn (Z.to_nat read) (skipn (Z.to_nat (mis_pos state)) (mis_buffer state)),
   false,
   {| mis_buffer := mis_buffer state; mis_pos := mis_pos state + read |}).

Definition mem_input_rewind_by (state : DP_MemInputState) (size : Z)
    : (bool * option StreamError) * DP_MemInputState :=
  if size <=? mis_pos state then
    ((true, None),
     {| mis_buffer := mis_buffer state; mis_pos := mis_pos state - size |})
  else ((false, Some (MemInputCannotRewind (mis_pos state) size)), state).

Definition mem_input_methods : DP_InputMethods DP_MemInputState :=
  {| input_read := mem_input_read;
     input_rewind_by := Some mem_input_rewind_by |}.

Definition DP_mem_input_new (buffer : list byte) : DP_MemInputState :=
  {| mis_buffer := buffer; mis_pos := 0 |}.

(** ** Outputs: [output.c] *)

(** [DP_OutputMethods]: [write] returns the number of bytes written;
    [clear] may be [NULL]. *)
Record DP_OutputMethods (Internal : Type) := {
  output_write : Internal -> list byte -> Z * Internal;
  output_clear : option (Internal -> bool * Internal)
}.
Arguments output_write {Internal}.
Arguments output_clear {Internal}.

(** [DP_output_write]: [buffer] is [NULL] for [None]; [size] is the length
    of the bytes given. *)
Definition DP_output_write {Internal : Type}
    (methods : DP_OutputMethods Internal) (internal : Internal)
    (buffer : option (list byte)) : bool * Internal :=
  match buffer with
  | Some data =>
      if 0 <? Z.of_nat (length data) then
        let '(written, internal) := output_write methods internal data in
        (written =? Z.of_nat (length data), internal)
      else (true, internal)
  | None => (true, internal)
  end.

Definition DP_output_clear {Internal : Type}
    (methods : DP_OutputMethods Internal) (internal : Internal)
    : (bool * option StreamError) * Internal :=
  match output_clear methods with
  | Some clear =>
      let '(ok, internal) := clear internal in ((ok, None), internal)
  | None => ((false, Some ClearNotSupported), internal)
  end.

Definition DP_MEM_OUTPUT_MIN_CAPACITY : Z := 32.

(** [DP_MemOutputState]: the allocation is a map from the index to the
    byte there; what [malloc] and [realloc] leave in the bytes they add is
    whatever the map says.  Sizes are far from [SIZE_MAX]; they are [Z]. *)
Record DP_MemOutputState := {
  mos_buffer : Z -> byte;
  mos_capacity : Z;
  mos_used : Z
}.

Definition mem_output_space (capacity used : Z) : Z := capacity - used - 1.

(** The [do capacity *= 2 while (space < size)] loop.  From a positive
    capacity every round adds at least one byte, so [used + size + 1] rounds
    are enough; [rounds] counts them down. *)
Fixpoint mem_output_grow (rounds : nat) (capacity used size : Z) : Z :=
  match rounds with
  | O => capacity
  | S rounds =>
      let capacity := capacity * 2 in
      if mem_output_space capacity used <? size
      then mem_output_grow rounds capacity used size
      else capacity
  end.

(** [memcpy(buffer + at, data, size)] *)
Definition memcpy (buffer : Z -> byte) (at_ : Z) (data : list byte)
    : Z -> byte :=
  fun i =>
    if (at_ <=? i) && (i <? at_ + Z.of_nat (length data))
    then nth (Z.to_nat (i - at_)) data Byte.x00
    else buffer i.

Definition mem_output_write (state : DP_MemOutputState) (data : list byte)
    : Z * DP_MemOutputState :=
  let size := Z.of_nat (length data) in
  let capacity :=
    if mem_output_space (mos_capacity state) (mos_used state) <? size
    then mem_output_grow (Z.to_nat (mos_used state + size + 1))
           (mos_capacity state) (mos_used state) size
    else mos_capacity state in
  let end_ := mos_used state + size in
  (size,
   {| mos_buffer :=
        array_set (memcpy (mos_buffer state) (mos_used state) data)
          end_ Byte.x00;
      mos_capacity := capacity;
      mos_used := end_ |}).

Definition mem_output_clear (state : DP_MemOutputState)
    : bool * DP_MemOutputState :=
  (true,
   {| mos_buffer := array_set (mos_buffer state) 0 Byte.x00;
      mos_capacity := mos_capacity state;
      mos_used := 0 |}).

Definition mem_output_methods : DP_OutputMethods DP_MemOutputState :=
  {| output_write := mem_output_write;
     output_clear := Some mem_output_clear |}.

(** [DP_mem_output_new]: [allocation] is what [DP_malloc] returned. *)
Definition DP_mem_output_new (initial_capacity : Z) (allocation : Z -> byte)
    : DP_MemOutputState :=
  {| mos_buffer := allocation;
     mos_capacity :=
       if initial_capacity <? DP_MEM_OUTPUT_MIN_CAPACITY
       then DP_MEM_OUTPUT_MIN_CAPACITY
       else initial_capacity;
     mos_used := 0 |}.

(** The bytes an output holds: [buffer[0 .. used)]. *)
Definition mem_output_contents (state : DP_MemOutputState) : list byte :=
  map (mos_buffer state) (loop_indices (mos_used state)).

(** The state a mem output is always in: room for the terminator. *)
Definition mem_output_ok (state : DP_MemOutputState) : Prop :=
  0 <= mos_used state < mos_capacity state.

(** The state a mem input is always in ([DP_ASSERT(state->pos <=
    state->size)]). *)
Definition mem_input_ok (state : DP_MemInputState) : Prop :=
  0 <= mis_pos state <= mis_size state.

(** A thread whose error counter is about to wrap. *)
Definition error_state_at_wrap : DP_ErrorState :=
  {| es_count := UINT_MAX; es_buffer := None; es_buffer_size := 0 |}.

(** A mem input over the bytes [a b c d e], two of them read. *)
Definition sample_mem_input : DP_MemInputState :=
  {| mis_buffer := [Byte.x61; Byte.x62; Byte.x63; Byte.x64; Byte.x65];
     mis_pos := 2 |}.

(** A mem output of the minimum capacity holding 30 bytes: room for one
    more byte and the terminator. *)
Definition sample_mem_output : DP_MemOutputState :=
  {| mos_buffer := fun _ => Byte.x2a;
     mos_capacity := DP_MEM_OUTPUT_MIN_CAPACITY;
     mos_used := 30 |}.

(* ================================================================== *)
(** * Part II: theorems                                                 *)
(* ================================================================== *)

Section PaintThread.

Context {AclState CanvasState LayerPropsList : Type}.
Local Abbreviation Engine :=
  (@DP_PaintEngine AclState CanvasState LayerPropsList).

Lemma shift_more_loop_spec :
  forall queue count total msgs q' c' m',
    shift_more_loop queue count total msgs = (q', c', m') ->
    exists taken,
      m' = msgs ++ taken
      /\ queue = taken ++ q'
      /\ c' = count + Z.of_nat (length taken)
      /\ c' <= Z.max count MAX_MULTIDAB_MESSAGES.
Proof.
  induction queue as [|msg rest IH]; intros count total msgs q' c' m' H;
    simpl in H.
  - inversion H; subst. exists []. rewrite app_nil_r. simpl.
    repeat split; lia.
  - destruct (count <? MAX_MULTIDAB_MESSAGES) eqn:Hc.
    + destruct (get_dabs_area msg (DP_message_type msg) total
                <=? MAX_MULTIDAB_AREA) eqn:Ha.
      * apply IH in H. destruct H as (taken & Hm & Hq & Hcnt & Hle).
        exists (msg :: taken). rewrite <- app_assoc in Hm. simpl in *.
        apply Z.ltb_lt in Hc.
        repeat split; [assumption | congruence | lia | lia].
      * inversion H; subst. exists []. rewrite app_nil_r. simpl.
        repeat split; lia.
    + inversion H; subst. exists []. rewrite app_nil_r. simpl.
      repeat split; lia.
Qed.

(** What the locked part of [handle_message] does to the queues: the batch
    is a non-empty prefix of the queue it served, the other queue is left
    alone, and the batch holds [count] messages, at most
    [MAX_MULTIDAB_MESSAGES]. *)
Lemma handle_message_shift_spec :
  forall (pe : Engine) local count msgs pe1,
    handle_message_shift pe = Some (local, count, msgs, pe1) ->
    msgs <> []
    /\ queue_of pe local = msgs ++ queue_of pe1 local
    /\ queue_of pe1 (negb local) = queue_of pe (negb local)
    /\ count = Z.of_nat (length msgs)
    /\ 1 <= count <= MAX_MULTIDAB_MESSAGES
    /\ (local = false -> local_queue pe = []).
Proof.
  intros pe local count msgs pe1 H.
  unfold handle_message_shift, shift_first_message in H.
  assert (Hloop : forall (pe0 : Engine) l first rest,
             queue_of pe0 l = rest ->
             maybe_shift_more_messages pe0 l (DP_message_type first) first
               = (count, msgs, pe1) ->
             msgs <> [] /\ first :: rest = msgs ++ queue_of pe1 l
             /\ queue_of pe1 (negb l) = queue_of pe0 (negb l)
             /\ count = Z.of_nat (length msgs)
             /\ 1 <= count <= MAX_MULTIDAB_MESSAGES).
  { intros pe0 l first rest Hq Hm.
    unfold maybe_shift_more_messages in Hm.
    destruct (get_dabs_area first (DP_message_type first) 0
              <=? MAX_MULTIDAB_AREA_THRESHOLD).
    - unfold shift_more_draw_dabs_messages in Hm.
      destruct (shift_more_loop (queue_of pe0 l) 1
                  (get_dabs_area first (DP_message_type first) 0) [first])
        as [[q' c'] m'] eqn:Hl.
      apply shift_more_loop_spec in Hl.
      destruct Hl as (taken & Hm' & Hq' & Hc' & Hle).
      assert (Hmax : Z.max 1 MAX_MULTIDAB_MESSAGES = MAX_MULTIDAB_MESSAGES)
        by reflexivity.
      rewrite Hmax in Hle.
      inversion Hm; subst count msgs pe1; clear Hm. subst m'.
      repeat split.
      + discriminate.
      + simpl. f_equal. rewrite <- Hq, Hq'. f_equal.
        destruct l, (1 <? c'); reflexivity.
      + destruct l, (1 <? c'); reflexivity.
      + rewrite Hc'. simpl length. lia.
      + lia.
      + assumption.
    - inversion Hm; subst. repeat split; try discriminate; try reflexivity. }
  destruct (local_queue pe) as [|m0 lrest] eqn:Hlq; simpl in H.
  - destruct (remote_queue pe) as [|r0 rrest] eqn:Hrq; simpl in H;
      [discriminate|].
    destruct (maybe_shift_more_messages (with_remote_queue pe rrest) false
                (DP_message_type r0) r0) as [[c m] p] eqn:Hm.
    inversion H; subst local c m p; clear H.
    apply (Hloop (with_remote_queue pe rrest) false r0 rrest eq_refl) in Hm.
    destruct Hm as (Hne & Hq & Hother & Hcnt & Hrange).
    simpl in *. rewrite Hrq. rewrite Hother, Hlq.
    repeat split; auto; lia.
  - destruct (maybe_shift_more_messages (with_local_queue pe lrest) true
                (DP_message_type m0) m0) as [[c m] p] eqn:Hm.
    inversion H; subst local c m p; clear H.
    apply (Hloop (with_local_queue pe lrest) true m0 lrest eq_refl) in Hm.
    destruct Hm as (Hne & Hq & Hother & Hcnt & Hrange).
    simpl in *. rewrite Hlq. repeat split; auto; try lia; discriminate.
Qed.

(** Dispatch leaves both queues as the locked part left them. *)
Lemma handle_single_message_queues :
  forall (pe : Engine) local type msg,
    local_queue (fst (handle_single_message pe local type msg))
      = local_queue pe
    /\ remote_queue (fst (handle_single_message pe local type msg))
      = remote_queue pe.
Proof.
  intros pe local type msg. unfold handle_single_message.
  destruct (type =? DP_MSG_INTERNAL).
  - destruct (DP_message_body msg); simpl; auto.
    destruct mi; simpl; auto.
  - destruct local; simpl; auto.
Qed.

(** C4: when the local queue is not empty, everything [handle_message]
    consumes in that iteration is taken from the front of the local queue and
    the remote queue is left as it was; the remote queue is only ever shifted
    when the local queue is empty. *)
Theorem handle_message_local_priority :
  forall (pe : Engine),
    (local_queue pe <> [] ->
     exists count batch pe1 pe2 effects,
       handle_message_shift pe = Some (true, count, batch, pe1)
       /\ handle_message pe = Some (pe2, effects)
       /\ batch <> []
       /\ local_queue pe = batch ++ local_queue pe2
       /\ remote_queue pe2 = remote_queue pe)
    /\ (forall pe2 effects,
          handle_message pe = Some (pe2, effects) ->
          remote_queue pe2 <> remote_queue pe ->
          local_queue pe = []).
Proof.
  intros pe.
  assert (Hdispatch : forall local count msgs pe1 pe2 effects,
             handle_message_shift pe = Some (local, count, msgs, pe1) ->
             handle_message pe = Some (pe2, effects) ->
             local_queue pe2 = local_queue pe1
             /\ remote_queue pe2 = remote_queue pe1).
  { intros local count msgs pe1 pe2 effects Hs Hm.
    unfold handle_message in Hm. rewrite Hs in Hm.
    destruct (count =? 1).
    - destruct msgs as [|first ?]; [discriminate|].
      pose proof (handle_single_message_queues pe1 local
                    (DP_message_type first) first) as Hq.
      inversion Hm as [Heq]. rewrite Heq in Hq. exact Hq.
    - inversion Hm; subst; auto. }
  split.
  - intros Hne.
    destruct (handle_message_shift pe) as [[[[local count] msgs] pe1]|] eqn:Hs.
    + pose proof (handle_message_shift_spec _ _ _ _ _ Hs)
        as (Hmne & Hq & Hother & Hcnt & Hrange & Hloc).
      destruct local; [|exfalso; apply Hne; apply Hloc; reflexivity].
      assert (Hm : exists r, handle_message pe = Some r).
      { unfold handle_message. rewrite Hs. destruct (count =? 1).
        - destruct msgs; [congruence|eauto].
        - eauto. }
      destruct Hm as [[pe2 effects] Hm].
      destruct (Hdispatch _ _ _ _ _ _ eq_refl Hm) as [Hl Hr].
      exists count, msgs, pe1, pe2, effects. simpl in *.
      repeat split; auto; congruence.
    + exfalso. unfold handle_message_shift, shift_first_message in Hs.
      destruct (local_queue pe) as [|m0 rest]; [congruence|]. simpl in Hs.
      destruct (maybe_shift_more_messages (with_local_queue pe rest) true
                  (DP_message_type m0) m0) as [[? ?] ?]. discriminate.
  - intros pe2 effects Hm Hchg.
    destruct (handle_message_shift pe) as [[[[local count] msgs] pe1]|] eqn:Hs.
    + pose proof (handle_message_shift_spec _ _ _ _ _ Hs)
        as (Hmne & Hq & Hother & Hcnt & Hrange & Hloc).
      destruct (Hdispatch _ _ _ _ _ _ eq_refl Hm) as [Hl Hr].
      destruct local; [|apply Hloc; reflexivity].
      simpl in Hother. exfalso. apply Hchg. congruence.
    + unfold handle_message in Hm. rewrite Hs in Hm. discriminate.
Qed.

Lemma shift_more_loop_area :
  forall queue count total msgs q' c' m',
    shift_more_loop queue count total msgs = (q', c', m') ->
    exists taken,
      m' = msgs ++ taken
      /\ (taken = []
          \/ fold_left
               (fun area msg => get_dabs_area msg (DP_message_type msg) area)
               taken total <= MAX_MULTIDAB_AREA).
Proof.
  induction queue as [|msg rest IH]; intros count total msgs q' c' m' H;
    simpl in H.
  - inversion H; subst. exists []. rewrite app_nil_r. auto.
  - destruct (count <? MAX_MULTIDAB_MESSAGES).
    + destruct (get_dabs_area msg (DP_message_type msg) total
                <=? MAX_MULTIDAB_AREA) eqn:Ha.
      * apply IH in H. destruct H as (taken & Hm & Harea).
        exists (msg :: taken). rewrite <- app_assoc in Hm.
        split; [exact Hm|]. right. simpl.
        destruct Harea as [-> | Harea]; [|exact Harea].
        simpl. apply Z.leb_le. exact Ha.
      * inversion H; subst. exists []. rewrite app_nil_r. auto.
    + inversion H; subst. exists []. rewrite app_nil_r. auto.
Qed.

(** X9: what does hold of every batch: it has [count] messages, between 1 and
    [MAX_MULTIDAB_MESSAGES], and when it goes to the multidab handler
    ([count >= 2]) the estimate as the code accumulates it, early exits
    included, is at most [MAX_MULTIDAB_AREA]. *)
Theorem multidab_batch_bounds :
  forall (pe : Engine) local count msgs pe1,
    handle_message_shift pe = Some (local, count, msgs, pe1) ->
    count = Z.of_nat (length msgs)
    /\ 1 <= count <= MAX_MULTIDAB_MESSAGES
    /\ (2 <= count -> running_dabs_area msgs <= MAX_MULTIDAB_AREA).
Proof.
  intros pe local count msgs pe1 H.
  pose proof (handle_message_shift_spec _ _ _ _ _ H)
    as (_ & _ & _ & Hcnt & Hrange & _).
  split; [exact Hcnt|]. split; [exact Hrange|]. intros Htwo.
  unfold handle_message_shift in H.
  destruct (shift_first_message pe) as [[l [first|]] pe0]; [|discriminate].
  unfold maybe_shift_more_messages in H.
  destruct (get_dabs_area first (DP_message_type first) 0
            <=? MAX_MULTIDAB_AREA_THRESHOLD).
  - unfold shift_more_draw_dabs_messages in H.
    destruct (shift_more_loop (queue_of pe0 l) 1
                (get_dabs_area first (DP_message_type first) 0) [first])
      as [[q' c'] m'] eqn:Hl.
    apply shift_more_loop_area in Hl. destruct Hl as (taken & Hm & Harea).
    inversion H; subst. clear H.
    destruct Harea as [-> | Harea].
    + simpl in Htwo. lia.
    + exact Harea.
  - inversion H; subst. simpl in Htwo. lia.
Qed.

End PaintThread.

Section Teardown.

Context {AclState CanvasState LayerPropsList : Type}.
Local Abbreviation Engine :=
  (@DP_PaintEngine AclState CanvasState LayerPropsList).

Lemma decrefs_app :
  forall a b, decrefs (a ++ b) = decrefs a ++ decrefs b.
Proof. intros. unfold decrefs. apply flat_map_app. Qed.

Lemma disposals_app :
  forall a b, disposals (a ++ b) = disposals a ++ disposals b.
Proof. intros. unfold disposals. apply flat_map_app. Qed.

Lemma free_preview_decrefs : forall p, decrefs (free_preview p) = [].
Proof. destruct p; reflexivity. Qed.

Lemma free_preview_disposals :
  forall p, disposals (free_preview p) = preview_object p.
Proof. destruct p; reflexivity. Qed.

Lemma queue_dispose_decrefs :
  forall queue, decrefs (DP_message_queue_dispose queue) = queue.
Proof.
  unfold DP_message_queue_dispose.
  induction queue as [|m rest IH]; [reflexivity|].
  cbn [flat_map]. rewrite !decrefs_app, IH.
  destruct (DP_message_body m) as [mi| | | | | | | |]; try reflexivity.
  destruct mi; try reflexivity. rewrite free_preview_decrefs. reflexivity.
Qed.

Lemma queue_dispose_disposals :
  forall queue,
    disposals (DP_message_queue_dispose queue) = queued_previews queue.
Proof.
  unfold DP_message_queue_dispose.
  induction queue as [|m rest IH]; [reflexivity|].
  cbn [flat_map queued_previews]. fold (queued_previews rest).
  rewrite !disposals_app, IH.
  destruct (DP_message_body m) as [mi| | | | | | | |]; try reflexivity.
  destruct mi; try reflexivity.
  rewrite free_preview_disposals, app_nil_r. reflexivity.
Qed.

Lemma free_join_drain_decrefs :
  forall queue, decrefs (free_join_drain queue) = queue.
Proof.
  induction queue as [|m rest IH]; simpl; [reflexivity|].
  rewrite decrefs_app. simpl. rewrite IH.
  destruct (DP_message_type m =? DP_MSG_INTERNAL); [|reflexivity].
  destruct (DP_message_body m) as [mi| | | | | | | |]; try reflexivity.
  destruct mi; try reflexivity. rewrite free_preview_decrefs. reflexivity.
Qed.

Lemma free_join_drain_disposals :
  forall queue, disposals (free_join_drain queue) = queued_previews queue.
Proof.
  induction queue as [|m rest IH]; simpl; [reflexivity|].
  rewrite disposals_app. simpl. rewrite IH. f_equal.
  unfold DP_message_type.
  destruct (DP_message_body m) as [mi| | | | | | | |]; simpl;
    try reflexivity.
  - destruct mi; try reflexivity. apply free_preview_disposals.
  - destruct (type =? DP_MSG_INTERNAL); reflexivity.
Qed.

(** C2: teardown decrefs every message still enqueued in either queue
    exactly once (the remote queue first, then the local one, each oldest
    first), and disposes of the preview payload of every preview-install
    message remaining in either queue exactly once, next to the pending
    [next_preview] and the installed preview.  The local queue is drained
    by [free_join] itself; the remote queue by [DP_message_queue_dispose],
    as the spec describes it. *)
Theorem free_join_releases_queued_messages :
  forall (pe : Engine),
    decrefs (DP_paint_engine_free_join pe)
      = remote_queue pe ++ local_queue pe
    /\ disposals (DP_paint_engine_free_join pe)
      = preview_object (next_preview pe)
        ++ queued_previews (remote_queue pe)
        ++ queued_previews (local_queue pe)
        ++ preview_object (preview pe).
Proof.
  intros pe. unfold DP_paint_engine_free_join.
  rewrite !decrefs_app, !disposals_app.
  rewrite !free_preview_decrefs, !free_preview_disposals.
  rewrite !queue_dispose_decrefs, !queue_dispose_disposals.
  rewrite free_join_drain_decrefs, free_join_drain_disposals.
  cbn [queued_previews flat_map app]. rewrite !app_nil_r.
  split; reflexivity.
Qed.

End Teardown.

(** Teardown with a preview-install message left in each queue: both
    messages are decref'd and both previews disposed of, once each. *)
Lemma free_join_previews_in_both_queues :
  decrefs (DP_paint_engine_free_join queued_previews_engine)
  = remote_queue queued_previews_engine ++ local_queue queued_previews_engine
  /\ disposals (DP_paint_engine_free_join queued_previews_engine)
     = [sample_cut_preview; CutPreview 0 0 6 0 0 64 64 None].
Proof. split; reflexivity. Qed.

(** [handle_message_local_priority] at the spec's scenario S3. *)
Lemma handle_message_local_priority_witness :
  local_queue both_queues_engine <> []
  /\ exists count batch pe1 pe2 effects,
       handle_message_shift both_queues_engine
         = Some (true, count, batch, pe1)
       /\ handle_message both_queues_engine = Some (pe2, effects)
       /\ batch <> []
       /\ local_queue both_queues_engine = batch ++ local_queue pe2
       /\ remote_queue pe2 = remote_queue both_queues_engine.
Proof.
  split.
  - discriminate.
  - apply (proj1 (@handle_message_local_priority unit Z Z both_queues_engine)).
    discriminate.
Defined.

Section View.

Context {AclState CanvasState LayerPropsList : Type}.
Variable api : @CanvasApi CanvasState LayerPropsList.
Local Abbreviation Engine :=
  (@DP_PaintEngine AclState CanvasState LayerPropsList).

(** With nothing pending and the memoised [prev_lpl] in place, [tick] takes
    neither [if]: the engine is returned as it was and nothing is called. *)
Lemma tick_steady :
  forall (pe : Engine) ch,
    catchup pe = -1 ->
    next_preview pe = PreviewNULL ->
    prev_lpl (local_view pe) <> None ->
    fst (ch (history_cs pe)) = None ->
    DP_paint_engine_tick api pe ch = (pe, [], []).
Proof.
  intros pe ch Hc Hn Hl Hh. unfold DP_paint_engine_tick.
  destruct pe as [a h v lv p lq rq s r c n mb]. simpl in *. subst c n.
  destruct (ch h) as [next ucb]. simpl in Hh. subst next. simpl.
  destruct (prev_lpl lv); [reflexivity | congruence].
Qed.

Lemma set_hidden_layer_props_frame :
  forall (pe : Engine) tcs,
    catchup (fst (set_hidden_layer_props api pe tcs)) = catchup pe
    /\ next_preview (fst (set_hidden_layer_props api pe tcs))
       = next_preview pe
    /\ prev_lpl (local_view (fst (set_hidden_layer_props api pe tcs)))
       = prev_lpl (local_view pe).
Proof.
  intros pe tcs. unfold set_hidden_layer_props.
  destruct (set_hidden_layer_props_loop api
              (length (hidden_layers (local_view pe)))
              (hidden_layers (local_view pe)) 0 tcs).
  simpl. auto.
Qed.

Lemma apply_local_layer_props_frame :
  forall (pe : Engine) cs,
    catchup (fst (apply_local_layer_props api pe cs)) = catchup pe
    /\ next_preview (fst (apply_local_layer_props api pe cs))
       = next_preview pe
    /\ prev_lpl (local_view (fst (apply_local_layer_props api pe cs)))
       <> None.
Proof.
  intros pe cs. unfold apply_local_layer_props.
  destruct (prev_lpl (local_view pe)) as [prev|] eqn:Hprev.
  - destruct (lpl_eqb api (DP_canvas_state_layer_props_noinc api cs) prev).
    + destruct (_ && _); simpl; rewrite Hprev; repeat split; discriminate.
    + unfold set_local_layer_props.
      match goal with
      | |- context [match hidden_layers ?lv with _ => _ end] =>
          destruct (hidden_layers lv)
      end.
      * simpl. repeat split; discriminate.
      * match goal with
        | |- context [set_hidden_layer_props api ?p ?t] =>
            pose proof (set_hidden_layer_props_frame p t) as (H1 & H2 & H3);
            destruct (set_hidden_layer_props api p t)
        end.
        simpl in *. rewrite H1, H2, H3. repeat split; discriminate.
  - unfold set_local_layer_props.
    match goal with
    | |- context [match hidden_layers ?lv with _ => _ end] =>
        destruct (hidden_layers lv)
    end.
    * simpl. repeat split; discriminate.
    * match goal with
      | |- context [set_hidden_layer_props api ?p ?t] =>
          pose proof (set_hidden_layer_props_frame p t) as (H1 & H2 & H3);
          destruct (set_hidden_layer_props api p t)
      end.
      simpl in *. rewrite H1, H2, H3. repeat split; discriminate.
Qed.

(** Every [tick] leaves the engine with no catchup value and no preview
    pending, and with [prev_lpl] memoised. *)
Lemma tick_leaves_steady_state :
  forall (pe : Engine) ch,
    let pe1 := fst (fst (DP_paint_engine_tick api pe ch)) in
    catchup pe1 = -1
    /\ next_preview pe1 = PreviewNULL
    /\ prev_lpl (local_view pe1) <> None.
Proof.
  intros pe ch. unfold DP_paint_engine_tick.
  destruct (ch (history_cs (with_catchup pe (-1)))) as [next ucb].
  set (pe_h := match next with
               | Some cs => with_history_cs (with_catchup pe (-1)) cs
               | None => with_catchup pe (-1)
               end).
  assert (Hh : catchup pe_h = -1
               /\ prev_lpl (local_view pe_h) = prev_lpl (local_view pe)).
  { subst pe_h. destruct next; simpl; auto. }
  destruct Hh as [Hc Hp].
  set (pe_p := match next_preview pe_h with
               | PreviewNULL => (with_next_preview pe_h PreviewNULL, [])
               | PreviewSentinel =>
                   (with_preview (with_next_preview pe_h PreviewNULL)
                      PreviewNULL,
                    free_preview
                      (preview (with_next_preview pe_h PreviewNULL)))
               | PreviewAt _ =>
                   (with_preview (with_next_preview pe_h PreviewNULL)
                      (next_preview pe_h),
                    free_preview
                      (preview (with_next_preview pe_h PreviewNULL)))
               end).
  assert (Hpp : catchup (fst pe_p) = -1
                /\ next_preview (fst pe_p) = PreviewNULL
                /\ prev_lpl (local_view (fst pe_p))
                   = prev_lpl (local_view pe)).
  { subst pe_p. destruct (next_preview pe_h); simpl; auto. }
  destruct pe_p as [pe2 effects]. simpl in Hpp.
  destruct Hpp as (Hc2 & Hn2 & Hp2).
  destruct ((match next with Some _ => true | None => false end)
            || negb (preview_is_null (next_preview pe_h))
            || match prev_lpl (local_view pe2) with
               | Some _ => false
               | None => true
               end) eqn:Hgo.
  - pose proof (apply_local_layer_props_frame pe2
                  (apply_inspect api pe2
                     (apply_preview api pe2 (history_cs pe2))))
      as (H1 & H2 & H3).
    destruct (apply_local_layer_props api pe2
                (apply_inspect api pe2
                   (apply_preview api pe2 (history_cs pe2)))) as [pe3 cs3].
    simpl in *. rewrite H1, H2. auto.
  - simpl. repeat split; auto.
    apply orb_false_iff in Hgo. destruct Hgo as [_ Hgo].
    destruct (prev_lpl (local_view pe2)); [discriminate | discriminate].
Qed.

(** C7: a second [tick], called when nothing happened since the previous
    one (no new history state, nothing pending in [next_preview] or
    [catchup], [prev_lpl] still as the previous tick left it), invokes no
    callback, disposes nothing and leaves the engine, and with it [view_cs],
    exactly as it was. *)
Theorem tick_idempotent_on_steady_state :
  forall (pe0 pe : Engine) ch0 ch,
    catchup pe = -1 ->
    next_preview pe = PreviewNULL ->
    prev_lpl (local_view pe)
      = prev_lpl (local_view (fst (fst (DP_paint_engine_tick api pe0 ch0)))) ->
    fst (ch (history_cs pe)) = None ->
    DP_paint_engine_tick api pe ch = (pe, [], [])
    /\ view_cs (fst (fst (DP_paint_engine_tick api pe ch))) = view_cs pe.
Proof.
  intros pe0 pe ch0 ch Hc Hn Hl Hh.
  assert (Hs : DP_paint_engine_tick api pe ch = (pe, [], [])).
  { apply tick_steady; auto. rewrite Hl.
    apply (tick_leaves_steady_state pe0 ch0). }
  split; [exact Hs | rewrite Hs; reflexivity].
Qed.

(** C9: with [count <= 0], [preview_dabs_inc] returns the engine unchanged
    (queues, semaphore and pending preview included) and takes no message
    reference. *)
Theorem preview_dabs_inc_nonpositive_count_noop :
  forall (pe : Engine) layer_id count messages,
    count <= 0 ->
    DP_paint_engine_preview_dabs_inc api pe layer_id count messages
      = (pe, []).
Proof.
  intros pe layer_id count messages Hc.
  unfold DP_paint_engine_preview_dabs_inc.
  destruct (0 <? count) eqn:E; [|reflexivity].
  apply Z.ltb_lt in E. lia.
Qed.

Lemma with_active_layer_id_same :
  forall (pe : Engine),
    with_local_view pe
      (with_active_layer_id (local_view pe) (active_layer_id (local_view pe)))
    = pe.
Proof. intros [a h v [] p lq rq s r c n mb]. reflexivity. Qed.

(** C10: [active_layer_id_set] clears [prev_lpl] exactly when the id
    changes and the view mode is not Normal, and otherwise leaves it alone;
    in Normal mode the call changes nothing but the stored
    [active_layer_id], and a steady engine stays steady, so the next [tick]
    recomposes nothing. *)
Theorem active_layer_id_set_invalidation :
  forall (pe : Engine) layer_id,
    prev_lpl (local_view (DP_paint_engine_active_layer_id_set pe layer_id))
      = (if negb (active_layer_id (local_view pe) =? layer_id)
            && negb (DP_LayerViewMode_eqb (layer_view_mode (local_view pe))
                       DP_LAYER_VIEW_MODE_NORMAL)
         then None
         else prev_lpl (local_view pe))
    /\ (layer_view_mode (local_view pe) = DP_LAYER_VIEW_MODE_NORMAL ->
        DP_paint_engine_active_layer_id_set pe layer_id
          = with_local_view pe (with_active_layer_id (local_view pe) layer_id)
        /\ forall ch,
             catchup pe = -1 ->
             next_preview pe = PreviewNULL ->
             prev_lpl (local_view pe) <> None ->
             fst (ch (history_cs pe)) = None ->
             DP_paint_engine_tick api
               (DP_paint_engine_active_layer_id_set pe layer_id) ch
             = (DP_paint_engine_active_layer_id_set pe layer_id, [], [])).
Proof.
  intros pe layer_id. split.
  - unfold DP_paint_engine_active_layer_id_set.
    destruct (active_layer_id (local_view pe) =? layer_id); simpl;
      [reflexivity|].
    destruct (DP_LayerViewMode_eqb (layer_view_mode (local_view pe))
                DP_LAYER_VIEW_MODE_NORMAL); reflexivity.
  - intros Hmode.
    assert (Hset : DP_paint_engine_active_layer_id_set pe layer_id
                   = with_local_view pe
                       (with_active_layer_id (local_view pe) layer_id)).
    { unfold DP_paint_engine_active_layer_id_set.
      destruct (active_layer_id (local_view pe) =? layer_id) eqn:E; simpl.
      - apply Z.eqb_eq in E. subst layer_id.
        symmetry. apply with_active_layer_id_same.
      - rewrite Hmode. reflexivity. }
    split; [exact Hset|].
    intros ch Hc Hn Hl Hh. rewrite Hset. apply tick_steady; assumption.
Qed.

End View.

(** [tick_idempotent_on_steady_state] at two ticks of a fresh engine. *)
Lemma tick_idempotent_on_steady_state_witness :
  let pe1 :=
    fst (fst (DP_paint_engine_tick sample_api sample_engine
                history_unchanged)) in
  DP_paint_engine_tick sample_api pe1 history_unchanged = (pe1, [], [])
  /\ view_cs (fst (fst (DP_paint_engine_tick sample_api pe1
                          history_unchanged)))
     = view_cs pe1.
Proof.
  exact (@tick_idempotent_on_steady_state unit Z Z sample_api sample_engine
           (fst (fst (DP_paint_engine_tick sample_api sample_engine
                        history_unchanged)))
           history_unchanged history_unchanged
           eq_refl eq_refl eq_refl eq_refl).
Defined.

(** [preview_dabs_inc_nonpositive_count_noop] at [count = 0] and at a
    negative count, with messages on offer. *)
Lemma preview_dabs_inc_nonpositive_count_noop_witness :
  DP_paint_engine_preview_dabs_inc sample_api sample_engine 1 0
    overshoot_queue = (sample_engine, [])
  /\ DP_paint_engine_preview_dabs_inc sample_api sample_engine 1 (-2)
       overshoot_queue = (sample_engine, []).
Proof.
  split.
  - apply (@preview_dabs_inc_nonpositive_count_noop unit Z Z sample_api
             sample_engine 1 0 overshoot_queue). lia.
  - apply (@preview_dabs_inc_nonpositive_count_noop unit Z Z sample_api
             sample_engine 1 (-2) overshoot_queue). lia.
Defined.

(** [active_layer_id_set_invalidation] on a steady engine in Normal mode
    (nothing invalidated, the next tick is silent) and on one in Solo mode
    (the memoised [prev_lpl] is cleared). *)
Lemma active_layer_id_set_invalidation_witness :
  let pe1 :=
    fst (fst (DP_paint_engine_tick sample_api sample_engine
                history_unchanged)) in
  let pe2 :=
    fst (fst (DP_paint_engine_tick sample_api
                (DP_paint_engine_view_mode_set pe1 DP_LAYER_VIEW_MODE_SOLO)
                history_unchanged)) in
  (prev_lpl (local_view (DP_paint_engine_active_layer_id_set pe1 7))
     = prev_lpl (local_view pe1)
   /\ DP_paint_engine_active_layer_id_set pe1 7
      = with_local_view pe1 (with_active_layer_id (local_view pe1) 7)
   /\ DP_paint_engine_tick sample_api
        (DP_paint_engine_active_layer_id_set pe1 7) history_unchanged
      = (DP_paint_engine_active_layer_id_set pe1 7, [], []))
  /\ prev_lpl (local_view pe2) <> None
  /\ prev_lpl (local_view (DP_paint_engine_active_layer_id_set pe2 7)) = None.
Proof.
  intros pe1 pe2.
  destruct (@active_layer_id_set_invalidation unit Z Z sample_api pe1 7)
    as [H1 H2].
  destruct (H2 eq_refl) as [H3 H4].
  destruct (@active_layer_id_set_invalidation unit Z Z sample_api pe2 7)
    as [H5 _].
  split; [split; [exact H1 | split; [exact H3 |]] | split; [| exact H5]].
  - exact (H4 history_unchanged eq_refl eq_refl
             ltac:(discriminate) eq_refl).
  - vm_compute. discriminate.
Defined.

Section Intake.

Context {AclState CanvasState LayerPropsList : Type}.
Variable DP_acl_state_handle : AclState -> DP_Message -> AclState * Z.
Variable DP_ACL_STATE_CHANGE_MASK : Z.
Local Abbreviation Engine :=
  (@DP_PaintEngine AclState CanvasState LayerPropsList).
Local Abbreviation should_push_remote :=
  (@should_push_message_remote AclState CanvasState LayerPropsList
     DP_acl_state_handle).
Local Abbreviation run_acl := (acl_run DP_acl_state_handle).

Lemma should_push_message_remote_acls :
  forall (pe : Engine) msg,
    acls (snd (should_push_remote pe msg))
      = fst (DP_acl_state_handle (acls pe) msg).
Proof.
  intros pe msg. unfold should_push_message_remote.
  destruct (DP_acl_state_handle (acls pe) msg) as [s r]. simpl.
  destruct (Z.land (uint8 r) DP_ACL_STATE_FILTERED_BIT =? 0);
    [|reflexivity].
  destruct (is_internal_or_command (DP_message_type msg)); [reflexivity|].
  destruct (DP_message_type msg =? DP_MSG_LASER_TRAIL); [reflexivity|].
  destruct (DP_message_type msg =? DP_MSG_MOVE_POINTER); [reflexivity|].
  destruct (DP_message_type msg =? DP_MSG_DEFAULT_LAYER); reflexivity.
Qed.

Lemma push_inc_acls :
  forall (pe : Engine) local msg,
    acls (DP_message_queue_push_inc pe local msg) = acls pe.
Proof. intros pe [] msg; reflexivity. Qed.

Lemma push_messages_loop_acls :
  forall msgs (pe : Engine) local pushed,
    acls (snd (push_messages_loop should_push_remote pe local msgs pushed))
      = run_acl (acls pe) msgs.
Proof.
  induction msgs as [|msg rest IH]; intros pe local pushed; simpl;
    [reflexivity|].
  pose proof (should_push_message_remote_acls pe msg) as Hs.
  destruct (should_push_remote pe msg) as [push pe1]. simpl in Hs.
  destruct push; rewrite IH; [rewrite push_inc_acls|]; rewrite Hs;
    reflexivity.
Qed.

Lemma handle_inc_scan_acls :
  forall msgs (pe : Engine) local,
    acls (snd (handle_inc_scan should_push_remote pe local msgs))
      = run_acl (acls pe) msgs.
Proof.
  induction msgs as [|msg rest IH]; intros pe local; simpl; [reflexivity|].
  pose proof (should_push_message_remote_acls pe msg) as Hs.
  destruct (should_push_remote pe msg) as [push pe1]. simpl in Hs.
  destruct push.
  - pose proof (push_messages_loop_acls rest
                  (DP_message_queue_push_inc pe1 local msg) local 1) as Hl.
    destruct (push_messages_loop should_push_remote
                (DP_message_queue_push_inc pe1 local msg) local rest 1)
      as [pushed pe2].
    simpl in *. rewrite Hl, push_inc_acls, Hs. reflexivity.
  - rewrite IH, Hs. reflexivity.
Qed.

(** C8: a remote [handle_inc] steps the ACL state machine once per message
    of the batch, in submission order, whatever the verdicts are and
    wherever the first pushable message stands: the machine ends in the
    state that running it over the batch from the start produces.  This
    holds for every state machine, among them one that logs its calls. *)
Theorem handle_inc_runs_acl_once_per_message :
  forall (pe : Engine) count msgs,
    acls (snd (fst (DP_paint_engine_handle_inc DP_acl_state_handle
                      DP_ACL_STATE_CHANGE_MASK pe false count msgs)))
      = acl_run DP_acl_state_handle (acls pe) (firstn (Z.to_nat count) msgs).
Proof.
  intros pe count msgs. unfold DP_paint_engine_handle_inc.
  pose proof (handle_inc_scan_acls (firstn (Z.to_nat count) msgs)
                (with_meta_buffer pe (reset_meta_buffer (meta_buffer pe)))
                false) as H.
  destruct (handle_inc_scan _ _ false (firstn (Z.to_nat count) msgs))
    as [pushed pe1].
  simpl in *. exact H.
Qed.

(** X4: the callbacks of any [handle_inc] come in four consecutive groups:
    at most one [acls_changed] (carrying non-zero change bits), then only
    laser trails, then only pointer moves, then at most one
    [default_layer_set]. *)
Lemma handle_inc_callback_order :
  forall (pe : Engine) local count msgs,
    exists a l m d,
      snd (DP_paint_engine_handle_inc DP_acl_state_handle
             DP_ACL_STATE_CHANGE_MASK pe local count msgs)
        = a ++ l ++ m ++ d
      /\ (a = [] \/ exists flags, flags <> 0 /\ a = [CbAclsChanged flags])
      /\ Forall (fun cb => exists c p k, cb = CbLaserTrail c p k) l
      /\ Forall (fun cb => exists c x y, cb = CbMovePointer c x y) m
      /\ (d = [] \/ exists id, d = [CbDefaultLayerSet id]).
Proof.
  intros pe local count msgs. unfold DP_paint_engine_handle_inc.
  destruct (handle_inc_scan _ _ local (firstn (Z.to_nat count) msgs))
    as [pushed pe1].
  simpl. unfold handle_inc_callbacks.
  eexists _, _, _, _. split; [reflexivity|]. repeat split.
  - destruct (Z.land (acl_change_flags (meta_buffer pe1))
                DP_ACL_STATE_CHANGE_MASK =? 0) eqn:E; simpl; [left; auto|].
    right. eexists. split; [|reflexivity]. apply Z.eqb_neq. exact E.
  - unfold laser_trail_calls. apply Forall_forall. intros cb Hin.
    apply in_map_iff in Hin. destruct Hin as (i & <- & _). eauto.
  - unfold move_pointer_calls. apply Forall_forall. intros cb Hin.
    apply in_map_iff in Hin. destruct Hin as (i & <- & _). eauto.
  - destruct (have_default_layer (meta_buffer pe1)); eauto.
Qed.

Local Abbreviation should_push_local :=
  (@should_push_message_local AclState CanvasState LayerPropsList).
Local Abbreviation pushable :=
  (fun msg => is_internal_or_command (DP_message_type msg)).

Lemma push_messages_loop_local :
  forall msgs (pe : Engine) pushed,
    push_messages_loop should_push_local pe true msgs pushed
    = (pushed + Z.of_nat (length (filter pushable msgs)),
       with_local_queue pe (local_queue pe ++ filter pushable msgs)).
Proof.
  induction msgs as [|msg rest IH]; intros pe pushed;
    cbn [push_messages_loop filter].
  - simpl. rewrite app_nil_r, Z.add_0_r. destruct pe; reflexivity.
  - destruct (should_push_local pe msg) as [push pe0] eqn:Hs.
    unfold should_push_message_local in Hs. inversion Hs; subst push pe0.
    clear Hs.
    destruct (is_internal_or_command (DP_message_type msg)).
    + rewrite IH. simpl length. f_equal; [lia|].
      unfold DP_message_queue_push_inc, with_queue_of, queue_of,
        with_local_queue.
      simpl. rewrite <- app_assoc. reflexivity.
    + apply IH.
Qed.

Lemma handle_inc_scan_local_eq :
  forall msgs (pe : Engine),
    handle_inc_scan should_push_local pe true msgs
    = match filter pushable msgs with
      | [] => (0, pe)
      | kept =>
          (Z.of_nat (length kept),
           with_queue_sem (with_local_queue pe (local_queue pe ++ kept))
             (queue_sem pe + Z.of_nat (length kept)))
      end.
Proof.
  induction msgs as [|msg rest IH]; intros pe; [reflexivity|].
  cbn [handle_inc_scan filter].
  destruct (should_push_local pe msg) as [push pe0] eqn:Hs.
  unfold should_push_message_local in Hs. inversion Hs; subst push pe0.
  clear Hs.
  destruct (is_internal_or_command (DP_message_type msg)) eqn:E.
  - unfold push_messages.
    rewrite (push_messages_loop_local rest
               (DP_message_queue_push_inc pe true msg) 1).
    unfold DP_message_queue_push_inc, with_queue_of, queue_of.
    cbn [local_queue with_local_queue with_queue_sem queue_sem acls
         history_cs view_cs local_view preview remote_queue running catchup
         next_preview meta_buffer].
    rewrite <- app_assoc. cbn [app length].
    replace (1 + Z.of_nat (length (filter pushable rest)))
      with (Z.of_nat (S (length (filter pushable rest)))) by lia.
    reflexivity.
  - apply IH.
Qed.

Lemma handle_inc_scan_local :
  forall msgs (pe : Engine),
    fst (handle_inc_scan should_push_local pe true msgs)
      = Z.of_nat (length (filter pushable msgs))
    /\ local_queue (snd (handle_inc_scan should_push_local pe true msgs))
       = local_queue pe ++ filter pushable msgs
    /\ remote_queue (snd (handle_inc_scan should_push_local pe true msgs))
       = remote_queue pe
    /\ queue_sem (snd (handle_inc_scan should_push_local pe true msgs))
       = queue_sem pe + Z.of_nat (length (filter pushable msgs))
    /\ meta_buffer (snd (handle_inc_scan should_push_local pe true msgs))
       = meta_buffer pe
    /\ acls (snd (handle_inc_scan should_push_local pe true msgs))
       = acls pe.
Proof.
  intros msgs pe. rewrite handle_inc_scan_local_eq.
  destruct (filter pushable msgs) as [|m kept].
  - simpl. rewrite app_nil_r, Z.add_0_r. repeat split; reflexivity.
  - repeat split; reflexivity.
Qed.

(** X2: a local [handle_inc] pushes exactly the internal and command messages
    of the batch onto the local queue, in order, posts the semaphore once
    per pushed message, returns their number, leaves the remote queue and
    the ACL state alone, and fires no callback. *)
Theorem handle_inc_local_intake :
  forall (pe : Engine) count msgs,
    let r := DP_paint_engine_handle_inc DP_acl_state_handle
               DP_ACL_STATE_CHANGE_MASK pe true count msgs in
    let kept := filter pushable (firstn (Z.to_nat count) msgs) in
    fst (fst r) = Z.of_nat (length kept)
    /\ local_queue (snd (fst r)) = local_queue pe ++ kept
    /\ remote_queue (snd (fst r)) = remote_queue pe
    /\ queue_sem (snd (fst r)) = queue_sem pe + Z.of_nat (length kept)
    /\ acls (snd (fst r)) = acls pe
    /\ snd r = [].
Proof.
  intros pe count msgs. unfold DP_paint_engine_handle_inc.
  pose proof (handle_inc_scan_local (firstn (Z.to_nat count) msgs)
                (with_meta_buffer pe (reset_meta_buffer (meta_buffer pe))))
    as (H1 & H2 & H3 & H4 & H5 & H6).
  destruct (handle_inc_scan _ _ true (firstn (Z.to_nat count) msgs))
    as [pushed pe1].
  simpl in *. repeat split; auto.
  rewrite H5. unfold handle_inc_callbacks. simpl. reflexivity.
Qed.

End Intake.

(** C8 read on the logging state machine: after a remote [handle_inc] the
    log holds exactly the messages of the batch, each once, in order. *)
Lemma handle_inc_acl_log :
  forall (verdict : DP_Message -> Z) mask
         (pe : @DP_PaintEngine (list DP_Message) Z Z) count msgs,
    acls (snd (fst (DP_paint_engine_handle_inc (acl_recorder verdict) mask
                      pe false count msgs)))
      = acls pe ++ firstn (Z.to_nat count) msgs.
Proof.
  intros verdict mask pe count msgs. unfold DP_paint_engine_handle_inc.
  pose proof (handle_inc_scan_acls (acl_recorder verdict)
                (firstn (Z.to_nat count) msgs)
                (with_meta_buffer pe (reset_meta_buffer (meta_buffer pe)))
                false) as H.
  destruct (handle_inc_scan _ _ false (firstn (Z.to_nat count) msgs))
    as [pushed pe1].
  simpl in *. rewrite H. clear H. unfold acl_run.
  generalize (acls pe). induction (firstn (Z.to_nat count) msgs) as [|m r IH];
    intros log; simpl.
  - symmetry. apply app_nil_r.
  - rewrite IH, <- app_assoc. reflexivity.
Qed.

(** C1 at a failing input: two laser trails and two pointer moves of the
    same context 5 in one remote call.  [users] ends up holding 5 twice for
    each, so each callback fires twice for context 5, both times with the
    latest values. *)
Theorem handle_inc_repeated_context_calls_twice :
  snd (DP_paint_engine_handle_inc acl_pass_all 14 sample_engine false 4
         repeated_context_batch)
  = [ CbLaserTrail 5 2 4294901760; CbLaserTrail 5 2 4294901760;
      CbMovePointer 5 30 40; CbMovePointer 5 30 40 ].
Proof. vm_compute. reflexivity. Qed.

(** C6 at a failing input: the four kinds of callback come in the stated
    order, [acls_changed] first and [default_layer_set] last with the latest
    id, but context 9, the first to send a laser trail, gets two laser
    calls, and context 3, the first to move its pointer, two pointer
    calls. *)
Theorem handle_inc_callbacks_ordered_but_repeated :
  snd (DP_paint_engine_handle_inc acl_always_changed 14 sample_engine false 8
         all_callbacks_batch)
  = [ CbAclsChanged 2;
      CbLaserTrail 9 3 16711680; CbLaserTrail 3 4 4278190080;
      CbLaserTrail 9 3 16711680;
      CbMovePointer 3 3 4; CbMovePointer 3 3 4;
      CbDefaultLayerSet 12 ].
Proof. vm_compute. reflexivity. Qed.

(** C3 at a failing input: with [overshoot_queue] waiting, the paint thread
    hands all three messages to the history as one multidab batch.  No dab
    of the batch has an area above 65536, yet the areas of all its dabs add
    up to 2621440, which is more than [MAX_MULTIDAB_AREA] plus one dab.
    The count loop stops adding once the running total has reached
    [MAX_MULTIDAB_AREA], and a total of exactly that much still passes the
    [<=] test, so the rest of the second message and all of the third are
    taken uncounted. *)
Theorem multidab_batch_area_overshoot :
  handle_message overshoot_engine
    = Some (with_queue_sem (with_remote_queue overshoot_engine []) 0,
            [EHistoryHandleMultidabDec 3 overshoot_queue])
  /\ Forall (fun area => area <= 65536) (batch_dab_areas overshoot_queue)
  /\ spec_batch_area overshoot_queue = 2621440
  /\ MAX_MULTIDAB_AREA + 65536 < spec_batch_area overshoot_queue.
Proof.
  split; [vm_compute; reflexivity|].
  split; [|split; [vm_compute; reflexivity | vm_compute; reflexivity]].
  apply Forall_forall. intros area Hin.
  unfold batch_dab_areas, overshoot_queue in Hin. simpl in Hin.
  repeat (destruct Hin as [<- | Hin]; [vm_compute; discriminate|]).
  contradiction.
Qed.

Section SoloMode.

Variable active : Z.
Variable reveal : bool.

(** Induction over a layer props tree, with the hypothesis available for
    every child of a group. *)
Lemma DP_LayerProps_tree_ind (P : DP_LayerProps -> Prop) :
  (forall id c, P (LayerProps id c None)) ->
  (forall id c entries,
      Forall P entries -> P (LayerProps id c (Some entries))) ->
  forall lp, P lp.
Proof.
  intros Hleaf Hgroup. fix IH 1. intros [id c [entries|]].
  - apply Hgroup. induction entries as [|e r IHr]; constructor.
    + apply IH.
    + exact IHr.
  - apply Hleaf.
Qed.

Lemma entry_group_unfold :
  forall mode pre id c entries,
    set_local_view_layer_props_entry active mode reveal pre
      (LayerProps id c (Some entries))
    = (if fst (solo_switch active mode (LayerProps id c (Some entries)))
          || (reveal && c)
       then [{| edit_indexes := pre;
                edit_hide :=
                  fst (solo_switch active mode
                         (LayerProps id c (Some entries)));
                edit_uncensor := reveal && c |}]
       else [])
      ++ set_local_view_layer_props_from active
           (snd (solo_switch active mode (LayerProps id c (Some entries))))
           reveal pre entries O.
Proof.
  intros mode pre id c entries. simpl.
  destruct (solo_switch active mode (LayerProps id c (Some entries)))
    as [hide child_mode].
  simpl. f_equal. generalize O.
  induction entries as [|e r IHr]; intros i; simpl; [reflexivity|].
  rewrite IHr. reflexivity.
Qed.

Lemma hidden_by_view_mode_app :
  forall a b p,
    hidden_by_view_mode (a ++ b) p
    <-> hidden_by_view_mode a p \/ hidden_by_view_mode b p.
Proof.
  intros a b p. unfold hidden_by_view_mode. split.
  - intros (e & Hin & H). apply in_app_or in Hin.
    destruct Hin; [left | right]; eauto.
  - intros [(e & Hin & H) | (e & Hin & H)]; exists e; split; auto;
      apply in_or_app; auto.
Qed.

Lemma hidden_by_view_mode_nil :
  forall p, ~ hidden_by_view_mode [] p.
Proof. intros p (e & Hin & _). exact Hin. Qed.

Local Abbreviation hidden_below := (solo_hidden_below active).
Local Abbreviation hides_as_specified :=
  (entry_hides_as_specified active reveal).

Lemma from_hides_as_specified :
  forall entries,
    Forall hides_as_specified entries ->
    forall mode pre i0 p,
      hidden_by_view_mode
        (set_local_view_layer_props_from active mode reveal pre entries i0) p
      <-> mode = DP_LAYER_VIEW_MODE_SOLO
          /\ exists k lp rel,
               nth_error entries k = Some lp
               /\ p = pre ++ (i0 + k)%nat :: rel
               /\ hidden_below lp rel.
Proof.
  intros entries HF. induction HF as [|lp rest Hlp HF IH];
    intros mode pre i0 p; simpl.
  - split.
    + intros H. exfalso. exact (hidden_by_view_mode_nil _ H).
    + intros (_ & k & lp & rel & Hn & _). destruct k; discriminate.
  - rewrite hidden_by_view_mode_app, (Hlp mode (pre ++ [i0]) p),
      (IH mode pre (S i0) p).
    split.
    + intros [(Hm & rel & Hp & Hb) | (Hm & k & lp' & rel & Hn & Hp & Hb)];
        (split; [exact Hm|]).
      * exists O, lp, rel. split; [reflexivity|]. split; [|exact Hb].
        rewrite Hp, <- app_assoc, Nat.add_0_r. reflexivity.
      * exists (S k), lp', rel. split; [exact Hn|]. split; [|exact Hb].
        rewrite Hp, Nat.add_succ_r. reflexivity.
    + intros (Hm & k & lp' & rel & Hn & Hp & Hb).
      destruct k as [|k]; simpl in Hn.
      * left. inversion Hn; subst lp'. split; [exact Hm|].
        exists rel. split; [|exact Hb].
        rewrite Hp, <- app_assoc, Nat.add_0_r. reflexivity.
      * right. split; [exact Hm|].
        exists k, lp', rel. split; [exact Hn|]. split; [|exact Hb].
        rewrite Hp, Nat.add_succ_r. reflexivity.
Qed.

Lemma entry_leaf_unfold :
  forall mode pre id c,
    set_local_view_layer_props_entry active mode reveal pre
      (LayerProps id c None)
    = (if fst (solo_switch active mode (LayerProps id c None))
          || (reveal && c)
       then [{| edit_indexes := pre;
                edit_hide :=
                  fst (solo_switch active mode (LayerProps id c None));
                edit_uncensor := reveal && c |}]
       else []).
Proof.
  intros mode pre id c. simpl.
  destruct (solo_switch active mode (LayerProps id c None)) as [hide cm].
  simpl. apply app_nil_r.
Qed.

(** The entry's own edit hides it exactly when [hide_layer] is set. *)
Lemma hidden_by_view_mode_own :
  forall hide uncensor pre p,
    hidden_by_view_mode
      (if hide || uncensor
       then [{| edit_indexes := pre; edit_hide := hide;
                edit_uncensor := uncensor |}]
       else []) p
    <-> hide = true /\ p = pre.
Proof.
  intros hide uncensor pre p. unfold hidden_by_view_mode. split.
  - intros (e & Hin & Hi & Hh).
    destruct (hide || uncensor); [|contradiction].
    destruct Hin as [<- | []]. simpl in *. auto.
  - intros [-> ->]. simpl. eexists. split; [left; reflexivity|]. auto.
Qed.

Lemma solo_switch_leaf :
  forall mode id c,
    fst (solo_switch active mode (LayerProps id c None)) = true
    <-> mode = DP_LAYER_VIEW_MODE_SOLO /\ id <> active.
Proof.
  intros mode id c.
  destruct mode; simpl;
    try (split; [discriminate | intros [? _]; discriminate]).
  destruct (id =? active) eqn:E; simpl.
  - apply Z.eqb_eq in E. split; [discriminate | intros [_ H]; contradiction].
  - apply Z.eqb_neq in E. split; auto.
Qed.

Lemma solo_switch_group :
  forall mode id c entries,
    fst (solo_switch active mode (LayerProps id c (Some entries))) = false
    /\ (snd (solo_switch active mode (LayerProps id c (Some entries)))
          = DP_LAYER_VIEW_MODE_SOLO
        <-> mode = DP_LAYER_VIEW_MODE_SOLO /\ id <> active).
Proof.
  intros mode id c entries.
  destruct mode; simpl;
    try (split; [reflexivity
                | split; [discriminate | intros [? _]; discriminate]]).
  destruct (id =? active) eqn:E; simpl; (split; [reflexivity|]).
  - apply Z.eqb_eq in E. split; [discriminate | intros [_ H]; contradiction].
  - apply Z.eqb_neq in E. split; auto.
Qed.

Lemma every_entry_hides_as_specified :
  forall lp, hides_as_specified lp.
Proof.
  apply DP_LayerProps_tree_ind.
  - (* a leaf *)
    intros id c mode pre p.
    rewrite entry_leaf_unfold, hidden_by_view_mode_own, solo_switch_leaf.
    unfold solo_hidden_below. split.
    + intros [[Hm Hid] ->]. split; [exact Hm|].
      exists []. rewrite app_nil_r. split; [reflexivity|].
      exists (LayerProps id c None). simpl. repeat split; auto.
    + intros (Hm & rel & Hp & lp' & Hb & Hleaf & Hid & Hab).
      destruct rel as [|i rest]; simpl in Hb; [|discriminate].
      inversion Hb; subst lp'. simpl in Hid.
      rewrite app_nil_r in Hp. auto.
  - (* a group *)
    intros id c entries HF mode pre p.
    rewrite entry_group_unfold, hidden_by_view_mode_app.
    rewrite hidden_by_view_mode_own.
    rewrite (from_hides_as_specified entries HF).
    destruct (solo_switch_group mode id c entries) as [Hown Hchild].
    rewrite Hown, Hchild. unfold solo_hidden_below. split.
    + intros [[Hf _] | ((Hm & Hid) & k & lp & rel & Hn & Hp & Hb)];
        [discriminate|].
      split; [exact Hm|]. exists (k :: rel). split; [exact Hp|].
      destruct Hb as (lp' & Hb & Hleaf & Hid' & Hab).
      exists lp'. simpl. rewrite Hn. repeat split; auto.
      intros [Heq | Hin]; [apply Hid; exact Heq | exact (Hab Hin)].
    + intros (Hm & rel & Hp & lp' & Hb & Hleaf & Hid & Hab).
      right. destruct rel as [|k rel]; simpl in Hb, Hab.
      * inversion Hb; subst lp'. simpl in Hleaf. discriminate.
      * destruct (nth_error entries k) as [child|] eqn:Hn; [|discriminate].
        split; [split; [exact Hm | intros ->; apply Hab; left; reflexivity]|].
        exists k, child, rel. split; [exact Hn|]. split; [exact Hp|].
        exists lp'. repeat split; auto.
Qed.

(** C5, as the code has it: in Solo mode the layers that get
    [hidden_by_view_mode] set are exactly the leaves whose id is not
    [active_layer_id] and that do not lie inside a group whose id is
    [active_layer_id] (below the active group the walk goes on in Normal
    mode).  A layer with a child list is never hidden by Solo mode. *)
Theorem solo_mode_hides_leaves_outside_active :
  forall entries indexes,
    hidden_by_view_mode
      (set_local_view_layer_props_recursive active DP_LAYER_VIEW_MODE_SOLO
         reveal [] entries) indexes
    <-> exists lp,
          layer_props_at entries indexes = Some lp
          /\ DP_layer_props_children_noinc lp = None
          /\ DP_layer_props_id lp <> active
          /\ ~ In active (enclosing_group_ids entries indexes).
Proof.
  intros entries indexes. unfold set_local_view_layer_props_recursive.
  rewrite (from_hides_as_specified entries).
  - unfold solo_hidden_below, layer_props_at, enclosing_group_ids.
    split.
    + intros (_ & k & lp & rel & Hn & Hp & lp' & Hb & Hleaf & Hid & Hab).
      simpl in Hp. subst indexes. rewrite Hn. eauto.
    + intros (lp' & Hb & Hleaf & Hid & Hab).
      split; [reflexivity|].
      destruct indexes as [|k rel]; [discriminate|].
      destruct (nth_error entries k) as [lp|] eqn:Hn; [|discriminate].
      exists k, lp, rel. repeat split; eauto.
  - apply Forall_forall. intros lp _. apply every_entry_hides_as_specified.
Qed.

End SoloMode.

(** C5, as stated, fails: with the group 1 active, its child 2 is a leaf
    whose id differs from [active_layer_id], and Solo mode does not hide
    it; the only layer hidden is the leaf 3 outside the group. *)
Lemma solo_mode_leaf_in_active_group_not_hidden :
  (exists lp,
      layer_props_at active_group_tree [0; 0]%nat = Some lp
      /\ DP_layer_props_children_noinc lp = None
      /\ DP_layer_props_id lp <> 1)
  /\ ~ hidden_by_view_mode
         (set_local_view_layer_props_recursive 1 DP_LAYER_VIEW_MODE_SOLO
            false [] active_group_tree) [0; 0]%nat
  /\ set_local_view_layer_props_recursive 1 DP_LAYER_VIEW_MODE_SOLO
       false [] active_group_tree
     = [{| edit_indexes := [1%nat]; edit_hide := true;
           edit_uncensor := false |}].
Proof.
  split; [|split].
  - exists (LayerProps 2 false None). repeat split. discriminate.
  - intros (e & Hin & Hi & _). simpl in Hin.
    destruct Hin as [<- | []]. discriminate.
  - reflexivity.
Qed.

(** [multidab_batch_bounds] at [overshoot_engine]: the batch of three is
    within the code's own estimate, which stops at [MAX_MULTIDAB_AREA]. *)
Lemma multidab_batch_bounds_witness :
  3 = Z.of_nat (length overshoot_queue)
  /\ 1 <= 3 <= MAX_MULTIDAB_MESSAGES
  /\ running_dabs_area overshoot_queue <= MAX_MULTIDAB_AREA.
Proof.
  destruct (@multidab_batch_bounds unit Z Z overshoot_engine false 3
              overshoot_queue
              (with_queue_sem (with_remote_queue overshoot_engine []) 0)
              ltac:(vm_compute; reflexivity))
    as (H1 & H2 & H3).
  split; [exact H1|]. split; [exact H2|]. apply H3. lia.
Defined.

(* ------------------------------------------------------------------ *)
(** ** More on the intake                                               *)
(* ------------------------------------------------------------------ *)

Section IntakeRemote.

Context {AclState CanvasState LayerPropsList : Type}.
Variable DP_acl_state_handle : AclState -> DP_Message -> AclState * Z.
Variable DP_ACL_STATE_CHANGE_MASK : Z.
Local Abbreviation Engine :=
  (@DP_PaintEngine AclState CanvasState LayerPropsList).
Local Abbreviation sp_remote :=
  (@should_push_message_remote AclState CanvasState LayerPropsList
     DP_acl_state_handle).
Local Abbreviation pushable :=
  (fun msg => is_internal_or_command (DP_message_type msg)).
Local Abbreviation passes := (acl_passes DP_acl_state_handle).
Local Abbreviation unfiltered := (acl_unfiltered DP_acl_state_handle).

Lemma push_messages_loop_as_fold :
  forall (sp : Engine -> DP_Message -> bool * Engine) msgs pe local pushed,
    push_messages_loop sp pe local msgs pushed
    = fold_left (intake_step sp local) msgs (pushed, pe).
Proof.
  intros sp. induction msgs as [|msg rest IH]; intros pe local pushed;
    [reflexivity|].
  cbn [push_messages_loop fold_left]. unfold intake_step at 2.
  cbn [fst snd]. destruct (sp pe msg) as [push pe1].
  destruct push; apply IH.
Qed.

Lemma intake_fold_count :
  forall (sp : Engine -> DP_Message -> bool * Engine) local msgs n pe,
    n <= fst (fold_left (intake_step sp local) msgs (n, pe)).
Proof.
  intros sp local. induction msgs as [|msg rest IH]; intros n pe;
    cbn [fold_left]; [simpl; lia|].
  unfold intake_step at 2. cbn [fst snd].
  destruct (sp pe msg) as [push pe1]. destruct push.
  - specialize (IH (n + 1) (DP_message_queue_push_inc pe1 local msg)). lia.
  - apply IH.
Qed.

(** The scan for the first pushable message followed by [push_messages] is
    one pass of [intake_step] over the batch; the semaphore is posted once
    at the end, by the number of pushes. *)
Lemma handle_inc_scan_as_fold :
  forall (sp : Engine -> DP_Message -> bool * Engine) local msgs pe,
    handle_inc_scan sp pe local msgs
    = (fst (fold_left (intake_step sp local) msgs (0, pe)),
       if fst (fold_left (intake_step sp local) msgs (0, pe)) =? 0
       then snd (fold_left (intake_step sp local) msgs (0, pe))
       else with_queue_sem
              (snd (fold_left (intake_step sp local) msgs (0, pe)))
              (queue_sem (snd (fold_left (intake_step sp local) msgs (0, pe)))
               + fst (fold_left (intake_step sp local) msgs (0, pe)))).
Proof.
  intros sp local. induction msgs as [|msg rest IH]; intros pe;
    [reflexivity|].
  cbn [handle_inc_scan fold_left].
  assert (Hstep : intake_step sp local (0, pe) msg
                  = let '(push, pe1) := sp pe msg in
                    if push
                    then (1, DP_message_queue_push_inc pe1 local msg)
                    else (0, pe1)) by reflexivity.
  rewrite Hstep. clear Hstep.
  destruct (sp pe msg) as [push pe1]. destruct push.
  - unfold push_messages. rewrite push_messages_loop_as_fold.
    pose proof (intake_fold_count sp local rest 1
                  (DP_message_queue_push_inc pe1 local msg)) as Hge.
    destruct (fold_left (intake_step sp local) rest
                (1, DP_message_queue_push_inc pe1 local msg)) as [n pf].
    cbn [fst snd] in *.
    destruct (n =? 0) eqn:E; [apply Z.eqb_eq in E; lia | reflexivity].
  - apply IH.
Qed.

(** Field by field, what the scan leaves behind. *)
Lemma handle_inc_scan_fields :
  forall (sp : Engine -> DP_Message -> bool * Engine) local msgs pe,
    let r := handle_inc_scan sp pe local msgs in
    let f := fold_left (intake_step sp local) msgs (0, pe) in
    fst r = fst f
    /\ acls (snd r) = acls (snd f)
    /\ local_queue (snd r) = local_queue (snd f)
    /\ remote_queue (snd r) = remote_queue (snd f)
    /\ queue_sem (snd r) = queue_sem (snd f) + fst f
    /\ meta_buffer (snd r) = meta_buffer (snd f).
Proof.
  intros sp local msgs pe. cbv zeta. rewrite handle_inc_scan_as_fold.
  destruct (fold_left (intake_step sp local) msgs (0, pe)) as [n pf].
  cbn [fst snd]. destruct (n =? 0) eqn:E.
  - apply Z.eqb_eq in E. subst n. repeat split; try reflexivity. lia.
  - repeat split; reflexivity.
Qed.

(** What one [should_push_message_remote] call does outside the laser,
    cursor and default-layer records. *)
Lemma remote_step_frame :
  forall (pe : Engine) msg,
    fst (sp_remote pe msg)
      = passes (acls pe) msg && pushable msg
    /\ acls (snd (sp_remote pe msg))
       = fst (DP_acl_state_handle (acls pe) msg)
    /\ local_queue (snd (sp_remote pe msg)) = local_queue pe
    /\ remote_queue (snd (sp_remote pe msg)) = remote_queue pe
    /\ queue_sem (snd (sp_remote pe msg)) = queue_sem pe
    /\ acl_change_flags (meta_buffer (snd (sp_remote pe msg)))
       = Z.lor (acl_change_flags (meta_buffer pe))
               (uint8 (snd (DP_acl_state_handle (acls pe) msg))).
Proof.
  intros pe msg. unfold should_push_message_remote, acl_passes.
  destruct (DP_acl_state_handle (acls pe) msg) as [s r]. cbn [fst snd].
  destruct (Z.land (uint8 r) DP_ACL_STATE_FILTERED_BIT =? 0);
    [|repeat split; reflexivity].
  destruct (is_internal_or_command (DP_message_type msg));
    [repeat split; reflexivity|].
  destruct (DP_message_type msg =? DP_MSG_LASER_TRAIL);
    [repeat split; reflexivity|].
  destruct (DP_message_type msg =? DP_MSG_MOVE_POINTER);
    [repeat split; reflexivity|].
  destruct (DP_message_type msg =? DP_MSG_DEFAULT_LAYER);
    repeat split; reflexivity.
Qed.

Lemma remote_fold_frame :
  forall msgs n (pe : Engine),
    let f := fold_left (intake_step sp_remote false) msgs (n, pe) in
    fst f = n + Z.of_nat (length (filter pushable (unfiltered (acls pe) msgs)))
    /\ remote_queue (snd f)
       = remote_queue pe ++ filter pushable (unfiltered (acls pe) msgs)
    /\ local_queue (snd f) = local_queue pe
    /\ queue_sem (snd f) = queue_sem pe
    /\ acls (snd f) = acl_run DP_acl_state_handle (acls pe) msgs
    /\ acl_change_flags (meta_buffer (snd f))
       = acl_flags DP_acl_state_handle (acls pe) msgs
           (acl_change_flags (meta_buffer pe)).
Proof.
  induction msgs as [|msg rest IH]; intros n pe; cbv zeta.
  - cbn. rewrite app_nil_r, Z.add_0_r. repeat split; reflexivity.
  - cbn [fold_left acl_unfiltered acl_flags].
    assert (Hstep : intake_step sp_remote false (n, pe) msg
                    = let '(push, pe1) := sp_remote pe msg in
                      if push
                      then (n + 1, DP_message_queue_push_inc pe1 false msg)
                      else (n, pe1)) by reflexivity.
    rewrite Hstep. clear Hstep.
    pose proof (remote_step_frame pe msg)
      as (Hpush & Hacls & Hl & Hr & Hs & Hf).
    destruct (sp_remote pe msg) as [push pe1]. cbn [fst snd] in *.
    unfold acl_run. cbn [fold_left]. fold (acl_run DP_acl_state_handle).
    rewrite filter_app.
    destruct (passes (acls pe) msg) eqn:Hp; cbn [andb] in Hpush.
    + destruct (is_internal_or_command (DP_message_type msg)) eqn:Hc;
        subst push.
      * specialize (IH (n + 1) (DP_message_queue_push_inc pe1 false msg)).
        cbv zeta in IH. destruct IH as (I1 & I2 & I3 & I4 & I5 & I6).
        set (f := fold_left (intake_step sp_remote false) rest _) in *.
        cbn [DP_message_queue_push_inc with_queue_of queue_of
             with_remote_queue acls remote_queue local_queue queue_sem
             meta_buffer] in I1, I2, I3, I4, I5, I6.
        rewrite Hacls in I1, I2, I5, I6. rewrite Hr in I2. rewrite Hl in I3.
        rewrite Hs in I4. rewrite Hf in I6. unfold acl_run in I5.
        cbn [filter]. rewrite Hc. cbn [app length].
        repeat split; try assumption.
        -- rewrite I1. lia.
        -- rewrite I2, <- app_assoc. reflexivity.
      * specialize (IH n pe1). cbv zeta in IH.
        destruct IH as (I1 & I2 & I3 & I4 & I5 & I6).
        set (f := fold_left (intake_step sp_remote false) rest _) in *.
        rewrite Hacls in I1, I2, I5, I6. rewrite Hr in I2. rewrite Hl in I3.
        rewrite Hs in I4. rewrite Hf in I6. unfold acl_run in I5.
        cbn [filter]. rewrite Hc. cbn [app].
        repeat split; assumption.
    + subst push. specialize (IH n pe1). cbv zeta in IH.
      destruct IH as (I1 & I2 & I3 & I4 & I5 & I6).
      set (f := fold_left (intake_step sp_remote false) rest _) in *.
      rewrite Hacls in I1, I2, I5, I6. rewrite Hr in I2. rewrite Hl in I3.
      rewrite Hs in I4. rewrite Hf in I6. unfold acl_run in I5.
      cbn [filter app].
      repeat split; assumption.
Qed.

(** X1: a remote [handle_inc] appends to the remote queue exactly the internal
    and command messages that the ACL filter, asked about every message of
    the batch in turn, did not filter; it returns their number, posts the
    semaphore by as much and leaves the local queue alone. *)
Theorem handle_inc_remote_intake :
  forall (pe : Engine) count msgs,
    let r := DP_paint_engine_handle_inc DP_acl_state_handle
               DP_ACL_STATE_CHANGE_MASK pe false count msgs in
    let kept :=
      filter pushable
        (unfiltered (acls pe) (firstn (Z.to_nat count) msgs)) in
    fst (fst r) = Z.of_nat (length kept)
    /\ remote_queue (snd (fst r)) = remote_queue pe ++ kept
    /\ local_queue (snd (fst r)) = local_queue pe
    /\ queue_sem (snd (fst r)) = queue_sem pe + Z.of_nat (length kept).
Proof.
  intros pe count msgs. cbv zeta. unfold DP_paint_engine_handle_inc.
  pose proof (handle_inc_scan_fields sp_remote false
                (firstn (Z.to_nat count) msgs)
                (with_meta_buffer pe (reset_meta_buffer (meta_buffer pe))))
    as (H1 & H2 & H3 & H4 & H5 & H6).
  pose proof (remote_fold_frame (firstn (Z.to_nat count) msgs) 0
                (with_meta_buffer pe (reset_meta_buffer (meta_buffer pe))))
    as (F1 & F2 & F3 & F4 & F5 & F6).
  destruct (handle_inc_scan _ _ false (firstn (Z.to_nat count) msgs))
    as [pushed pe1].
  cbn [fst snd] in *. cbn [acls with_meta_buffer remote_queue local_queue
                           queue_sem] in F1, F2, F3, F4.
  rewrite Z.add_0_l in F1.
  split; [congruence|]. split; [congruence|]. split; [congruence|].
  rewrite H5, F4, F1. reflexivity.
Qed.

(** X3: the flags handed to [acls_changed] are the answers of the ACL filter to
    every message of the batch, filtered ones included, or-ed together and
    cut down to the change mask; the callback is the first one fired, and
    it is fired exactly when those bits are not all zero. *)
Theorem handle_inc_acls_changed_flags :
  forall (pe : Engine) count msgs,
    let flags :=
      Z.land (acl_flags DP_acl_state_handle (acls pe)
                (firstn (Z.to_nat count) msgs) 0)
             DP_ACL_STATE_CHANGE_MASK in
    exists rest,
      snd (DP_paint_engine_handle_inc DP_acl_state_handle
             DP_ACL_STATE_CHANGE_MASK pe false count msgs)
      = (if flags =? 0 then [] else [CbAclsChanged flags]) ++ rest
      /\ forall f, ~ In (CbAclsChanged f) rest.
Proof.
  intros pe count msgs. cbv zeta. unfold DP_paint_engine_handle_inc.
  pose proof (handle_inc_scan_fields sp_remote false
                (firstn (Z.to_nat count) msgs)
                (with_meta_buffer pe (reset_meta_buffer (meta_buffer pe))))
    as (_ & _ & _ & _ & _ & H6).
  pose proof (remote_fold_frame (firstn (Z.to_nat count) msgs) 0
                (with_meta_buffer pe (reset_meta_buffer (meta_buffer pe))))
    as (_ & _ & _ & _ & _ & F6).
  destruct (handle_inc_scan _ _ false (firstn (Z.to_nat count) msgs))
    as [pushed pe1].
  cbn [fst snd] in *. rewrite <- H6 in F6.
  cbn [acls with_meta_buffer meta_buffer reset_meta_buffer acl_change_flags]
    in F6.
  unfold handle_inc_callbacks. rewrite F6.
  eexists. split.
  - destruct (Z.land _ DP_ACL_STATE_CHANGE_MASK =? 0); reflexivity.
  - intros f Hin. apply in_app_or in Hin. destruct Hin as [Hin | Hin].
    + unfold laser_trail_calls in Hin. apply in_map_iff in Hin.
      destruct Hin as (i & Hi & _). discriminate.
    + apply in_app_or in Hin. destruct Hin as [Hin | Hin].
      * unfold move_pointer_calls in Hin. apply in_map_iff in Hin.
        destruct Hin as (i & Hi & _). discriminate.
      * destruct (have_default_layer (meta_buffer pe1));
          [destruct Hin as [Hin | []]; discriminate | contradiction].
Qed.

End IntakeRemote.

Section MetaTables.

Lemma latest_of_context_snoc :
  forall c ls m,
    latest_of_context c (ls ++ [m])
    = if uint8 (DP_message_context_id m) =? c then Some m
      else latest_of_context c ls.
Proof.
  intros c ls m. induction ls as [|a ls IH]; cbn [app latest_of_context].
  - reflexivity.
  - rewrite IH. destruct (uint8 (DP_message_context_id m) =? c); reflexivity.
Qed.

Lemma latest_of_context_in :
  forall c ls m,
    latest_of_context c ls = Some m ->
    In m ls /\ uint8 (DP_message_context_id m) = c.
Proof.
  intros c ls m. induction ls as [|a ls IH]; cbn [latest_of_context].
  - discriminate.
  - destruct (latest_of_context c ls) as [later|].
    + intros H. inversion H; subst later.
      destruct (IH eq_refl) as [Hin Hc]. split; [right; exact Hin | exact Hc].
    + destruct (uint8 (DP_message_context_id a) =? c) eqn:E; [|discriminate].
      intros H. inversion H; subst a. apply Z.eqb_eq in E.
      split; [left; reflexivity | exact E].
Qed.

Lemma latest_of_context_some :
  forall ls m,
    In m ls ->
    exists m', latest_of_context (uint8 (DP_message_context_id m)) ls
               = Some m'.
Proof.
  induction ls as [|a ls IH]; intros m Hin; [contradiction|].
  cbn [latest_of_context]. destruct Hin as [-> | Hin].
  - destruct (latest_of_context _ ls); [eauto|].
    rewrite Z.eqb_refl. eauto.
  - destruct (IH m Hin) as [m' ->]. eauto.
Qed.

Lemma loop_indices_in :
  forall n i, In i (loop_indices n) <-> 0 <= i < n.
Proof.
  intros n i. unfold loop_indices. rewrite in_map_iff. split.
  - intros (k & <- & Hk). apply in_seq in Hk. lia.
  - intros Hi. exists (Z.to_nat i). split; [lia|]. apply in_seq. lia.
Qed.

Lemma array_set_same :
  forall (A : Type) (arr : Z -> A) i v, array_set arr i v i = v.
Proof. intros. unfold array_set. rewrite Z.eqb_refl. reflexivity. Qed.

Lemma array_set_other :
  forall (A : Type) (arr : Z -> A) i j v,
    j <> i -> array_set arr i v j = arr j.
Proof.
  intros A arr i j v H. unfold array_set.
  destruct (j =? i) eqn:E; [apply Z.eqb_eq in E; contradiction | reflexivity].
Qed.

Lemma uint8_range : forall x, 0 <= uint8 x < 256.
Proof. intros x. unfold uint8. apply Z.mod_pos_bound. lia. Qed.

Lemma uint8_small : forall x, 0 <= x < 256 -> uint8 x = x.
Proof. intros x H. unfold uint8. apply Z.mod_small. exact H. Qed.

(** One more context folded into a user list, the way
    [handle_laser_trail] and [handle_move_pointer] both do it. *)
Lemma user_list_step :
  forall count users active cs c,
    user_list_tracks count users active cs ->
    user_list_tracks
      (if count =? 0 then 1
       else if negb (active c) then uint8 (count + 1) else count)
      (if count =? 0 then array_set users 0 c
       else if negb (active c) then array_set users count c else users)
      (if count =? 0 then fun _ => false
       else if negb (active c) then array_set active c true else active)
      (cs ++ [c]).
Proof.
  intros count users active cs c (Hrange & Husers & Hfull).
  assert (Hlen : length (cs ++ [c]) = S (length cs))
    by (rewrite length_app; simpl; lia).
  destruct (count =? 0) eqn:E0.
  - apply Z.eqb_eq in E0. subst count.
    split; [lia|]. split.
    + intros i Hi. assert (i = 0) by lia. subst i.
      rewrite array_set_same. apply in_or_app. right. left. reflexivity.
    + intros Hle. rewrite Hlen in Hle.
      destruct (Hfull ltac:(lia)) as (_ & Hne & _ & _).
      assert (cs = []) as ->.
      { destruct cs as [|x xs]; [reflexivity|].
        assert (1 <= 0) by (apply Hne; discriminate). lia. }
      split; [simpl; lia|]. split; [lia|]. split.
      * intros c' [<- | []]. exists 0. split; [lia|].
        apply array_set_same.
      * intros _ c' H. discriminate.
  - apply Z.eqb_neq in E0. destruct (active c) eqn:Ea; cbn [negb].
    + (* already listed *)
      split; [exact Hrange|]. split.
      * intros i Hi. apply in_or_app. left. apply Husers. exact Hi.
      * intros Hle. rewrite Hlen in Hle.
        destruct (Hfull ltac:(lia)) as (Hcnt & Hne & Hall & Hact).
        split; [rewrite Hlen; lia|]. split; [lia|]. split.
        -- intros c' Hin. apply in_app_or in Hin.
           destruct Hin as [Hin | [<- | []]].
           ++ apply Hall. exact Hin.
           ++ apply Hact; [lia | exact Ea].
        -- exact Hact.
    + (* appended *)
      pose proof (uint8_range (count + 1)) as Hu.
      assert (Hmod : uint8 (count + 1) <= count + 1).
      { unfold uint8. apply Z.mod_le; lia. }
      split; [exact Hu|]. split.
      * intros i Hi. apply in_or_app.
        destruct (Z.eq_dec i count) as [-> | Hne].
        -- right. left. symmetry. apply array_set_same.
        -- left. rewrite array_set_other by exact Hne.
           apply Husers. lia.
      * intros Hle. rewrite Hlen in Hle.
        destruct (Hfull ltac:(lia)) as (Hcnt & Hne & Hall & Hact).
        assert (Hsmall : uint8 (count + 1) = count + 1)
          by (apply uint8_small; lia).
        rewrite Hsmall.
        split; [rewrite Hlen; lia|]. split; [lia|]. split.
        -- intros c' Hin. apply in_app_or in Hin.
           destruct Hin as [Hin | [<- | []]].
           ++ destruct (Hall c' Hin) as (i & Hi & Hui).
              exists i. split; [lia|].
              rewrite array_set_other by lia. exact Hui.
           ++ exists count. split; [lia|]. apply array_set_same.
        -- intros _ c' Hc'. unfold array_set in Hc'.
           destruct (c' =? c) eqn:Ec.
           ++ apply Z.eqb_eq in Ec. subst c'.
              exists count. split; [lia|]. apply array_set_same.
           ++ destruct (Hact ltac:(lia) c' Hc') as (i & Hi & Hui).
              exists i. split; [lia|].
              rewrite array_set_other by lia. exact Hui.
Qed.

Lemma user_list_start :
  forall users active, user_list_tracks 0 users active [].
Proof.
  intros users active. split; [lia|]. split.
  - intros i Hi. lia.
  - intros _. split; [simpl; lia|]. split; [congruence|]. split.
    + intros c [].
    + intros H. lia.
Qed.

End MetaTables.

Section IntakeMeta.

Context {AclState CanvasState LayerPropsList : Type}.
Variable DP_acl_state_handle : AclState -> DP_Message -> AclState * Z.
Variable DP_ACL_STATE_CHANGE_MASK : Z.
Local Abbreviation Engine :=
  (@DP_PaintEngine AclState CanvasState LayerPropsList).
Local Abbreviation sp_remote :=
  (@should_push_message_remote AclState CanvasState LayerPropsList
     DP_acl_state_handle).
Local Abbreviation passes := (acl_passes DP_acl_state_handle).
Local Abbreviation unfiltered := (acl_unfiltered DP_acl_state_handle).

Lemma handle_laser_trail_tracks :
  forall (pe : Engine) m ls,
    laser_table_tracks (laser_changes (meta_buffer pe)) ls ->
    laser_table_tracks
      (laser_changes (meta_buffer (handle_laser_trail pe m))) (ls ++ [m]).
Proof.
  intros pe m ls [Hlist Hbuf].
  pose proof (user_list_step _ _ _ _ (uint8 (DP_message_context_id m)) Hlist)
    as Hstep.
  unfold handle_laser_trail.
  cbn [meta_buffer with_meta_buffer laser_changes].
  set (laser := laser_changes (meta_buffer pe)) in *.
  split.
  - unfold contexts. rewrite map_app. cbn [map].
    destruct (laser_count laser =? 0);
      [|destruct (laser_active laser (uint8 (DP_message_context_id m)))];
      cbn [negb laser_count laser_users laser_active] in *; exact Hstep.
  - intros c m' Hlatest. rewrite latest_of_context_snoc in Hlatest.
    cbn [laser_buffers].
    destruct (uint8 (DP_message_context_id m) =? c) eqn:Ec.
    + apply Z.eqb_eq in Ec. inversion Hlatest; subst m'. rewrite <- Ec.
      rewrite array_set_same. reflexivity.
    + apply Z.eqb_neq in Ec. rewrite array_set_other by congruence.
      destruct (laser_count laser =? 0);
        [|destruct (negb (laser_active laser
                            (uint8 (DP_message_context_id m))))];
        cbn [laser_buffers]; apply Hbuf; exact Hlatest.
Qed.

Lemma handle_move_pointer_tracks :
  forall (pe : Engine) m ms,
    cursor_table_tracks (cursor_changes (meta_buffer pe)) ms ->
    cursor_table_tracks
      (cursor_changes (meta_buffer (handle_move_pointer pe m))) (ms ++ [m]).
Proof.
  intros pe m ms [Hlist Hbuf].
  pose proof (user_list_step _ _ _ _ (uint8 (DP_message_context_id m)) Hlist)
    as Hstep.
  unfold handle_move_pointer.
  cbn [meta_buffer with_meta_buffer cursor_changes].
  set (cursor := cursor_changes (meta_buffer pe)) in *.
  split.
  - unfold contexts. rewrite map_app. cbn [map].
    destruct (cursor_count cursor =? 0);
      [|destruct (cursor_active cursor (uint8 (DP_message_context_id m)))];
      cbn [negb cursor_count cursor_users cursor_active] in *; exact Hstep.
  - intros c m' Hlatest. rewrite latest_of_context_snoc in Hlatest.
    cbn [cursor_positions].
    destruct (uint8 (DP_message_context_id m) =? c) eqn:Ec.
    + apply Z.eqb_eq in Ec. inversion Hlatest; subst m'. rewrite <- Ec.
      rewrite array_set_same. reflexivity.
    + apply Z.eqb_neq in Ec. rewrite array_set_other by congruence.
      destruct (cursor_count cursor =? 0);
        [|destruct (negb (cursor_active cursor
                            (uint8 (DP_message_context_id m))))];
        cbn [cursor_positions]; apply Hbuf; exact Hlatest.
Qed.

(** The three records of the meta buffer after one
    [should_push_message_remote]: they move only for an unfiltered message
    of the matching type. *)
Lemma remote_step_meta :
  forall (pe : Engine) msg ls ms ids,
    laser_table_tracks (laser_changes (meta_buffer pe)) ls ->
    cursor_table_tracks (cursor_changes (meta_buffer pe)) ms ->
    (have_default_layer (meta_buffer pe) = negb (match ids with
                                                 | [] => true
                                                 | _ => false
                                                 end)
     /\ (ids <> [] -> default_layer (meta_buffer pe) = last ids 0)) ->
    let new := if passes (acls pe) msg then [msg] else [] in
    let pe1 := snd (sp_remote pe msg) in
    laser_table_tracks (laser_changes (meta_buffer pe1))
      (ls ++ of_type DP_MSG_LASER_TRAIL new)
    /\ cursor_table_tracks (cursor_changes (meta_buffer pe1))
         (ms ++ of_type DP_MSG_MOVE_POINTER new)
    /\ (have_default_layer (meta_buffer pe1)
        = negb (match ids ++ default_layer_ids new with
                | [] => true
                | _ => false
                end)
        /\ (ids ++ default_layer_ids new <> [] ->
            default_layer (meta_buffer pe1)
            = last (ids ++ default_layer_ids new) 0)).
Proof.
  intros pe msg ls ms ids Hl Hc Hd. cbv zeta.
  unfold should_push_message_remote, acl_passes, default_layer_ids, of_type.
  destruct (DP_acl_state_handle (acls pe) msg) as [s r]. cbn [fst snd].
  destruct (Z.land (uint8 r) DP_ACL_STATE_FILTERED_BIT =? 0).
  2:{ cbn [filter map snd meta_buffer with_meta_buffer laser_changes
           cursor_changes have_default_layer default_layer].
      rewrite !app_nil_r. auto. }
  cbn [filter].
  destruct (is_internal_or_command (DP_message_type msg)) eqn:Hcmd.
  { assert (Hno : (DP_message_type msg =? DP_MSG_LASER_TRAIL) = false
                  /\ (DP_message_type msg =? DP_MSG_MOVE_POINTER) = false
                  /\ (DP_message_type msg =? DP_MSG_DEFAULT_LAYER) = false).
    { unfold is_internal_or_command in Hcmd.
      repeat split; apply Z.eqb_neq; intros Heq; rewrite Heq in Hcmd;
        discriminate. }
    destruct Hno as (-> & -> & ->).
    cbn [map snd meta_buffer with_meta_buffer laser_changes
         cursor_changes have_default_layer default_layer].
    rewrite !app_nil_r. auto. }
  destruct (DP_message_type msg =? DP_MSG_LASER_TRAIL) eqn:El.
  { assert (Hno : (DP_message_type msg =? DP_MSG_MOVE_POINTER) = false
                  /\ (DP_message_type msg =? DP_MSG_DEFAULT_LAYER) = false).
    { apply Z.eqb_eq in El. rewrite El. split; reflexivity. }
    destruct Hno as (-> & ->). cbn [map snd]. rewrite !app_nil_r.
    split; [apply handle_laser_trail_tracks; exact Hl|]. split; assumption. }
  destruct (DP_message_type msg =? DP_MSG_MOVE_POINTER) eqn:Em.
  { assert (Hno : (DP_message_type msg =? DP_MSG_DEFAULT_LAYER) = false).
    { apply Z.eqb_eq in Em. rewrite Em. reflexivity. }
    rewrite Hno. cbn [map snd]. rewrite !app_nil_r.
    split; [exact Hl|].
    split; [apply handle_move_pointer_tracks; exact Hc | assumption]. }
  destruct (DP_message_type msg =? DP_MSG_DEFAULT_LAYER) eqn:Ed.
  - cbn [map snd]. rewrite !app_nil_r.
    split; [exact Hl|]. split; [exact Hc|].
    cbn [handle_default_layer meta_buffer with_meta_buffer
         have_default_layer default_layer].
    split.
    + destruct ids; reflexivity.
    + intros _. rewrite last_last. reflexivity.
  - cbn [map snd meta_buffer with_meta_buffer laser_changes
         cursor_changes have_default_layer default_layer].
    rewrite !app_nil_r. auto.
Qed.

End IntakeMeta.

Section Pixels.

Lemma testbit_byte :
  forall x i,
    0 <= i -> Z.testbit (Z.land x 255) i = Z.testbit x i && (i <? 8).
Proof.
  intros x i Hi. rewrite Z.land_spec. change 255 with (Z.ones 8).
  rewrite Z.testbit_ones_nonneg by lia. reflexivity.
Qed.

(** Splitting a colour into the four bytes of [DP_UPixel8] and reading the
    union back gives the colour's low 32 bits. *)
Lemma upixel8_roundtrip :
  forall c,
    upixel8_color (upixel8_b c) (upixel8_g c) (upixel8_r c) (upixel8_a c)
    = c mod 2 ^ 32.
Proof.
  intros c. apply Z.bits_inj'. intros n Hn.
  unfold upixel8_color, upixel8_b, upixel8_g, upixel8_r, upixel8_a.
  rewrite !Z.lor_spec, Z.testbit_mod_pow2 by lia.
  rewrite testbit_byte by lia.
  destruct (Z.ltb_spec n 8).
  { rewrite !Z.shiftl_spec_low by lia.
    replace (n <? 32) with true by (symmetry; apply Z.ltb_lt; lia).
    rewrite andb_true_r, !orb_false_r. reflexivity. }
  rewrite andb_false_r, ?orb_false_l.
  rewrite (Z.shiftl_spec _ 8) by lia. rewrite testbit_byte by lia.
  rewrite Z.shiftr_spec by lia. replace (n - 8 + 8) with n by lia.
  destruct (Z.ltb_spec n 16).
  { rewrite !Z.shiftl_spec_low by lia.
    replace (n - 8 <? 8) with true by (symmetry; apply Z.ltb_lt; lia).
    replace (n <? 32) with true by (symmetry; apply Z.ltb_lt; lia).
    rewrite andb_true_r, !orb_false_r. reflexivity. }
  replace (n - 8 <? 8) with false by (symmetry; apply Z.ltb_ge; lia).
  rewrite andb_false_r, ?orb_false_l.
  rewrite (Z.shiftl_spec _ 16), (Z.shiftl_spec _ 24) by lia.
  destruct (Z.ltb_spec n 24).
  { rewrite testbit_byte by lia. rewrite Z.shiftr_spec by lia.
    replace (n - 16 + 16) with n by lia.
    rewrite (Z.testbit_neg_r _ (n - 24)) by lia.
    replace (n - 16 <? 8) with true by (symmetry; apply Z.ltb_lt; lia).
    replace (n <? 32) with true by (symmetry; apply Z.ltb_lt; lia).
    rewrite andb_true_r, orb_false_r. reflexivity. }
  rewrite !testbit_byte by lia. rewrite !Z.shiftr_spec by lia.
  replace (n - 16 + 16) with n by lia. replace (n - 24 + 24) with n by lia.
  replace (n - 16 <? 8) with false by (symmetry; apply Z.ltb_ge; lia).
  rewrite andb_false_r, ?orb_false_l.
  replace (n - 24 <? 8) with (n <? 32).
  - apply andb_comm.
  - destruct (Z.ltb_spec n 32); symmetry;
      [apply Z.ltb_lt | apply Z.ltb_ge]; lia.
Qed.

End Pixels.

Section IntakeMetaBatch.

Context {AclState CanvasState LayerPropsList : Type}.
Variable DP_acl_state_handle : AclState -> DP_Message -> AclState * Z.
Variable DP_ACL_STATE_CHANGE_MASK : Z.
Local Abbreviation Engine :=
  (@DP_PaintEngine AclState CanvasState LayerPropsList).
Local Abbreviation sp_remote :=
  (@should_push_message_remote AclState CanvasState LayerPropsList
     DP_acl_state_handle).
Local Abbreviation passes := (acl_passes DP_acl_state_handle).
Local Abbreviation unfiltered := (acl_unfiltered DP_acl_state_handle).
Local Abbreviation handle_inc_remote pe count msgs :=
  (DP_paint_engine_handle_inc DP_acl_state_handle DP_ACL_STATE_CHANGE_MASK
     pe false count msgs).

Lemma acl_unfiltered_snoc :
  forall msgs s m,
    unfiltered s (msgs ++ [m])
    = unfiltered s msgs
      ++ (if passes (acl_run DP_acl_state_handle s msgs) m then [m] else []).
Proof.
  induction msgs as [|a rest IH]; intros s m.
  - cbn. rewrite app_nil_r. reflexivity.
  - cbn [app acl_unfiltered]. rewrite IH, app_assoc. reflexivity.
Qed.

Lemma intake_step_meta :
  forall (acc : Z * Engine) m,
    meta_buffer (snd (intake_step sp_remote false acc m))
    = meta_buffer (snd (sp_remote (snd acc) m)).
Proof.
  intros acc m. unfold intake_step.
  destruct (sp_remote (snd acc) m) as [push pe1]. destruct push; reflexivity.
Qed.

(** The meta buffer after the intake loop has run over [msgs], from a
    buffer as [handle_inc] resets it. *)
Lemma remote_fold_meta :
  forall msgs n (pe : Engine),
    laser_count (laser_changes (meta_buffer pe)) = 0 ->
    cursor_count (cursor_changes (meta_buffer pe)) = 0 ->
    have_default_layer (meta_buffer pe) = false ->
    let mb :=
      meta_buffer (snd (fold_left (intake_step sp_remote false) msgs (n, pe)))
    in
    let seen := unfiltered (acls pe) msgs in
    laser_table_tracks (laser_changes mb) (of_type DP_MSG_LASER_TRAIL seen)
    /\ cursor_table_tracks (cursor_changes mb)
         (of_type DP_MSG_MOVE_POINTER seen)
    /\ (have_default_layer mb
        = negb (match default_layer_ids seen with
                | [] => true
                | _ => false
                end)
        /\ (default_layer_ids seen <> [] ->
            default_layer mb = last (default_layer_ids seen) 0)).
Proof.
  intros msgs n pe Hl Hc Hd. cbv zeta.
  induction msgs as [|m msgs IH] using rev_ind.
  - cbn [fold_left snd acl_unfiltered of_type filter default_layer_ids map].
    split; [|split; [|split]].
    + split; [rewrite Hl; apply user_list_start|].
      intros c m H. discriminate.
    + split; [rewrite Hc; apply user_list_start|].
      intros c m H. discriminate.
    + rewrite Hd. reflexivity.
    + intros H. congruence.
  - rewrite fold_left_app. cbn [fold_left]. rewrite intake_step_meta.
    rewrite acl_unfiltered_snoc.
    pose proof (remote_fold_frame DP_acl_state_handle msgs n pe)
      as (_ & _ & _ & _ & Hacls & _).
    cbv zeta in Hacls. rewrite <- Hacls.
    destruct IH as (IHl & IHc & IHd).
    pose proof (remote_step_meta DP_acl_state_handle
                  (snd (fold_left (intake_step sp_remote false) msgs (n, pe)))
                  m _ _ _ IHl IHc IHd) as Hstep.
    cbv zeta in Hstep. unfold default_layer_ids, of_type in *.
    rewrite !filter_app. rewrite map_app. exact Hstep.
Qed.

(** The same, for the buffer that [handle_inc] reads its callbacks from. *)
Lemma handle_inc_meta :
  forall (pe : Engine) count msgs,
    let seen := unfiltered (acls pe) (firstn (Z.to_nat count) msgs) in
    exists mb,
      snd (handle_inc_remote pe count msgs)
      = handle_inc_callbacks DP_ACL_STATE_CHANGE_MASK mb
      /\ laser_table_tracks (laser_changes mb)
           (of_type DP_MSG_LASER_TRAIL seen)
      /\ cursor_table_tracks (cursor_changes mb)
           (of_type DP_MSG_MOVE_POINTER seen)
      /\ (have_default_layer mb
          = negb (match default_layer_ids seen with
                  | [] => true
                  | _ => false
                  end)
          /\ (default_layer_ids seen <> [] ->
              default_layer mb = last (default_layer_ids seen) 0)).
Proof.
  intros pe count msgs. cbv zeta. unfold DP_paint_engine_handle_inc.
  pose proof (handle_inc_scan_fields sp_remote false
                (firstn (Z.to_nat count) msgs)
                (with_meta_buffer pe (reset_meta_buffer (meta_buffer pe))))
    as (_ & _ & _ & _ & _ & H6).
  pose proof (remote_fold_meta (firstn (Z.to_nat count) msgs) 0
                (with_meta_buffer pe (reset_meta_buffer (meta_buffer pe)))
                eq_refl eq_refl eq_refl) as Hmeta.
  cbv zeta in H6, Hmeta. rewrite <- H6 in Hmeta.
  destruct (handle_inc_scan _ _ false (firstn (Z.to_nat count) msgs))
    as [pushed pe1].
  cbn [fst snd] in *. exists (meta_buffer pe1). split; [reflexivity|].
  exact Hmeta.
Qed.

Lemma callbacks_laser_in :
  forall mb c p col,
    In (CbLaserTrail c p col)
       (handle_inc_callbacks DP_ACL_STATE_CHANGE_MASK mb)
    <-> exists i,
          0 <= i < laser_count (laser_changes mb)
          /\ c = laser_users (laser_changes mb) i
          /\ p = lb_persistence (laser_buffers (laser_changes mb) c)
          /\ col = upixel8_color
                     (lb_b (laser_buffers (laser_changes mb) c))
                     (lb_g (laser_buffers (laser_changes mb) c))
                     (lb_r (laser_buffers (laser_changes mb) c))
                     (lb_a (laser_buffers (laser_changes mb) c)).
Proof.
  intros mb c p col. unfold handle_inc_callbacks. rewrite !in_app_iff.
  split.
  - intros [H | [H | [H | H]]].
    + destruct (negb _); [destruct H as [H | []]; discriminate | destruct H].
    + unfold laser_trail_calls in H. apply in_map_iff in H.
      destruct H as (i & Heq & Hi). apply loop_indices_in in Hi.
      inversion Heq; subst. exists i. auto.
    + unfold move_pointer_calls in H. apply in_map_iff in H.
      destruct H as (i & Heq & _). discriminate.
    + destruct (have_default_layer mb);
        [destruct H as [H | []]; discriminate | destruct H].
  - intros (i & Hi & -> & -> & ->). right. left.
    unfold laser_trail_calls. apply in_map_iff. exists i.
    split; [reflexivity | apply loop_indices_in; exact Hi].
Qed.

Lemma callbacks_cursor_in :
  forall mb c x y,
    In (CbMovePointer c x y)
       (handle_inc_callbacks DP_ACL_STATE_CHANGE_MASK mb)
    <-> exists i,
          0 <= i < cursor_count (cursor_changes mb)
          /\ c = cursor_users (cursor_changes mb) i
          /\ x = cp_x (cursor_positions (cursor_changes mb) c)
          /\ y = cp_y (cursor_positions (cursor_changes mb) c).
Proof.
  intros mb c x y. unfold handle_inc_callbacks. rewrite !in_app_iff.
  split.
  - intros [H | [H | [H | H]]].
    + destruct (negb _); [destruct H as [H | []]; discriminate | destruct H].
    + unfold laser_trail_calls in H. apply in_map_iff in H.
      destruct H as (i & Heq & _). discriminate.
    + unfold move_pointer_calls in H. apply in_map_iff in H.
      destruct H as (i & Heq & Hi). apply loop_indices_in in Hi.
      inversion Heq; subst. exists i. auto.
    + destruct (have_default_layer mb);
        [destruct H as [H | []]; discriminate | destruct H].
  - intros (i & Hi & -> & -> & ->). right. right. left.
    unfold move_pointer_calls. apply in_map_iff. exists i.
    split; [reflexivity | apply loop_indices_in; exact Hi].
Qed.

Lemma in_contexts :
  forall c ms,
    In c (contexts ms) -> exists m, latest_of_context c ms = Some m.
Proof.
  intros c ms H. unfold contexts in H. apply in_map_iff in H.
  destruct H as (m & <- & Hin). apply latest_of_context_some. exact Hin.
Qed.

(** X5: every [laser_trail] callback of a remote [handle_inc] reports, for its
    context, the latest laser trail of the batch that came from that context
    and that the ACL filter let through: its persistence and the low 32 bits
    of its colour. *)
Theorem handle_inc_laser_trail_reports_latest :
  forall (pe : Engine) count msgs c p col,
    In (CbLaserTrail c p col) (snd (handle_inc_remote pe count msgs)) ->
    exists m,
      latest_of_context c
        (of_type DP_MSG_LASER_TRAIL
           (unfiltered (acls pe) (firstn (Z.to_nat count) msgs))) = Some m
      /\ p = DP_msg_laser_trail_persistence m
      /\ col = DP_msg_laser_trail_color m mod 2 ^ 32.
Proof.
  intros pe count msgs c p col Hin.
  destruct (handle_inc_meta pe count msgs)
    as (mb & Hcb & ((_ & Husers & _) & Hbuf) & _).
  rewrite Hcb in Hin. apply callbacks_laser_in in Hin.
  destruct Hin as (i & Hi & Hc & Hp & Hcol).
  specialize (Husers i Hi). rewrite <- Hc in Husers.
  destruct (in_contexts _ _ Husers) as [m Hm].
  exists m. split; [exact Hm|].
  rewrite (Hbuf c m Hm) in Hp, Hcol. cbn [laser_buffer_of lb_persistence
    lb_b lb_g lb_r lb_a] in Hp, Hcol.
  split; [exact Hp|]. rewrite Hcol. apply upixel8_roundtrip.
Qed.

(** X6: as long as the batch holds at most 255 unfiltered laser trails, every
    context one of them came from gets a [laser_trail] callback, and there
    are no more such callbacks than trails. *)
Theorem handle_inc_laser_trail_covers_contexts :
  forall (pe : Engine) count msgs,
    let trails :=
      of_type DP_MSG_LASER_TRAIL
        (unfiltered (acls pe) (firstn (Z.to_nat count) msgs)) in
    (length trails <= 255)%nat ->
    (forall m, In m trails ->
       exists p col,
         In (CbLaserTrail (uint8 (DP_message_context_id m)) p col)
            (snd (handle_inc_remote pe count msgs)))
    /\ (length (filter (fun cb => match cb with
                                  | CbLaserTrail _ _ _ => true
                                  | _ => false
                                  end)
                  (snd (handle_inc_remote pe count msgs)))
        <= length trails)%nat.
Proof.
  intros pe count msgs trails Hlen.
  destruct (handle_inc_meta pe count msgs)
    as (mb & Hcb & ((Hrange & _ & Hfull) & _) & _).
  fold trails in Hfull.
  unfold contexts in Hfull. rewrite length_map in Hfull.
  destruct (Hfull Hlen) as (Hcnt & _ & Hall & _). split.
  - intros m Hm.
    destruct (Hall (uint8 (DP_message_context_id m))) as (i & Hi & Hui).
    { apply in_map_iff. exists m. split; [reflexivity | exact Hm]. }
    do 2 eexists. rewrite Hcb. apply callbacks_laser_in.
    exists i. split; [exact Hi|]. split; [symmetry; exact Hui|].
    split; reflexivity.
  - rewrite Hcb. unfold handle_inc_callbacks. rewrite !filter_app, !length_app.
    assert (H1 : forall b f,
               length (filter (fun cb => match cb with
                                         | CbLaserTrail _ _ _ => true
                                         | _ => false
                                         end)
                         (if b : bool then [CbAclsChanged f] else [])) = 0%nat)
      by (intros [] f; reflexivity).
    assert (H2 : forall b l,
               length (filter (fun cb => match cb with
                                         | CbLaserTrail _ _ _ => true
                                         | _ => false
                                         end)
                         (if b : bool then [CbDefaultLayerSet l] else []))
               = 0%nat)
      by (intros [] l; reflexivity).
    rewrite H1, H2.
    assert (H3 : forall l,
               filter (fun cb => match cb with
                                 | CbLaserTrail _ _ _ => true
                                 | _ => false
                                 end)
                 (move_pointer_calls l) = []).
    { intros l. unfold move_pointer_calls.
      induction (loop_indices (cursor_count l)) as [|a r IH];
        [reflexivity | cbn; exact IH]. }
    rewrite H3. cbn [length].
    pose proof (filter_length_le
                  (fun cb => match cb with
                             | CbLaserTrail _ _ _ => true
                             | _ => false
                             end)
                  (laser_trail_calls (laser_changes mb))) as Hle.
    unfold laser_trail_calls in Hle at 2. rewrite length_map in Hle.
    unfold loop_indices in Hle. rewrite length_map, length_seq in Hle.
    lia.
Qed.

(** X7: every [move_pointer] callback of a remote [handle_inc] reports, for its
    context, the position of the latest unfiltered pointer move of the batch
    from that context. *)
Theorem handle_inc_move_pointer_reports_latest :
  forall (pe : Engine) count msgs c x y,
    In (CbMovePointer c x y) (snd (handle_inc_remote pe count msgs)) ->
    exists m,
      latest_of_context c
        (of_type DP_MSG_MOVE_POINTER
           (unfiltered (acls pe) (firstn (Z.to_nat count) msgs))) = Some m
      /\ x = DP_msg_move_pointer_x m
      /\ y = DP_msg_move_pointer_y m.
Proof.
  intros pe count msgs c x y Hin.
  destruct (handle_inc_meta pe count msgs)
    as (mb & Hcb & _ & ((_ & Husers & _) & Hbuf) & _).
  rewrite Hcb in Hin. apply callbacks_cursor_in in Hin.
  destruct Hin as (i & Hi & Hc & Hx & Hy).
  specialize (Husers i Hi). rewrite <- Hc in Husers.
  destruct (in_contexts _ _ Husers) as [m Hm].
  exists m. split; [exact Hm|].
  rewrite (Hbuf c m Hm) in Hx, Hy. split; assumption.
Qed.

(** X8: [default_layer_set] is fired at most once per remote [handle_inc], as
    the last callback, with the id of the last unfiltered default-layer
    message of the batch; without such a message it is not fired. *)
Theorem handle_inc_default_layer_last_wins :
  forall (pe : Engine) count msgs,
    let ids :=
      default_layer_ids
        (unfiltered (acls pe) (firstn (Z.to_nat count) msgs)) in
    exists before,
      snd (handle_inc_remote pe count msgs)
      = before ++ match ids with
                  | [] => []
                  | _ => [CbDefaultLayerSet (last ids 0)]
                  end
      /\ forall l, ~ In (CbDefaultLayerSet l) before.
Proof.
  intros pe count msgs ids.
  destruct (handle_inc_meta pe count msgs)
    as (mb & Hcb & _ & _ & Hhave & Hlast).
  fold ids in Hhave, Hlast.
  rewrite Hcb. unfold handle_inc_callbacks.
  exists ((if negb (Z.land (acl_change_flags mb) DP_ACL_STATE_CHANGE_MASK =? 0)
           then [CbAclsChanged
                   (Z.land (acl_change_flags mb) DP_ACL_STATE_CHANGE_MASK)]
           else [])
          ++ laser_trail_calls (laser_changes mb)
          ++ move_pointer_calls (cursor_changes mb)).
  split.
  - rewrite <- !app_assoc. do 3 f_equal. rewrite Hhave.
    destruct ids as [|i rest] eqn:E; [reflexivity|].
    cbn [negb]. rewrite Hlast by discriminate. reflexivity.
  - intros l Hin. rewrite !in_app_iff in Hin.
    destruct Hin as [H | [H | H]].
    + destruct (negb (Z.land _ _ =? 0));
        [destruct H as [H | []]; discriminate | destruct H].
    + unfold laser_trail_calls in H. apply in_map_iff in H.
      destruct H as (i & Heq & _). discriminate.
    + unfold move_pointer_calls in H. apply in_map_iff in H.
      destruct H as (i & Heq & _). discriminate.
Qed.

End IntakeMetaBatch.

Lemma handle_inc_laser_trail_reports_latest_witness :
  exists m,
    latest_of_context 3
      (of_type DP_MSG_LASER_TRAIL
         (acl_unfiltered acl_always_changed (acls sample_engine)
            (firstn (Z.to_nat 8) all_callbacks_batch))) = Some m
    /\ 4 = DP_msg_laser_trail_persistence m
    /\ 4278190080 = DP_msg_laser_trail_color m mod 2 ^ 32.
Proof.
  apply (handle_inc_laser_trail_reports_latest acl_always_changed 2
           sample_engine 8 all_callbacks_batch 3 4 4278190080).
  vm_compute. auto.
Defined.

Lemma handle_inc_laser_trail_covers_contexts_witness :
  let trails :=
    of_type DP_MSG_LASER_TRAIL
      (acl_unfiltered acl_always_changed (acls sample_engine)
         (firstn (Z.to_nat 8) all_callbacks_batch)) in
  (length trails <= 255)%nat
  /\ (forall m, In m trails ->
        exists p col,
          In (CbLaserTrail (uint8 (DP_message_context_id m)) p col)
             (snd (DP_paint_engine_handle_inc acl_always_changed 2
                     sample_engine false 8 all_callbacks_batch)))
  /\ (length (filter (fun cb => match cb with
                                | CbLaserTrail _ _ _ => true
                                | _ => false
                                end)
                (snd (DP_paint_engine_handle_inc acl_always_changed 2
                        sample_engine false 8 all_callbacks_batch)))
      <= length trails)%nat.
Proof.
  assert (Hlen : (length
                    (of_type DP_MSG_LASER_TRAIL
                       (acl_unfiltered acl_always_changed (acls sample_engine)
                          (firstn (Z.to_nat 8) all_callbacks_batch)))
                  <= 255)%nat) by (vm_compute; lia).
  split; [exact Hlen|].
  exact (handle_inc_laser_trail_covers_contexts acl_always_changed 2
           sample_engine 8 all_callbacks_batch Hlen).
Defined.

Lemma handle_inc_move_pointer_reports_latest_witness :
  exists m,
    latest_of_context 3
      (of_type DP_MSG_MOVE_POINTER
         (acl_unfiltered acl_always_changed (acls sample_engine)
            (firstn (Z.to_nat 8) all_callbacks_batch))) = Some m
    /\ 3 = DP_msg_move_pointer_x m
    /\ 4 = DP_msg_move_pointer_y m.
Proof.
  apply (handle_inc_move_pointer_reports_latest acl_always_changed 2
           sample_engine 8 all_callbacks_batch 3 3 4).
  vm_compute. repeat (try (left; reflexivity); right).
Defined.

Section PaintThreadRun.

Context {AclState CanvasState LayerPropsList : Type}.
Local Abbreviation Engine :=
  (@DP_PaintEngine AclState CanvasState LayerPropsList).

Lemma get_dabs_area_draw_dabs :
  forall msg type area,
    get_dabs_area msg type area <= MAX_MULTIDAB_AREA ->
    is_draw_dabs type = true.
Proof.
  intros msg type area H. unfold get_dabs_area in H. unfold is_draw_dabs.
  destruct (type =? DP_MSG_DRAW_DABS_CLASSIC); [reflexivity|].
  destruct (type =? DP_MSG_DRAW_DABS_PIXEL); [reflexivity|].
  destruct (type =? DP_MSG_DRAW_DABS_PIXEL_SQUARE); [reflexivity|].
  destruct (type =? DP_MSG_DRAW_DABS_MYPAINT); [reflexivity|].
  cbn [orb] in H. lia.
Qed.

Lemma shift_more_loop_draw_dabs :
  forall queue count total msgs q' c' m',
    shift_more_loop queue count total msgs = (q', c', m') ->
    exists taken,
      m' = msgs ++ taken
      /\ Forall (fun msg => is_draw_dabs (DP_message_type msg) = true) taken.
Proof.
  induction queue as [|msg rest IH]; intros count total msgs q' c' m' H;
    cbn [shift_more_loop] in H.
  - inversion H; subst. exists []. rewrite app_nil_r. auto.
  - destruct (count <? MAX_MULTIDAB_MESSAGES).
    + destruct (get_dabs_area msg (DP_message_type msg) total
                <=? MAX_MULTIDAB_AREA) eqn:Ha.
      * apply IH in H. destruct H as (taken & Hm & Hall).
        exists (msg :: taken). rewrite <- app_assoc in Hm.
        split; [exact Hm|]. constructor; [|exact Hall].
        apply Z.leb_le in Ha. exact (get_dabs_area_draw_dabs _ _ _ Ha).
      * inversion H; subst. exists []. rewrite app_nil_r. auto.
    + inversion H; subst. exists []. rewrite app_nil_r. auto.
Qed.

(** A batch of more than one message holds draw-dabs messages only. *)
Lemma handle_message_shift_draw_dabs :
  forall (pe : Engine) local count msgs pe1,
    handle_message_shift pe = Some (local, count, msgs, pe1) ->
    count <> 1 ->
    Forall (fun msg => is_draw_dabs (DP_message_type msg) = true) msgs.
Proof.
  intros pe local count msgs pe1 H Hcount.
  unfold handle_message_shift in H.
  destruct (shift_first_message pe) as [[l [first|]] pe0]; [|discriminate].
  unfold maybe_shift_more_messages in H.
  destruct (get_dabs_area first (DP_message_type first) 0
            <=? MAX_MULTIDAB_AREA_THRESHOLD) eqn:Hfirst.
  - unfold shift_more_draw_dabs_messages in H.
    destruct (shift_more_loop (queue_of pe0 l) 1
                (get_dabs_area first (DP_message_type first) 0) [first])
      as [[q' c'] m'] eqn:Hl.
    apply shift_more_loop_draw_dabs in Hl. destruct Hl as (taken & Hm & Hall).
    inversion H; subst. cbn [app]. constructor; [|exact Hall].
    apply Z.leb_le in Hfirst.
    apply (get_dabs_area_draw_dabs first _ 0).
    unfold MAX_MULTIDAB_AREA_THRESHOLD in Hfirst.
    assert (Z.quot MAX_MULTIDAB_AREA 2 <= MAX_MULTIDAB_AREA)
      by (vm_compute; discriminate).
    lia.
  - inversion H; subst. contradiction Hcount. reflexivity.
Qed.

(** Outside the queues, the locked part of [handle_message] only takes
    from the semaphore what it shifted beyond the first message. *)
Lemma handle_message_shift_frame :
  forall (pe : Engine) local count msgs pe1,
    handle_message_shift pe = Some (local, count, msgs, pe1) ->
    queue_sem pe1 = queue_sem pe - (count - 1)
    /\ running pe1 = running pe
    /\ preview pe1 = preview pe
    /\ next_preview pe1 = next_preview pe.
Proof.
  intros pe local count msgs pe1 H.
  unfold handle_message_shift, shift_first_message in H.
  assert (Hmore : forall (pe0 : Engine) l first,
             maybe_shift_more_messages pe0 l (DP_message_type first) first
               = (count, msgs, pe1) ->
             queue_sem pe1 = queue_sem pe0 - (count - 1)
             /\ running pe1 = running pe0
             /\ preview pe1 = preview pe0
             /\ next_preview pe1 = next_preview pe0).
  { intros pe0 l first Hm. unfold maybe_shift_more_messages in Hm.
    destruct (get_dabs_area first (DP_message_type first) 0
              <=? MAX_MULTIDAB_AREA_THRESHOLD).
    - unfold shift_more_draw_dabs_messages in Hm.
      destruct (shift_more_loop (queue_of pe0 l) 1
                  (get_dabs_area first (DP_message_type first) 0) [first])
        as [[q' c'] m'] eqn:Hl.
      apply shift_more_loop_spec in Hl.
      destruct Hl as (taken & _ & _ & Hc' & _).
      inversion Hm; subst count msgs pe1; clear Hm.
      destruct (1 <? c') eqn:E; destruct l; cbn; repeat split; try reflexivity;
        apply Z.ltb_ge in E; lia.
    - inversion Hm; subst. repeat split; try reflexivity. lia. }
  destruct (local_queue pe) as [|m0 lrest]; cbn in H.
  - destruct (remote_queue pe) as [|r0 rrest]; cbn in H; [discriminate|].
    destruct (maybe_shift_more_messages (with_remote_queue pe rrest) false
                (DP_message_type r0) r0) as [[c m] p] eqn:Hm.
    inversion H; subst local c m p; clear H.
    apply Hmore in Hm. exact Hm.
  - destruct (maybe_shift_more_messages (with_local_queue pe lrest) true
                (DP_message_type m0) m0) as [[c m] p] eqn:Hm.
    inversion H; subst local c m p; clear H.
    apply Hmore in Hm. exact Hm.
Qed.

Lemma handed_off_app :
  forall a b, handed_off (a ++ b) = handed_off a ++ handed_off b.
Proof. intros. unfold handed_off. apply flat_map_app. Qed.

Lemma free_preview_handed_off : forall p, handed_off (free_preview p) = [].
Proof. destruct p; reflexivity. Qed.

Lemma handle_single_message_frame :
  forall (pe : Engine) local type msg,
    let r := handle_single_message pe local type msg in
    queue_sem (fst r) = queue_sem pe
    /\ running (fst r) = running pe
    /\ handed_off (snd r) = [msg].
Proof.
  intros pe local type msg. unfold handle_single_message.
  destruct (type =? DP_MSG_INTERNAL).
  - destruct (DP_message_body msg) as [mi| | | | | | | |];
      try (cbn; repeat split; reflexivity).
    destruct mi; try (cbn; repeat split; reflexivity).
    cbn [handle_internal fst snd]. rewrite handed_off_app.
    rewrite free_preview_handed_off. repeat split; reflexivity.
  - destruct local; cbn; repeat split; reflexivity.
Qed.

(** One [handle_message]: it succeeds exactly when a queue holds a message,
    hands off a non-empty prefix of the queue it served, local first, and
    takes from the semaphore all but one of what it shifted. *)
Lemma handle_message_round :
  forall (pe : Engine),
    local_queue pe ++ remote_queue pe <> [] ->
    exists pe' effects,
      handle_message pe = Some (pe', effects)
      /\ handed_off effects <> []
      /\ local_queue pe ++ remote_queue pe
         = handed_off effects ++ local_queue pe' ++ remote_queue pe'
      /\ queue_sem pe'
         = queue_sem pe - (Z.of_nat (length (handed_off effects)) - 1)
      /\ running pe' = running pe.
Proof.
  intros pe Hne.
  destruct (handle_message_shift pe) as [[[[local count] msgs] pe1]|] eqn:Hs.
  - pose proof (handle_message_shift_spec _ _ _ _ _ Hs)
      as (Hmne & Hq & Hother & Hcnt & Hrange & Hloc).
    pose proof (handle_message_shift_frame _ _ _ _ _ Hs)
      as (Hsem & Hrun & _ & _).
    assert (Hqueues : local_queue pe ++ remote_queue pe
                      = msgs ++ local_queue pe1 ++ remote_queue pe1).
    { destruct local; cbn [queue_of negb] in Hq, Hother.
      - rewrite Hq, Hother, <- app_assoc. reflexivity.
      - rewrite (Hloc eq_refl) in *. rewrite Hother, Hq. reflexivity. }
    unfold handle_message. rewrite Hs.
    destruct (count =? 1) eqn:E.
    + apply Z.eqb_eq in E. rewrite E in Hcnt, Hsem. clear E.
      destruct msgs as [|first [|second more]]; cbn [length] in Hcnt;
        [contradiction Hmne; reflexivity | | lia].
      pose proof (handle_single_message_frame pe1 true
                    (DP_message_type first) first) as Ft.
      pose proof (handle_single_message_frame pe1 false
                    (DP_message_type first) first) as Ff.
      pose proof (handle_single_message_queues pe1 local
                    (DP_message_type first) first) as [Hl Hr].
      cbv zeta in Ft, Ff.
      assert (F : queue_sem (fst (handle_single_message pe1 local
                                    (DP_message_type first) first))
                  = queue_sem pe1
                  /\ running (fst (handle_single_message pe1 local
                                     (DP_message_type first) first))
                     = running pe1
                  /\ handed_off (snd (handle_single_message pe1 local
                                        (DP_message_type first) first))
                     = [first]) by (destruct local; assumption).
      destruct F as (Fs & Fr & Fh).
      destruct (handle_single_message pe1 local (DP_message_type first) first)
        as [pe2 effects].
      cbn [fst snd] in *. exists pe2, effects.
      split; [reflexivity|]. rewrite Fh, Hl, Hr, Fs, Fr, Hsem, Hrun.
      cbn [length]. repeat split; try assumption; try discriminate; lia.
    + exists pe1, (handle_multidab local count msgs).
      split; [reflexivity|].
      assert (Hh : handed_off (handle_multidab local count msgs) = msgs).
      { destruct local; cbn; apply app_nil_r. }
      rewrite Hh. repeat split; try assumption. rewrite Hsem, Hcnt. lia.
  - exfalso. unfold handle_message_shift, shift_first_message in Hs.
    destruct (local_queue pe) as [|m0 rest]; cbn in Hs.
    + destruct (remote_queue pe) as [|r0 rrest]; cbn in Hs;
        [apply Hne; reflexivity|].
      destruct (maybe_shift_more_messages (with_remote_queue pe rrest) false
                  (DP_message_type r0) r0) as [[? ?] ?]. discriminate.
    + destruct (maybe_shift_more_messages (with_local_queue pe rest) true
                  (DP_message_type m0) m0) as [[? ?] ?]. discriminate.
Qed.

(** X10: what [handle_message] passes to the history's multidab entry points is
    always a batch of two or more draw-dabs messages, at most
    [MAX_MULTIDAB_MESSAGES] of them, with [count] their number.  Internal
    messages, and every other kind, are handled one at a time. *)
Theorem multidab_handler_gets_only_draw_dabs :
  forall (pe pe' : Engine) effects count msgs,
    handle_message pe = Some (pe', effects) ->
    In (EHistoryHandleMultidabDec count msgs) effects
    \/ In (EHistoryHandleLocalMultidabDec count msgs) effects ->
    2 <= count <= MAX_MULTIDAB_MESSAGES
    /\ count = Z.of_nat (length msgs)
    /\ Forall (fun msg => is_draw_dabs (DP_message_type msg) = true) msgs.
Proof.
  intros pe pe' effects count msgs Hm Hin.
  unfold handle_message in Hm.
  destruct (handle_message_shift pe) as [[[[local c] batch] pe1]|] eqn:Hs;
    [|discriminate].
  pose proof (handle_message_shift_spec _ _ _ _ _ Hs)
    as (_ & _ & _ & Hcnt & Hrange & _).
  destruct (c =? 1) eqn:E.
  - exfalso. destruct batch as [|first more]; [discriminate|].
    inversion Hm as [Heq]. clear Hm.
    unfold handle_single_message in Heq.
    assert (Hno : forall (q : Engine) effs,
               (forall k ms, ~ In (EHistoryHandleMultidabDec k ms) effs
                             /\ ~ In (EHistoryHandleLocalMultidabDec k ms)
                                  effs) ->
               (q, effs ++ [EMessageDecref first]) = (pe', effects) ->
               False).
    { intros q effs Hfree Hpair. inversion Hpair; subst.
      destruct (Hfree count msgs) as [H1 H2].
      destruct Hin as [Hin | Hin]; apply in_app_or in Hin;
        destruct Hin as [Hin | [Hin | []]]; try discriminate; auto. }
    destruct (DP_message_type first =? DP_MSG_INTERNAL).
    + destruct (DP_message_body first) as [mi| | | | | | | |];
        try (apply (Hno pe1 []); [intros; split; intros [] | exact Heq]).
      destruct mi; cbn [handle_internal] in Heq;
        try (eapply Hno; [|exact Heq]; intros k ms; split;
             intros [H | []]; discriminate).
      * eapply Hno; [|exact Heq]. intros k ms; split; intros [].
      * eapply Hno; [|exact Heq]. intros k ms.
        destruct (next_preview pe1); cbn; split; intros H;
          try destruct H as [H | []]; try discriminate; auto.
    + destruct local; (eapply Hno; [|exact Heq]); intros k ms; split;
        intros [H | []]; discriminate.
  - inversion Hm; subst pe' effects. clear Hm.
    apply Z.eqb_neq in E.
    assert (Heq : count = c /\ msgs = batch).
    { destruct local; cbn in Hin;
        destruct Hin as [[H | []] | [H | []]]; inversion H; auto. }
    destruct Heq as [-> ->].
    split; [lia|]. split; [exact Hcnt|].
    exact (handle_message_shift_draw_dabs _ _ _ _ _ Hs E).
Qed.

(** X11: left alone with a running engine whose semaphore counts the queued
    messages, the paint thread goes to sleep only after it has emptied both
    queues: every queued message is handed off exactly once, the local
    queue's messages first, each queue in order, and the thread never finds
    both queues empty after a wake-up. *)
Theorem paint_thread_drains_queues :
  forall rounds (pe : Engine),
    queues_accounted pe ->
    running pe = true ->
    (length (local_queue pe) + length (remote_queue pe) < rounds)%nat ->
    exists pe' effects,
      run_paint_engine rounds pe = (PaintWaiting, pe', effects)
      /\ local_queue pe' = []
      /\ remote_queue pe' = []
      /\ queue_sem pe' = 0
      /\ handed_off effects = local_queue pe ++ remote_queue pe.
Proof.
  induction rounds as [|rounds IH]; intros pe Hacc Hrun Hlt; [lia|].
  unfold queues_accounted in Hacc. cbn [run_paint_engine].
  destruct (queue_sem pe <=? 0) eqn:Hsem.
  - apply Z.leb_le in Hsem.
    assert (Hl : local_queue pe = []).
    { destruct (local_queue pe) eqn:El; [reflexivity|].
      cbn [length] in Hacc. lia. }
    assert (Hr : remote_queue pe = []).
    { destruct (remote_queue pe) eqn:Er; [reflexivity|].
      cbn [length] in Hacc. lia. }
    exists pe, []. rewrite Hl, Hr in *. cbn [length] in Hacc.
    repeat split; auto.
  - apply Z.leb_gt in Hsem.
    cbn [running with_queue_sem]. rewrite Hrun.
    assert (Hne : local_queue (with_queue_sem pe (queue_sem pe - 1))
                  ++ remote_queue (with_queue_sem pe (queue_sem pe - 1))
                  <> []).
    { cbn [local_queue remote_queue with_queue_sem]. intros Hnil.
      apply app_eq_nil in Hnil. destruct Hnil as [Hl Hr].
      rewrite Hl, Hr in Hacc. cbn in Hacc. lia. }
    destruct (handle_message_round _ Hne)
      as (pe1 & effects & Hm & Hoff & Hq & Hs & Hr).
    rewrite Hm.
    cbn [local_queue remote_queue with_queue_sem queue_sem running]
      in Hq, Hs, Hr.
    assert (Hlen : (length (local_queue pe) + length (remote_queue pe)
                    = length (handed_off effects)
                      + (length (local_queue pe1)
                         + length (remote_queue pe1)))%nat).
    { rewrite <- !length_app. rewrite Hq. reflexivity. }
    assert (Hpos : (1 <= length (handed_off effects))%nat).
    { destruct (handed_off effects); [contradiction Hoff; reflexivity|].
      cbn. lia. }
    destruct (IH pe1) as (pe2 & later & Hrest & Hl2 & Hr2 & Hs2 & Hoff2).
    + unfold queues_accounted. lia.
    + congruence.
    + lia.
    + rewrite Hrest. exists pe2, (effects ++ later).
      split; [reflexivity|]. repeat split; try assumption.
      rewrite handed_off_app, Hoff2, Hq. reflexivity.
Qed.

(** X13: once teardown has cleared [running] and posted the semaphore, the paint
    thread's next turn leaves the loop without handling a message, whatever
    is still waiting: the queues and both previews are as they were, left
    for the rest of [free_join] to release. *)
Theorem paint_thread_exits_on_stop :
  forall rounds (pe : Engine),
    0 <= queue_sem pe ->
    exists pe',
      run_paint_engine (S rounds) (free_join_stop pe) = (PaintExited, pe', [])
      /\ local_queue pe' = local_queue pe
      /\ remote_queue pe' = remote_queue pe
      /\ next_preview pe' = next_preview pe
      /\ preview pe' = preview pe
      /\ queue_sem pe' = queue_sem pe.
Proof.
  intros rounds pe Hsem. cbn [run_paint_engine].
  unfold free_join_stop. cbn [queue_sem with_queue_sem with_running running].
  destruct (queue_sem pe + 1 <=? 0) eqn:E; [apply Z.leb_le in E; lia|].
  eexists. split; [reflexivity|].
  cbn [local_queue remote_queue next_preview preview queue_sem
       with_queue_sem with_running].
  repeat split; try reflexivity; lia.
Qed.

End PaintThreadRun.

Section QueueAccounting.

Context {AclState CanvasState LayerPropsList : Type}.
Variable DP_acl_state_handle : AclState -> DP_Message -> AclState * Z.
Variable DP_ACL_STATE_CHANGE_MASK : Z.
Variable api : @CanvasApi CanvasState LayerPropsList.
Local Abbreviation Engine :=
  (@DP_PaintEngine AclState CanvasState LayerPropsList).

Lemma sync_preview_accounted :
  forall (pe : Engine) p,
    queues_accounted pe -> queues_accounted (sync_preview pe p).
Proof.
  intros pe p H. unfold queues_accounted in *. unfold sync_preview.
  cbn [queue_sem local_queue remote_queue with_queue_sem with_local_queue].
  rewrite length_app. cbn [length]. lia.
Qed.

Lemma handle_inc_accounted :
  forall (pe : Engine) local count msgs,
    queues_accounted pe ->
    queues_accounted
      (snd (fst (DP_paint_engine_handle_inc DP_acl_state_handle
                   DP_ACL_STATE_CHANGE_MASK pe local count msgs))).
Proof.
  intros pe local count msgs H. unfold queues_accounted in *.
  unfold DP_paint_engine_handle_inc. destruct local.
  - pose proof (handle_inc_scan_local (firstn (Z.to_nat count) msgs)
                  (with_meta_buffer pe (reset_meta_buffer (meta_buffer pe))))
      as (_ & H2 & H3 & H4 & _).
    destruct (handle_inc_scan _ _ true (firstn (Z.to_nat count) msgs))
      as [pushed pe1].
    cbn [fst snd local_queue remote_queue queue_sem with_meta_buffer] in *.
    rewrite H2, H3, H4, length_app. lia.
  - pose proof (handle_inc_scan_fields
                  (should_push_message_remote DP_acl_state_handle) false
                  (firstn (Z.to_nat count) msgs)
                  (with_meta_buffer pe (reset_meta_buffer (meta_buffer pe))))
      as (_ & _ & H3 & H4 & H5 & _).
    pose proof (remote_fold_frame DP_acl_state_handle
                  (firstn (Z.to_nat count) msgs) 0
                  (with_meta_buffer pe (reset_meta_buffer (meta_buffer pe))))
      as (F1 & F2 & F3 & F4 & _).
    destruct (handle_inc_scan _ _ false (firstn (Z.to_nat count) msgs))
      as [pushed pe1].
    cbn [fst snd] in *.
    cbn [acls with_meta_buffer remote_queue local_queue queue_sem]
      in F1, F2, F3, F4.
    rewrite H3, H4, H5, F1, F2, F3, F4, length_app. lia.
Qed.

Lemma run_paint_engine_accounted :
  forall rounds (pe : Engine),
    queues_accounted pe ->
    running pe = true ->
    fst (fst (run_paint_engine rounds pe)) <> PaintNullMessage
    /\ fst (fst (run_paint_engine rounds pe)) <> PaintExited
    /\ queues_accounted (snd (fst (run_paint_engine rounds pe))).
Proof.
  induction rounds as [|rounds IH]; intros pe Hacc Hrun;
    cbn [run_paint_engine].
  - cbn. repeat split; [discriminate | discriminate | exact Hacc].
  - destruct (queue_sem pe <=? 0) eqn:Hsem.
    + cbn. repeat split; [discriminate | discriminate | exact Hacc].
    + apply Z.leb_gt in Hsem. cbn [running with_queue_sem]. rewrite Hrun.
      unfold queues_accounted in Hacc.
      assert (Hne : local_queue (with_queue_sem pe (queue_sem pe - 1))
                    ++ remote_queue (with_queue_sem pe (queue_sem pe - 1))
                    <> []).
      { cbn [local_queue remote_queue with_queue_sem]. intros Hnil.
        apply app_eq_nil in Hnil. destruct Hnil as [Hl Hr].
        rewrite Hl, Hr in Hacc. cbn in Hacc. lia. }
      destruct (handle_message_round _ Hne)
        as (pe1 & effects & Hm & Hoff & Hq & Hs & Hr).
      rewrite Hm.
      cbn [local_queue remote_queue with_queue_sem queue_sem running]
        in Hq, Hs, Hr.
      assert (Hlen : (length (local_queue pe) + length (remote_queue pe)
                      = length (handed_off effects)
                        + (length (local_queue pe1)
                           + length (remote_queue pe1)))%nat).
      { rewrite <- !length_app. rewrite Hq. reflexivity. }
      destruct (IH pe1) as (I1 & I2 & I3).
      * unfold queues_accounted. lia.
      * congruence.
      * destruct (run_paint_engine rounds pe1) as [[status pe2] later].
        cbn [fst snd] in *. auto.
Qed.

(** X12: the semaphore counts the queued messages: every producer
    ([handle_inc] in either mode, the three preview calls) and every run of
    the paint thread on a running engine keeps it so.  A paint thread woken
    under this invariant always finds a message: it never reads
    [msgs[0] == NULL]. *)
Theorem queue_semaphore_counts_messages :
  forall (pe : Engine),
    queues_accounted pe ->
    (forall local count msgs,
       queues_accounted
         (snd (fst (DP_paint_engine_handle_inc DP_acl_state_handle
                      DP_ACL_STATE_CHANGE_MASK pe local count msgs))))
    /\ (forall layer_id x y width height mask,
          queues_accounted
            (DP_paint_engine_preview_cut api pe layer_id x y width height
               mask))
    /\ (forall layer_id count msgs,
          queues_accounted
            (fst (DP_paint_engine_preview_dabs_inc api pe layer_id count
                    msgs)))
    /\ queues_accounted (DP_paint_engine_preview_clear pe)
    /\ (running pe = true ->
        forall rounds,
          fst (fst (run_paint_engine rounds pe)) <> PaintNullMessage
          /\ queues_accounted (snd (fst (run_paint_engine rounds pe)))).
Proof.
  intros pe Hacc. split; [|split; [|split; [|split]]].
  - intros local count msgs. apply handle_inc_accounted. exact Hacc.
  - intros. unfold DP_paint_engine_preview_cut.
    apply sync_preview_accounted. exact Hacc.
  - intros layer_id count msgs. unfold DP_paint_engine_preview_dabs_inc.
    destruct (0 <? count); cbn [fst];
      [apply sync_preview_accounted|]; exact Hacc.
  - apply sync_preview_accounted. exact Hacc.
  - intros Hrun rounds.
    destruct (run_paint_engine_accounted rounds pe Hacc Hrun)
      as (H1 & _ & H3).
    split; assumption.
Qed.

Lemma queued_previews_app :
  forall a b, queued_previews (a ++ b) = queued_previews a ++ queued_previews b.
Proof. intros. unfold queued_previews. apply flat_map_app. Qed.

Lemma queued_previews_draw_dabs :
  forall msgs,
    Forall (fun msg => is_draw_dabs (DP_message_type msg) = true) msgs ->
    queued_previews msgs = [].
Proof.
  induction 1 as [|msg rest Hd _ IH]; [reflexivity|].
  cbn [queued_previews flat_map]. fold (queued_previews rest). rewrite IH.
  unfold DP_message_type in Hd.
  destruct (DP_message_body msg) as [mi| | | | | | | |]; try reflexivity.
  discriminate.
Qed.

(** Only the local view moves in [apply_local_layer_props]. *)
Lemma apply_local_layer_props_only_view :
  forall (pe : Engine) cs,
    exists lv,
      fst (apply_local_layer_props api pe cs) = with_local_view pe lv.
Proof.
  intros pe cs. unfold apply_local_layer_props.
  assert (Hset : forall lv0,
             exists lv,
               fst (set_local_layer_props api (with_local_view pe lv0) cs)
               = with_local_view pe lv).
  { intros lv0. unfold set_local_layer_props.
    match goal with
    | |- context [match hidden_layers ?lv with _ => _ end] =>
        destruct (hidden_layers lv)
    end.
    - eexists. cbn [fst]. reflexivity.
    - unfold set_hidden_layer_props.
      match goal with
      | |- context [set_hidden_layer_props_loop api ?n ?l ?i ?t] =>
          destruct (set_hidden_layer_props_loop api n l i t)
      end.
      eexists. cbn [fst]. reflexivity. }
  assert (Hself : exists lv, pe = with_local_view pe lv)
    by (exists (local_view pe); destruct pe; reflexivity).
  destruct (prev_lpl (local_view pe)) as [prev|].
  - destruct (lpl_eqb api (DP_canvas_state_layer_props_noinc api cs) prev).
    + destruct (_ && _); cbn [fst]; exact Hself.
    + apply Hset.
  - apply Hset.
Qed.

(** X14: handling a message neither loses a preview nor disposes one twice:
    the previews the engine holds (installed, pending, or queued for
    install) are, after a [handle_message], the same ones less exactly
    those it disposed of. *)
Theorem handle_message_conserves_previews :
  forall (pe pe' : Engine) effects,
    handle_message pe = Some (pe', effects) ->
    Permutation (held_previews pe) (disposals effects ++ held_previews pe').
Proof.
  intros pe pe' effects Hm. unfold handle_message in Hm.
  destruct (handle_message_shift pe) as [[[[local count] msgs] pe1]|] eqn:Hs;
    [|discriminate].
  pose proof (handle_message_shift_spec _ _ _ _ _ Hs)
    as (Hmne & Hq & Hother & Hcnt & Hrange & Hloc).
  pose proof (handle_message_shift_frame _ _ _ _ _ Hs)
    as (_ & _ & Hp & Hn).
  assert (Hheld : Permutation (held_previews pe)
                    (preview_object (preview pe1)
                     ++ preview_object (next_preview pe1)
                     ++ queued_previews msgs
                     ++ queued_previews (local_queue pe1)
                     ++ queued_previews (remote_queue pe1))).
  { unfold held_previews. rewrite Hp, Hn.
    destruct local; cbn [queue_of negb] in Hq, Hother.
    - rewrite Hq, Hother, queued_previews_app, <- !app_assoc. reflexivity.
    - rewrite <- Hother, Hq, queued_previews_app.
      apply Permutation_app_head. apply Permutation_app_head.
      rewrite !app_assoc. apply Permutation_app_tail.
      apply Permutation_app_comm. }
  destruct (count =? 1) eqn:E.
  - apply Z.eqb_eq in E. rewrite E in Hcnt. clear E.
    destruct msgs as [|first [|second more]]; cbn [length] in Hcnt;
      [discriminate | | lia].
    inversion Hm as [Heq]. clear Hm. rewrite Hheld. clear Hheld.
    unfold handle_single_message in Heq.
    unfold held_previews.
    cbn [queued_previews flat_map]. rewrite app_nil_r.
    unfold DP_message_type in Heq.
    destruct (DP_message_body first) as [mi| | | | | | | |] eqn:Hbody;
      cbn [Z.eqb DP_MSG_INTERNAL] in Heq;
      try (change (31 =? 31) with true in Heq; cbn iota in Heq);
      try (destruct local; inversion Heq; subst; cbn; reflexivity);
      try (destruct (_ =? _); [|destruct local]; inversion Heq; subst; cbn;
           reflexivity).
    destruct mi; cbn [handle_internal] in Heq; inversion Heq; subst;
      try (cbn; reflexivity).
    rewrite disposals_app, free_preview_disposals.
    cbn [next_preview with_next_preview preview local_queue remote_queue
         disposals flat_map app].
    rewrite app_nil_r.
    rewrite !app_assoc. do 3 apply Permutation_app_tail.
    apply Permutation_app_comm.
  - inversion Hm; subst pe' effects. clear Hm. apply Z.eqb_neq in E.
    rewrite Hheld.
    rewrite (queued_previews_draw_dabs msgs
               (handle_message_shift_draw_dabs _ _ _ _ _ Hs E)).
    destruct local; cbn; reflexivity.
Qed.

(** What [tick] does with the pending preview. *)
Lemma tick_preview_swap :
  forall (pe : Engine) compare_and_get,
    let r := DP_paint_engine_tick api pe compare_and_get in
    next_preview (fst (fst r)) = PreviewNULL
    /\ local_queue (fst (fst r)) = local_queue pe
    /\ remote_queue (fst (fst r)) = remote_queue pe
    /\ preview (fst (fst r))
       = match next_preview pe with
         | PreviewNULL => preview pe
         | PreviewSentinel => PreviewNULL
         | PreviewAt p => PreviewAt p
         end
    /\ snd r
       = match next_preview pe with
         | PreviewNULL => []
         | _ => free_preview (preview pe)
         end.
Proof.
  intros pe compare_and_get. cbv zeta. unfold DP_paint_engine_tick.
  cbn [history_cs with_catchup].
  destruct (compare_and_get (history_cs pe)) as [next_history_cs ucb].
  set (pe0 := match next_history_cs with
              | Some cs => with_history_cs (with_catchup pe (-1)) cs
              | None => with_catchup pe (-1)
              end).
  assert (H0 : preview pe0 = preview pe
               /\ next_preview pe0 = next_preview pe
               /\ local_queue pe0 = local_queue pe
               /\ remote_queue pe0 = remote_queue pe)
    by (unfold pe0; destruct next_history_cs; repeat split; reflexivity).
  destruct H0 as (Hp & Hn & Hl & Hr). rewrite Hn.
  assert (Hend : forall (q : Engine) (calls : list TickCallback)
                        (effects : list Effect) have,
             let r :=
               if have : bool
               then
                 let '(q1, next_view_cs) :=
                   apply_local_layer_props api q
                     (apply_inspect api q
                        (apply_preview api q (history_cs q))) in
                 (with_view_cs q1 next_view_cs,
                  calls ++ emit_changes api (view_cs q) next_view_cs ucb,
                  effects)
               else (q, calls, effects) in
             next_preview (fst (fst r)) = next_preview q
             /\ local_queue (fst (fst r)) = local_queue q
             /\ remote_queue (fst (fst r)) = remote_queue q
             /\ preview (fst (fst r)) = preview q
             /\ snd r = effects).
  { intros q calls effects have. cbv zeta. destruct have;
      [|repeat split; reflexivity].
    destruct (apply_local_layer_props_only_view q
                (apply_inspect api q (apply_preview api q (history_cs q))))
      as [lv Hlv].
    destruct (apply_local_layer_props api q _) as [q1 next_view_cs].
    cbn [fst snd] in *. subst q1. repeat split; reflexivity. }
  destruct (next_preview pe) as [| |p];
    match goal with
    | |- context [if ?have then _ else (?q, ?calls, ?effects)] =>
        destruct (Hend q calls effects have) as (E1 & E2 & E3 & E4 & E5)
    end;
    cbv zeta in E1, E2, E3, E4, E5; rewrite E1, E2, E3, E4, E5;
    cbn [next_preview preview local_queue remote_queue with_next_preview
         with_preview];
    rewrite ?Hp, ?Hl, ?Hr; repeat split; reflexivity.
Qed.

(** X15: [tick] neither loses a preview nor disposes one twice either: it
    disposes of the installed preview exactly when a pending one (or the
    clear sentinel) takes its place, and of nothing else. *)
Theorem tick_conserves_previews :
  forall (pe : Engine) compare_and_get,
    let r := DP_paint_engine_tick api pe compare_and_get in
    Permutation (held_previews pe)
      (disposals (snd r) ++ held_previews (fst (fst r)))
    /\ disposals (snd r)
       = match next_preview pe with
         | PreviewNULL => []
         | _ => preview_object (preview pe)
         end.
Proof.
  intros pe compare_and_get. cbv zeta.
  destruct (tick_preview_swap pe compare_and_get)
    as (Hn & Hl & Hr & Hp & He).
  cbv zeta in Hn, Hl, Hr, Hp, He.
  unfold held_previews. rewrite Hn, Hl, Hr, Hp, He.
  destruct (next_preview pe) as [| |p]; cbn [disposals flat_map app];
    rewrite ?free_preview_disposals; cbn [preview_object app].
  - split; reflexivity.
  - split; reflexivity.
  - split; reflexivity.
Qed.

End QueueAccounting.

Lemma multidab_handler_gets_only_draw_dabs_witness :
  handle_message overshoot_engine
  = Some (with_queue_sem (with_remote_queue overshoot_engine []) 0,
          [EHistoryHandleMultidabDec 3 overshoot_queue])
  /\ 2 <= 3 <= MAX_MULTIDAB_MESSAGES
  /\ 3 = Z.of_nat (length overshoot_queue)
  /\ Forall (fun msg => is_draw_dabs (DP_message_type msg) = true)
       overshoot_queue.
Proof.
  assert (H : handle_message overshoot_engine
              = Some (with_queue_sem (with_remote_queue overshoot_engine []) 0,
                      [EHistoryHandleMultidabDec 3 overshoot_queue]))
    by (vm_compute; reflexivity).
  split; [exact H|].
  apply (multidab_handler_gets_only_draw_dabs overshoot_engine _ _ 3
           overshoot_queue H).
  left. left. reflexivity.
Defined.

Lemma paint_thread_drains_queues_witness :
  queues_accounted waiting_engine
  /\ running waiting_engine = true
  /\ exists pe' effects,
       run_paint_engine 5 waiting_engine = (PaintWaiting, pe', effects)
       /\ local_queue pe' = []
       /\ remote_queue pe' = []
       /\ queue_sem pe' = 0
       /\ handed_off effects
          = local_queue waiting_engine ++ remote_queue waiting_engine.
Proof.
  assert (Hacc : queues_accounted waiting_engine) by reflexivity.
  split; [exact Hacc|]. split; [reflexivity|].
  apply (paint_thread_drains_queues 5 waiting_engine Hacc eq_refl).
  cbn. lia.
Defined.

Lemma paint_thread_exits_on_stop_witness :
  0 <= queue_sem waiting_engine
  /\ exists pe',
       run_paint_engine 1 (free_join_stop waiting_engine)
       = (PaintExited, pe', [])
       /\ local_queue pe' = local_queue waiting_engine
       /\ remote_queue pe' = remote_queue waiting_engine
       /\ next_preview pe' = next_preview waiting_engine
       /\ preview pe' = preview waiting_engine
       /\ queue_sem pe' = queue_sem waiting_engine.
Proof.
  assert (Hsem : 0 <= queue_sem waiting_engine) by (cbn; lia).
  split; [exact Hsem|].
  exact (paint_thread_exits_on_stop 0 waiting_engine Hsem).
Defined.

Lemma queue_semaphore_counts_messages_witness :
  queues_accounted waiting_engine
  /\ (forall local count msgs,
        queues_accounted
          (snd (fst (DP_paint_engine_handle_inc acl_always_changed 2
                       waiting_engine local count msgs))))
  /\ (forall layer_id x y width height mask,
        queues_accounted
          (DP_paint_engine_preview_cut sample_api waiting_engine layer_id
             x y width height mask))
  /\ (forall layer_id count msgs,
        queues_accounted
          (fst (DP_paint_engine_preview_dabs_inc sample_api waiting_engine
                  layer_id count msgs)))
  /\ queues_accounted (DP_paint_engine_preview_clear waiting_engine)
  /\ (running waiting_engine = true ->
      forall rounds,
        fst (fst (run_paint_engine rounds waiting_engine))
        <> PaintNullMessage
        /\ queues_accounted
             (snd (fst (run_paint_engine rounds waiting_engine)))).
Proof.
  assert (Hacc : queues_accounted waiting_engine) by reflexivity.
  split; [exact Hacc|].
  exact (queue_semaphore_counts_messages acl_always_changed 2 sample_api
           waiting_engine Hacc).
Defined.

Lemma handle_message_conserves_previews_witness :
  exists pe' effects,
    handle_message waiting_engine = Some (pe', effects)
    /\ disposals effects = [CutPreview 0 0 2 0 0 8 8 None]
    /\ Permutation (held_previews waiting_engine)
         (disposals effects ++ held_previews pe').
Proof.
  eexists _, _. split; [reflexivity|]. split; [reflexivity|].
  apply (@handle_message_conserves_previews unit Z Z waiting_engine).
  reflexivity.
Defined.

Section PreviewPipeline.

Context {AclState CanvasState LayerPropsList : Type}.
Variable api : @CanvasApi CanvasState LayerPropsList.
Local Abbreviation Engine :=
  (@DP_PaintEngine AclState CanvasState LayerPropsList).

(** X16: from a preview call to the view: on an idle, running engine, the
    message that [sync_preview] queues is the paint thread's whole next
    run, which parks the preview in [next_preview] and releases the message;
    the following [tick] installs it (or clears the installed one, for the
    sentinel of [preview_clear]) and disposes of the preview it replaces,
    once. *)
Theorem preview_reaches_view_after_tick :
  forall (pe : Engine) p compare_and_get rounds,
    queues_accounted pe ->
    running pe = true ->
    local_queue pe = [] ->
    remote_queue pe = [] ->
    (2 <= rounds)%nat ->
    exists pe2,
      run_paint_engine rounds (sync_preview pe p)
      = (PaintWaiting, pe2,
         free_preview (next_preview pe)
         ++ [EMessageDecref (Message 0 (MsgInternal (InternalPreview p)))])
      /\ next_preview pe2 = p
      /\ preview pe2 = preview pe
      /\ preview (fst (fst (DP_paint_engine_tick api pe2 compare_and_get)))
         = match p with
           | PreviewNULL => preview pe
           | PreviewSentinel => PreviewNULL
           | PreviewAt q => PreviewAt q
           end
      /\ disposals (snd (DP_paint_engine_tick api pe2 compare_and_get))
         = match p with
           | PreviewNULL => []
           | _ => preview_object (preview pe)
           end.
Proof.
  intros pe p compare_and_get rounds Hacc Hrun Hl Hr Hrounds.
  destruct rounds as [|[|rounds]]; [lia | lia |].
  unfold queues_accounted in Hacc. rewrite Hl, Hr in Hacc.
  cbn [length] in Hacc.
  destruct pe as [a h v lv pv lq rq sem run c np mb].
  cbn [queue_sem running local_queue remote_queue] in Hacc, Hrun, Hl, Hr.
  subst sem run lq rq.
  eexists. split.
  { cbn. rewrite app_nil_r. reflexivity. }
  split; [reflexivity|]. split; [reflexivity|].
  match goal with
  | |- context [DP_paint_engine_tick api ?q compare_and_get] =>
      pose proof (tick_preview_swap api q compare_and_get)
        as (_ & _ & _ & T2 & T3)
  end.
  cbv zeta in T2, T3. rewrite T2, T3.
  cbn [next_preview preview with_next_preview with_queue_sem
       with_local_queue].
  split; [reflexivity|].
  destruct p; [reflexivity | |]; apply free_preview_disposals.
Qed.

End PreviewPipeline.

Lemma preview_reaches_view_after_tick_witness :
  exists pe2,
    run_paint_engine 2
      (sync_preview sample_engine (PreviewAt sample_cut_preview))
    = (PaintWaiting, pe2,
       free_preview (next_preview sample_engine)
       ++ [EMessageDecref
             (Message 0
                (MsgInternal (InternalPreview (PreviewAt sample_cut_preview))))])
    /\ next_preview pe2 = PreviewAt sample_cut_preview
    /\ preview pe2 = preview sample_engine
    /\ preview (fst (fst (DP_paint_engine_tick sample_api pe2
                            history_unchanged)))
       = PreviewAt sample_cut_preview
    /\ disposals (snd (DP_paint_engine_tick sample_api pe2 history_unchanged))
       = preview_object (preview sample_engine).
Proof.
  apply (preview_reaches_view_after_tick sample_api sample_engine
           (PreviewAt sample_cut_preview) history_unchanged 2).
  - reflexivity.
  - reflexivity.
  - reflexivity.
  - reflexivity.
  - lia.
Defined.

Section HiddenLayers.

Context {AclState CanvasState LayerPropsList : Type}.
Local Abbreviation Engine :=
  (@DP_PaintEngine AclState CanvasState LayerPropsList).

Lemma search_hidden_layer_index_from_spec :
  forall layer_ids i layer_id,
    (search_hidden_layer_index_from layer_ids i layer_id = -1
     /\ ~ In layer_id layer_ids)
    \/ (exists k,
          search_hidden_layer_index_from layer_ids i layer_id
          = i + Z.of_nat k
          /\ nth_error layer_ids k = Some layer_id).
Proof.
  induction layer_ids as [|x rest IH]; intros i layer_id;
    cbn [search_hidden_layer_index_from].
  - left. split; [reflexivity | intros []].
  - destruct (x =? layer_id) eqn:E.
    + apply Z.eqb_eq in E. subst x. right. exists O.
      split; [cbn; lia | reflexivity].
    + apply Z.eqb_neq in E.
      destruct (IH (i + 1) layer_id) as [[Hs Hn] | (k & Hs & Hk)].
      * left. split; [exact Hs|]. intros [H | H]; [congruence | auto].
      * right. exists (S k). split; [rewrite Hs; lia | exact Hk].
Qed.

Lemma list_set_middle :
  forall (A : Type) (l1 l2 : list A) a v,
    list_set (l1 ++ a :: l2) (length l1) v = l1 ++ v :: l2.
Proof.
  intros A l1 l2 a v. induction l1 as [|x l1 IH]; cbn; [reflexivity|].
  rewrite IH. reflexivity.
Qed.

(** [layer_ids[index] = layer_ids[--used]] drops the id at [index] and
    keeps every other entry. *)
Lemma remove_hidden_layer_at_permutation :
  forall layer_ids index layer_id,
    nth_error layer_ids index = Some layer_id ->
    Permutation layer_ids
      (layer_id :: remove_hidden_layer_at layer_ids index).
Proof.
  intros layer_ids index layer_id H.
  apply nth_error_split in H. destruct H as (l1 & l2 & -> & <-).
  unfold remove_hidden_layer_at.
  destruct l2 as [|y l2'] using rev_ind.
  - rewrite last_last, list_set_middle, removelast_last.
    symmetry. apply Permutation_cons_append.
  - clear IHl2'.
    assert (Hlast : last (l1 ++ layer_id :: l2' ++ [y]) 0 = y).
    { replace (l1 ++ layer_id :: l2' ++ [y])
        with ((l1 ++ layer_id :: l2') ++ [y])
        by (rewrite <- app_assoc; reflexivity).
      apply last_last. }
    rewrite Hlast, list_set_middle.
    replace (l1 ++ y :: l2' ++ [y]) with ((l1 ++ y :: l2') ++ [y])
      by (rewrite <- app_assoc; reflexivity).
    rewrite removelast_last.
    rewrite <- Permutation_middle. apply perm_skip.
    apply Permutation_app_head. symmetry. apply Permutation_cons_append.
Qed.

(** X19: the hidden-layer list behaves as a set of layer ids: it never holds
    an id twice, hiding adds the id, showing removes it and leaves every
    other id in place, asking for the state a layer is already in changes
    nothing at all, and any real change invalidates the cached layer props
    so that the next tick recomputes the view. *)
Theorem layer_visibility_set_tracks_hidden_set :
  forall (pe : Engine) layer_id hidden,
    NoDup (hidden_layers (local_view pe)) ->
    let pe' := DP_paint_engine_layer_visibility_set pe layer_id hidden in
    NoDup (hidden_layers (local_view pe'))
    /\ (forall x,
          In x (hidden_layers (local_view pe'))
          <-> if hidden
              then x = layer_id \/ In x (hidden_layers (local_view pe))
              else x <> layer_id /\ In x (hidden_layers (local_view pe)))
    /\ ((In layer_id (hidden_layers (local_view pe)) <-> hidden = true) ->
        pe' = pe)
    /\ (~ (In layer_id (hidden_layers (local_view pe)) <-> hidden = true) ->
        prev_lpl (local_view pe') = None).
Proof.
  intros pe layer_id hidden Hnodup. cbv zeta.
  unfold DP_paint_engine_layer_visibility_set, search_hidden_layer_index.
  destruct (search_hidden_layer_index_from_spec
              (hidden_layers (local_view pe)) 0 layer_id)
    as [[Hs Hn] | (k & Hs & Hk)]; rewrite Hs.
  - (* not hidden so far *)
    change (-1 =? -1) with true. cbn [negb andb].
    rewrite andb_true_r, andb_false_r.
    destruct hidden.
    + cbn [insert_hidden_layer invalidate_local_view local_view
           with_local_view hidden_layers with_hidden_layers with_prev_lpl
           prev_lpl].
      split; [|split; [|split]].
      * apply NoDup_rev in Hnodup.
        rewrite <- (rev_involutive (_ ++ [layer_id])).
        apply NoDup_rev. rewrite rev_unit. constructor; [|exact Hnodup].
        rewrite <- in_rev. exact Hn.
      * intros x. rewrite in_app_iff. cbn [In]. intuition congruence.
      * intros Hiff. exfalso. apply Hn. apply Hiff. reflexivity.
      * reflexivity.
    + split; [exact Hnodup|]. split; [|split].
      * intros x. split; [|tauto]. intros Hx. split; [|exact Hx].
        intros ->. contradiction.
      * reflexivity.
      * intros Hiff. exfalso. apply Hiff. split; [tauto | discriminate].
  - (* hidden at index k *)
    assert (Hin : In layer_id (hidden_layers (local_view pe)))
      by (eapply nth_error_In; exact Hk).
    assert (Hidx : (0 + Z.of_nat k =? -1) = false)
      by (apply Z.eqb_neq; lia).
    rewrite Hidx. cbn [negb andb]. rewrite andb_false_r, andb_true_r.
    destruct hidden; cbn [negb].
    + split; [exact Hnodup|]. split; [|split].
      * intros x. split; [tauto|]. intros [-> | Hx]; assumption.
      * reflexivity.
      * intros Hiff. exfalso. apply Hiff. tauto.
    + pose proof (remove_hidden_layer_at_permutation _ _ _ Hk) as Hperm.
      replace (Z.to_nat (0 + Z.of_nat k)) with k by lia.
      cbn [remove_hidden_layer invalidate_local_view local_view
           with_local_view hidden_layers with_hidden_layers with_prev_lpl
           prev_lpl].
      replace (Z.to_nat (0 + Z.of_nat k)) with k by lia.
      pose proof (Permutation_NoDup Hperm Hnodup) as Hnd.
      inversion Hnd as [|? ? Hnotin Hrest]; subst.
      split; [exact Hrest|]. split; [|split].
      * intros x. split.
        -- intros Hx. split; [intros ->; contradiction|].
           apply (Permutation_in _ (Permutation_sym Hperm)). right. exact Hx.
        -- intros [Hne Hx]. apply (Permutation_in _ Hperm) in Hx.
           destruct Hx as [Heq | Hx]; [congruence | exact Hx].
      * intros Hiff. apply Hiff in Hin. discriminate.
      * reflexivity.
Qed.

End HiddenLayers.

Section RevealCensored.

Variable active : Z.
Variable reveal : bool.

Lemma uncensored_by_reveal_app :
  forall a b p,
    uncensored_by_reveal (a ++ b) p
    <-> uncensored_by_reveal a p \/ uncensored_by_reveal b p.
Proof.
  intros a b p. unfold uncensored_by_reveal. split.
  - intros (e & Hin & H). apply in_app_or in Hin.
    destruct Hin; [left | right]; eauto.
  - intros [(e & Hin & H) | (e & Hin & H)]; exists e; split; auto;
      apply in_or_app; auto.
Qed.

Lemma uncensored_by_reveal_own :
  forall hide uncensor pre p,
    uncensored_by_reveal
      (if hide || uncensor
       then [{| edit_indexes := pre; edit_hide := hide;
                edit_uncensor := uncensor |}]
       else []) p
    <-> uncensor = true /\ p = pre.
Proof.
  intros hide uncensor pre p. unfold uncensored_by_reveal. split.
  - intros (e & Hin & Hi & Hh).
    destruct (hide || uncensor); [|contradiction].
    destruct Hin as [<- | []]. cbn in *. auto.
  - intros [-> ->]. rewrite orb_true_r.
    eexists. split; [left; reflexivity|]. auto.
Qed.

Local Abbreviation uncensors_as_specified :=
  (fun lp =>
     forall mode pre p,
       uncensored_by_reveal
         (set_local_view_layer_props_entry active mode reveal pre lp) p
       <-> reveal = true
           /\ exists rel, p = pre ++ rel /\ censored_below lp rel).

Lemma from_uncensors_as_specified :
  forall entries,
    Forall uncensors_as_specified entries ->
    forall mode pre i0 p,
      uncensored_by_reveal
        (set_local_view_layer_props_from active mode reveal pre entries i0) p
      <-> reveal = true
          /\ exists k lp rel,
               nth_error entries k = Some lp
               /\ p = pre ++ (i0 + k)%nat :: rel
               /\ censored_below lp rel.
Proof.
  intros entries HF. induction HF as [|lp rest Hlp HF IH];
    intros mode pre i0 p; cbn [set_local_view_layer_props_from].
  - split.
    + intros (e & [] & _).
    + intros (_ & k & lp & rel & Hn & _). destruct k; discriminate.
  - rewrite uncensored_by_reveal_app, (Hlp mode (pre ++ [i0]) p),
      (IH mode pre (S i0) p).
    split.
    + intros [(Hm & rel & Hp & Hb) | (Hm & k & lp' & rel & Hn & Hp & Hb)];
        (split; [exact Hm|]).
      * exists O, lp, rel. split; [reflexivity|]. split; [|exact Hb].
        rewrite Hp, <- app_assoc, Nat.add_0_r. reflexivity.
      * exists (S k), lp', rel. split; [exact Hn|]. split; [|exact Hb].
        rewrite Hp, Nat.add_succ_r. reflexivity.
    + intros (Hm & k & lp' & rel & Hn & Hp & Hb).
      destruct k as [|k]; cbn [nth_error] in Hn.
      * left. inversion Hn; subst lp'. split; [exact Hm|].
        exists rel. split; [|exact Hb].
        rewrite Hp, <- app_assoc, Nat.add_0_r. reflexivity.
      * right. split; [exact Hm|].
        exists k, lp', rel. split; [exact Hn|]. split; [|exact Hb].
        rewrite Hp, Nat.add_succ_r. reflexivity.
Qed.

Lemma every_entry_uncensors_as_specified :
  forall lp, uncensors_as_specified lp.
Proof.
  apply DP_LayerProps_tree_ind.
  - (* a leaf *)
    intros id c mode pre p.
    rewrite entry_leaf_unfold, uncensored_by_reveal_own.
    unfold censored_below. split.
    + intros [Hrc ->]. apply andb_true_iff in Hrc. destruct Hrc as [Hr Hc].
      split; [exact Hr|]. exists []. rewrite app_nil_r.
      split; [reflexivity|]. exists (LayerProps id c None). auto.
    + intros (Hr & rel & Hp & lp' & Hb & Hc).
      destruct rel as [|i rest]; cbn in Hb; [|discriminate].
      inversion Hb; subst lp'. cbn in Hc. rewrite app_nil_r in Hp.
      subst. auto.
  - (* a group *)
    intros id c entries HF mode pre p.
    rewrite entry_group_unfold, uncensored_by_reveal_app.
    rewrite uncensored_by_reveal_own.
    rewrite (from_uncensors_as_specified entries HF).
    unfold censored_below. split.
    + intros [[Hrc ->] | (Hr & k & lp & rel & Hn & Hp & lp' & Hb & Hc)].
      * apply andb_true_iff in Hrc. destruct Hrc as [Hr Hc].
        split; [exact Hr|]. exists []. rewrite app_nil_r.
        split; [reflexivity|]. exists (LayerProps id c (Some entries)). auto.
      * split; [exact Hr|]. exists (k :: rel). split; [exact Hp|].
        exists lp'. cbn. rewrite Hn. auto.
    + intros (Hr & rel & Hp & lp' & Hb & Hc).
      destruct rel as [|k rel]; cbn in Hb.
      * left. inversion Hb; subst lp'. cbn in Hc. rewrite app_nil_r in Hp.
        subst. auto.
      * right. destruct (nth_error entries k) as [child|] eqn:Hn;
          [|discriminate].
        split; [exact Hr|]. exists k, child, rel.
        split; [exact Hn|]. split; [exact Hp|]. exists lp'. auto.
Qed.

(** X21: with [reveal_censored] on, the walk over the layer props tree clears
    [censored] on exactly the censored entries, leaves and groups alike, at
    any depth and in every view mode; with it off, on none. *)
Theorem reveal_censored_uncensors_censored_layers :
  forall mode entries indexes,
    uncensored_by_reveal
      (set_local_view_layer_props_recursive active mode reveal [] entries)
      indexes
    <-> reveal = true
        /\ exists lp,
             layer_props_at entries indexes = Some lp
             /\ DP_layer_props_censored lp = true.
Proof.
  intros mode entries indexes. unfold set_local_view_layer_props_recursive.
  rewrite (from_uncensors_as_specified entries).
  - unfold censored_below, layer_props_at. split.
    + intros (Hr & k & lp & rel & Hn & Hp & lp' & Hb & Hc).
      cbn in Hp. subst indexes. rewrite Hn. eauto.
    + intros (Hr & lp' & Hb & Hc). split; [exact Hr|].
      destruct indexes as [|k rel]; [discriminate|].
      destruct (nth_error entries k) as [lp|] eqn:Hn; [|discriminate].
      exists k, lp, rel. repeat split; eauto.
  - apply Forall_forall. intros lp _. apply every_entry_uncensors_as_specified.
Qed.

(** X22: outside Solo mode the walk hides nothing: Frame and Onion Skin leave
    every layer's [hidden_by_view_mode] as Normal does, and every edit the
    walk makes is one that hides or uncensors. *)
Theorem only_solo_mode_hides_layers :
  forall mode entries e,
    In e (set_local_view_layer_props_recursive active mode reveal []
            entries) ->
    (edit_hide e = true -> mode = DP_LAYER_VIEW_MODE_SOLO)
    /\ (edit_uncensor e = true -> reveal = true)
    /\ edit_hide e || edit_uncensor e = true.
Proof.
  intros mode entries e Hin. split; [|split].
  - intros Hh.
    assert (H : hidden_by_view_mode
                  (set_local_view_layer_props_recursive active mode reveal []
                     entries) (edit_indexes e))
      by (exists e; auto).
    unfold set_local_view_layer_props_recursive in H.
    rewrite (from_hides_as_specified active reveal entries) in H.
    + destruct H as [Hm _]. exact Hm.
    + apply Forall_forall. intros lp _.
      apply every_entry_hides_as_specified.
  - intros Hu.
    assert (H : uncensored_by_reveal
                  (set_local_view_layer_props_recursive active mode reveal []
                     entries) (edit_indexes e))
      by (exists e; auto).
    unfold set_local_view_layer_props_recursive in H.
    rewrite (from_uncensors_as_specified entries) in H.
    + destruct H as [Hr _]. exact Hr.
    + apply Forall_forall. intros lp _.
      apply every_entry_uncensors_as_specified.
  - revert Hin. unfold set_local_view_layer_props_recursive.
    generalize (@nil nat) O. revert mode.
    assert (Hentry : forall lp mode pre,
               In e (set_local_view_layer_props_entry active mode reveal pre
                       lp) ->
               edit_hide e || edit_uncensor e = true).
    { apply (DP_LayerProps_tree_ind
               (fun lp => forall mode pre,
                    In e (set_local_view_layer_props_entry active mode reveal
                            pre lp) ->
                    edit_hide e || edit_uncensor e = true)).
      - intros id c mode pre. rewrite entry_leaf_unfold.
        destruct (_ || _) eqn:E; [|intros []].
        intros [<- | []]. exact E.
      - intros id c children HF mode pre. rewrite entry_group_unfold.
        intros Hin. apply in_app_or in Hin. destruct Hin as [Hin | Hin].
        + revert Hin.
          destruct (fst (solo_switch active mode _) || (reveal && c)) eqn:E;
            [|intros []].
          intros [<- | []]. exact E.
        + revert Hin. generalize O.
          generalize (snd (solo_switch active mode
                             (LayerProps id c (Some children)))).
          induction HF as [|lp rest Hlp HF IH]; intros m i Hin;
            cbn [set_local_view_layer_props_from] in Hin; [destruct Hin|].
          apply in_app_or in Hin. destruct Hin as [Hin | Hin].
          * exact (Hlp _ _ Hin).
          * exact (IH _ _ Hin). }
    induction entries as [|lp rest IH]; intros mode pre i Hin;
      cbn [set_local_view_layer_props_from] in Hin; [destruct Hin|].
    apply in_app_or in Hin. destruct Hin as [Hin | Hin].
    + exact (Hentry _ _ _ Hin).
    + exact (IH _ _ _ Hin).
Qed.

End RevealCensored.

Section HiddenLayerPurge.

Context {AclState CanvasState LayerPropsList : Type}.
Variable api : @CanvasApi CanvasState LayerPropsList.
Local Abbreviation Engine :=
  (@DP_PaintEngine AclState CanvasState LayerPropsList).

Lemma filter_permutation :
  forall (f : Z -> bool) l l',
    Permutation l l' -> Permutation (filter f l) (filter f l').
Proof.
  intros f l l' H. induction H as [|x l l' H IH|x y l|l l' l'' H1 IH1 H2 IH2];
    cbn [filter].
  - constructor.
  - destruct (f x); [constructor|]; exact IH.
  - destruct (f x), (f y); try reflexivity. apply perm_swap.
  - etransitivity; eassumption.
Qed.

(** The entries before [index] stay where they are; of those after it,
    the last one moves into the gap. *)
Lemma remove_hidden_layer_at_split :
  forall l1 layer_id l2,
    exists l2',
      remove_hidden_layer_at (l1 ++ layer_id :: l2) (length l1) = l1 ++ l2'
      /\ Permutation l2 l2'.
Proof.
  intros l1 layer_id l2. unfold remove_hidden_layer_at.
  destruct l2 as [|y l2'] using rev_ind.
  - exists []. rewrite last_last, list_set_middle, removelast_last.
    rewrite app_nil_r. split; [reflexivity | constructor].
  - clear IHl2'. exists (y :: l2').
    assert (Hlast : last (l1 ++ layer_id :: l2' ++ [y]) 0 = y).
    { replace (l1 ++ layer_id :: l2' ++ [y])
        with ((l1 ++ layer_id :: l2') ++ [y])
        by (rewrite <- app_assoc; reflexivity).
      apply last_last. }
    rewrite Hlast, list_set_middle.
    replace (l1 ++ y :: l2' ++ [y]) with ((l1 ++ y :: l2') ++ [y])
      by (rewrite <- app_assoc; reflexivity).
    rewrite removelast_last. split; [reflexivity|].
    symmetry. apply Permutation_cons_append.
Qed.

Lemma set_hidden_layer_props_loop_purges :
  forall (found : Z -> bool),
    (forall tcs layer_id,
       layer_routes_hide api tcs layer_id = None <-> found layer_id = false) ->
    forall fuel l1 l2 tcs,
      (length l2 <= fuel)%nat ->
      Permutation
        (fst (set_hidden_layer_props_loop api fuel (l1 ++ l2) (length l1)
                tcs))
        (l1 ++ filter found l2).
Proof.
  intros found Hfound. induction fuel as [|fuel IH]; intros l1 l2 tcs Hlen.
  - destruct l2; [|cbn in Hlen; lia]. cbn. reflexivity.
  - cbn [set_hidden_layer_props_loop].
    destruct l2 as [|layer_id l2].
    + rewrite app_nil_r.
      assert (Hnone : nth_error l1 (length l1) = None)
        by (apply nth_error_None; lia).
      rewrite Hnone. cbn. rewrite app_nil_r. reflexivity.
    + assert (Hsome : nth_error (l1 ++ layer_id :: l2) (length l1)
                      = Some layer_id).
      { rewrite nth_error_app2 by lia. rewrite Nat.sub_diag. reflexivity. }
      rewrite Hsome. cbn [length] in Hlen. cbn [filter].
      destruct (layer_routes_hide api tcs layer_id) as [tcs'|] eqn:Hhide.
      * assert (Hf : found layer_id = true).
        { destruct (found layer_id) eqn:E; [reflexivity|].
          apply Hfound with (tcs := tcs) in E. congruence. }
        rewrite Hf.
        specialize (IH (l1 ++ [layer_id]) l2 tcs' ltac:(lia)).
        rewrite <- app_assoc in IH. cbn [app] in IH.
        rewrite length_app in IH. cbn [length] in IH.
        rewrite Nat.add_1_r in IH. rewrite <- app_assoc in IH. exact IH.
      * apply Hfound in Hhide. rewrite Hhide.
        destruct (remove_hidden_layer_at_split l1 layer_id l2)
          as (l2' & -> & Hperm).
        rewrite (IH l1 l2' tcs).
        -- apply Permutation_app_head. apply filter_permutation.
           symmetry. exact Hperm.
        -- rewrite <- (Permutation_length Hperm). lia.
Qed.

(** X20: when the hidden layers are applied to a canvas state, the ids whose
    layer the state no longer has are purged from the list and all others
    are kept: which ids have a layer does not depend on the hides made so
    far, and the loop's bound is enough to get through the whole list. *)
Theorem set_hidden_layer_props_purges_missing_layers :
  forall (found : Z -> bool) (pe : Engine) tcs,
    (forall tcs layer_id,
       layer_routes_hide api tcs layer_id = None <-> found layer_id = false) ->
    Permutation
      (hidden_layers (local_view (fst (set_hidden_layer_props api pe tcs))))
      (filter found (hidden_layers (local_view pe))).
Proof.
  intros found pe tcs Hfound. unfold set_hidden_layer_props.
  pose proof (set_hidden_layer_props_loop_purges found Hfound
                (length (hidden_layers (local_view pe))) []
                (hidden_layers (local_view pe)) tcs (Nat.le_refl _)) as H.
  cbn [app length] in H.
  destruct (set_hidden_layer_props_loop api
              (length (hidden_layers (local_view pe)))
              (hidden_layers (local_view pe)) 0 tcs) as [layer_ids tcs'].
  cbn [fst local_view with_local_view hidden_layers with_hidden_layers] in *.
  exact H.
Qed.

End HiddenLayerPurge.

Lemma layer_visibility_set_tracks_hidden_set_witness :
  NoDup (hidden_layers (local_view hidden_layers_engine))
  /\ let pe' :=
       DP_paint_engine_layer_visibility_set hidden_layers_engine 12 false in
     NoDup (hidden_layers (local_view pe'))
     /\ (forall x,
           In x (hidden_layers (local_view pe'))
           <-> x <> 12
               /\ In x (hidden_layers (local_view hidden_layers_engine)))
     /\ ((In 12 (hidden_layers (local_view hidden_layers_engine))
          <-> false = true) ->
         pe' = hidden_layers_engine)
     /\ (~ (In 12 (hidden_layers (local_view hidden_layers_engine))
            <-> false = true) ->
         prev_lpl (local_view pe') = None).
Proof.
  assert (Hnodup : NoDup (hidden_layers (local_view hidden_layers_engine))).
  { cbn. repeat constructor; cbn; intuition discriminate. }
  split; [exact Hnodup|].
  exact (layer_visibility_set_tracks_hidden_set hidden_layers_engine 12 false
           Hnodup).
Defined.

Lemma only_solo_mode_hides_layers_witness :
  let e := {| edit_indexes := [0%nat; 0%nat]; edit_hide := true;
              edit_uncensor := true |} in
  In e (set_local_view_layer_props_recursive 4 DP_LAYER_VIEW_MODE_SOLO true
          [] censored_tree)
  /\ (edit_hide e = true -> DP_LAYER_VIEW_MODE_SOLO = DP_LAYER_VIEW_MODE_SOLO)
  /\ (edit_uncensor e = true -> true = true)
  /\ edit_hide e || edit_uncensor e = true.
Proof.
  assert (Hin : In {| edit_indexes := [0%nat; 0%nat]; edit_hide := true;
                      edit_uncensor := true |}
                  (set_local_view_layer_props_recursive 4
                     DP_LAYER_VIEW_MODE_SOLO true [] censored_tree))
    by (cbn; auto).
  split; [exact Hin|].
  exact (only_solo_mode_hides_layers 4 true DP_LAYER_VIEW_MODE_SOLO
           censored_tree _ Hin).
Defined.

Lemma set_hidden_layer_props_purges_missing_layers_witness :
  (forall (tcs layer_id : Z),
     layer_routes_hide sample_api_few_layers tcs layer_id = None
     <-> (layer_id <? 10) = false)
  /\ Permutation
       (hidden_layers
          (local_view
             (fst (set_hidden_layer_props sample_api_few_layers
                     hidden_layers_engine 0))))
       (filter (fun layer_id => layer_id <? 10)
          (hidden_layers (local_view hidden_layers_engine))).
Proof.
  assert (Hfound : forall (tcs layer_id : Z),
             layer_routes_hide sample_api_few_layers tcs layer_id = None
             <-> (layer_id <? 10) = false).
  { intros tcs layer_id. cbn. destruct (layer_id <? 10); split; congruence. }
  split; [exact Hfound|].
  exact (set_hidden_layer_props_purges_missing_layers sample_api_few_layers
           (fun layer_id => layer_id <? 10) hidden_layers_engine 0 Hfound).
Defined.

(* ------------------------------------------------------------------ *)
(** ** [libcommon/dpcommon]                                             *)
(* ------------------------------------------------------------------ *)

Section ErrorCounter.

Lemma two_pow_32 : 2 ^ 32 = 4294967296.
Proof. reflexivity. Qed.

Lemma error_set_fold_count :
  forall messages error,
    0 <= es_count error < 2 ^ 32 ->
    es_count (fold_left DP_error_set messages error)
    = uint (es_count error + Z.of_nat (length messages)).
Proof.
  induction messages as [|m rest IH]; intros error Hrange.
  - cbn. rewrite Z.add_0_r. unfold uint. symmetry.
    apply Z.mod_small. exact Hrange.
  - cbn [fold_left length].
    assert (Hcount : es_count (DP_error_set error m)
                     = uint (es_count error + 1)).
    { unfold DP_error_set. destruct (_ <? _); reflexivity. }
    rewrite IH.
    + rewrite Hcount. unfold uint. rewrite Zplus_mod_idemp_l.
      f_equal. lia.
    + rewrite Hcount. unfold uint. apply Z.mod_pos_bound.
      rewrite two_pow_32. lia.
Qed.

Lemma error_set_fold_buffer :
  forall messages error,
    messages <> [] ->
    es_buffer (fold_left DP_error_set messages error)
    = Some (last messages []).
Proof.
  intros messages error Hne.
  destruct (exists_last Hne) as (init & m & ->).
  rewrite fold_left_app, last_last. cbn [fold_left].
  unfold DP_error_set. destruct (_ <? _); reflexivity.
Qed.

(** X24: the snapshot protocol of the error counter: take [DP_error_count],
    let any number of errors below 2^32 be set, and [DP_error_count_since]
    the snapshot is that number, also when the [unsigned int] counter
    wrapped in between; [DP_error_since] the snapshot is the latest message
    exactly when there was an error, and so is [DP_error]. *)
Theorem error_count_since_counts_errors :
  forall error messages,
    0 <= es_count error < 2 ^ 32 ->
    Z.of_nat (length messages) < 2 ^ 32 ->
    let snapshot := DP_error_count error in
    let error' := fold_left DP_error_set messages error in
    DP_error_count_since error' snapshot = Z.of_nat (length messages)
    /\ DP_error_since error' snapshot
       = match messages with
         | [] => None
         | _ => Some (last messages [])
         end
    /\ (messages <> [] -> DP_error error' = Some (last messages [])).
Proof.
  intros error messages Hrange Hlen. cbv zeta.
  pose proof (error_set_fold_count messages error Hrange) as Hcount.
  unfold DP_error_count_since, DP_error_since, DP_error, DP_error_count.
  rewrite Hcount. unfold uint, UINT_MAX. rewrite two_pow_32 in *.
  set (c := es_count error) in *. set (n := Z.of_nat (length messages)) in *.
  assert (Hn : 0 <= n) by (unfold n; lia).
  assert (Hmod : (c + n) mod 4294967296
                 = if c + n <? 4294967296 then c + n
                   else c + n - 4294967296).
  { destruct (c + n <? 4294967296) eqn:E.
    - apply Z.ltb_lt in E. apply Z.mod_small. lia.
    - apply Z.ltb_ge in E. symmetry.
      apply (Z.mod_unique_pos _ _ 1); lia. }
  rewrite Hmod. split; [|split].
  - destruct (c + n <? 4294967296) eqn:E.
    + apply Z.ltb_lt in E.
      destruct (c <=? c + n) eqn:E2; [lia | apply Z.leb_gt in E2; lia].
    + apply Z.ltb_ge in E.
      destruct (c <=? c + n - 4294967296) eqn:E2;
        [apply Z.leb_le in E2; lia|].
      rewrite (Z.mod_small (4294967296 - 1 - c)) by lia.
      rewrite (Z.mod_small (4294967296 - 1 - c + (c + n - 4294967296)))
        by lia.
      rewrite Z.mod_small by lia. lia.
  - destruct messages as [|m rest] eqn:Hm.
    + cbn in n. subst n. rewrite Z.add_0_r.
      replace (c <? 4294967296) with true by (symmetry; apply Z.ltb_lt; lia).
      rewrite Z.eqb_refl. reflexivity.
    + rewrite <- Hm. rewrite error_set_fold_buffer by (subst; discriminate).
      assert (Hpos : 1 <= n) by (unfold n; cbn [length]; lia).
      destruct (c + n <? 4294967296);
        match goal with
        | |- (if negb (?a =? ?b) then _ else _) = _ =>
            destruct (a =? b) eqn:E2; [apply Z.eqb_eq in E2; lia|]
        end; reflexivity.
  - apply error_set_fold_buffer.
Qed.

End ErrorCounter.

Lemma error_count_since_counts_errors_witness :
  0 <= es_count error_state_at_wrap < 2 ^ 32
  /\ Z.of_nat (length [[Byte.x61]; [Byte.x62; Byte.x63]]) < 2 ^ 32
  /\ DP_error_count_since
       (fold_left DP_error_set [[Byte.x61]; [Byte.x62; Byte.x63]]
          error_state_at_wrap)
       (DP_error_count error_state_at_wrap) = 2
  /\ DP_error_since
       (fold_left DP_error_set [[Byte.x61]; [Byte.x62; Byte.x63]]
          error_state_at_wrap)
       (DP_error_count error_state_at_wrap)
     = Some [Byte.x62; Byte.x63]
  /\ ([[Byte.x61]; [Byte.x62; Byte.x63]] <> [] ->
      DP_error
        (fold_left DP_error_set [[Byte.x61]; [Byte.x62; Byte.x63]]
           error_state_at_wrap)
      = Some [Byte.x62; Byte.x63]).
Proof.
  assert (H1 : 0 <= es_count error_state_at_wrap < 2 ^ 32)
    by (vm_compute; split; congruence).
  assert (H2 : Z.of_nat (length [[Byte.x61]; [Byte.x62; Byte.x63]]) < 2 ^ 32)
    by (vm_compute; reflexivity).
  split; [exact H1|]. split; [exact H2|].
  exact (error_count_since_counts_errors error_state_at_wrap
           [[Byte.x61]; [Byte.x62; Byte.x63]] H1 H2).
Defined.

Section MemInput.

Lemma firstn_plus :
  forall (A : Type) (n m : nat) (l : list A),
    firstn (n + m) l = firstn n l ++ firstn m (skipn n l).
Proof.
  intros A. induction n as [|n IH]; intros m l; [reflexivity|].
  destruct l as [|x l]; cbn [Nat.add firstn skipn app].
  - destruct m; reflexivity.
  - rewrite IH. reflexivity.
Qed.

Lemma mem_input_read_spec :
  forall state size,
    mem_input_ok state ->
    0 <= size ->
    let r := mem_input_read state size in
    let read := Z.min size (mis_size state - mis_pos state) in
    fst (fst r)
    = firstn (Z.to_nat read)
        (skipn (Z.to_nat (mis_pos state)) (mis_buffer state))
    /\ Z.of_nat (length (fst (fst r))) = read
    /\ snd r = {| mis_buffer := mis_buffer state;
                  mis_pos := mis_pos state + read |}
    /\ mem_input_ok (snd r).
Proof.
  intros state size [Hlo Hhi] Hsize. cbv zeta. unfold mem_input_read.
  unfold mis_size in *.
  assert (Hmin : (if size <=? Z.of_nat (length (mis_buffer state))
                              - mis_pos state
                  then size
                  else Z.of_nat (length (mis_buffer state)) - mis_pos state)
                 = Z.min size (Z.of_nat (length (mis_buffer state))
                               - mis_pos state)).
  { destruct (Z.leb_spec size (Z.of_nat (length (mis_buffer state))
                               - mis_pos state)); lia. }
  rewrite Hmin. cbn [fst snd].
  split; [reflexivity|]. split; [|split; [reflexivity|]].
  - rewrite length_firstn, length_skipn. lia.
  - unfold mem_input_ok, mis_size. cbn [mis_pos mis_buffer]. lia.
Qed.

(** X25: reads from a mem input compose: reading [a] bytes and then [b] more
    hands over the same bytes, and leaves the input in the same state, as
    reading [a + b] at once.  Every read returns the next bytes of the
    buffer, as many as asked for or as are left, and never flags an
    error. *)
Theorem mem_input_reads_compose :
  forall state a b,
    mem_input_ok state ->
    0 <= a ->
    0 <= b ->
    let r1 := DP_input_read mem_input_methods state true a in
    let r2 := DP_input_read mem_input_methods (snd r1) true b in
    let r := DP_input_read mem_input_methods state true (a + b) in
    fst (fst r) = fst (fst r1) ++ fst (fst r2)
    /\ mis_pos (snd r) = mis_pos (snd r2)
    /\ mis_buffer (snd r2) = mis_buffer state
    /\ Z.of_nat (length (fst (fst r1)))
       = Z.min a (mis_size state - mis_pos state)
    /\ mis_pos (snd r1) = mis_pos state + Z.of_nat (length (fst (fst r1)))
    /\ mem_input_ok (snd r2)
    /\ snd (fst r1) <> Some true.
Proof.
  intros state a b Hok Ha Hb. cbv zeta.
  assert (Hread : forall st size,
             mem_input_ok st ->
             0 <= size ->
             let r := DP_input_read mem_input_methods st true size in
             let read := Z.min size (mis_size st - mis_pos st) in
             fst (fst r)
             = firstn (Z.to_nat read)
                 (skipn (Z.to_nat (mis_pos st)) (mis_buffer st))
             /\ mis_pos (snd r) = mis_pos st + read
             /\ mis_buffer (snd r) = mis_buffer st
             /\ mem_input_ok (snd r)
             /\ snd (fst r) <> Some true).
  { intros st size Hst Hs. cbv zeta. unfold DP_input_read.
    cbn [andb mem_input_methods input_read].
    destruct (0 <? size) eqn:E.
    - pose proof (mem_input_read_spec st size Hst Hs) as (H1 & _ & H3 & H4).
      cbv zeta in H1, H3, H4.
      destruct (mem_input_read st size) as [[data error] st'] eqn:Hr.
      cbn [fst snd] in *. subst st'. cbn [mis_pos mis_buffer].
      split; [exact H1|]. split; [reflexivity|]. split; [reflexivity|].
      split; [exact H4|].
      unfold mem_input_read in Hr. inversion Hr. discriminate.
    - apply Z.ltb_ge in E. assert (size = 0) by lia. subst size.
      cbn [fst snd]. pose proof Hst as [Hlo Hhi].
      rewrite Z.min_l by lia. cbn [Z.to_nat firstn].
      split; [reflexivity|]. split; [lia|]. split; [reflexivity|].
      split; [exact Hst | discriminate]. }
  destruct (Hread state a Hok Ha) as (D1 & P1 & B1 & O1 & E1).
  destruct (Hread _ b O1 Hb) as (D2 & P2 & B2 & O2 & E2).
  destruct (Hread state (a + b) Hok ltac:(lia)) as (D & P & B & O & E).
  cbv zeta in *.
  set (r1 := DP_input_read mem_input_methods state true a) in *.
  set (r2 := DP_input_read mem_input_methods (snd r1) true b) in *.
  set (r := DP_input_read mem_input_methods state true (a + b)) in *.
  destruct Hok as [Hlo Hhi]. unfold mis_size in *.
  rewrite B1 in *.
  set (len := Z.of_nat (length (mis_buffer state))) in *.
  set (pos := mis_pos state) in *.
  assert (Hlen1 : Z.of_nat (length (fst (fst r1))) = Z.min a (len - pos)).
  { rewrite D1, length_firstn, length_skipn. unfold len, pos. lia. }
  split; [|split; [|split; [|split; [|split; [|split]]]]].
  - rewrite D, D1, D2, P1.
    set (tail := skipn (Z.to_nat pos) (mis_buffer state)).
    assert (Hskip : skipn (Z.to_nat (pos + Z.min a (len - pos)))
                      (mis_buffer state)
                    = skipn (Z.to_nat (Z.min a (len - pos))) tail).
    { unfold tail. rewrite skipn_skipn. f_equal. lia. }
    rewrite Hskip.
    assert (Hsplit : Z.to_nat (Z.min (a + b) (len - pos))
                     = (Z.to_nat (Z.min a (len - pos))
                        + Z.to_nat
                            (Z.min b (len - (pos + Z.min a (len - pos)))))%nat)
      by lia.
    rewrite Hsplit. apply firstn_plus.
  - rewrite P, P2, P1. lia.
  - rewrite B2. reflexivity.
  - exact Hlen1.
  - rewrite P1, Hlen1. reflexivity.
  - exact O2.
  - exact E1.
Qed.

(** X26: reading and rewinding by what was read is a round trip; a rewind by
    more than the position is refused, reported through [DP_error_set],
    and leaves the input where it was. *)
Theorem mem_input_read_rewind_round_trip :
  forall state size,
    mem_input_ok state ->
    0 <= size ->
    let r := DP_input_read mem_input_methods state true size in
    DP_input_rewind_by mem_input_methods (snd r)
      (Z.of_nat (length (fst (fst r))))
    = ((true, None), state)
    /\ forall more,
         mis_pos (snd r) < more ->
         DP_input_rewind_by mem_input_methods (snd r) more
         = ((false, Some (MemInputCannotRewind (mis_pos (snd r)) more)),
            snd r).
Proof.
  intros state size Hok Hsize. cbv zeta.
  assert (Hr : mis_buffer
                 (snd (DP_input_read mem_input_methods state true size))
               = mis_buffer state
               /\ mis_pos
                    (snd (DP_input_read mem_input_methods state true size))
                  = mis_pos state
                    + Z.of_nat
                        (length
                           (fst (fst (DP_input_read mem_input_methods state
                                        true size))))).
  { unfold DP_input_read. cbn [andb mem_input_methods input_read].
    destruct (0 <? size) eqn:E.
    - pose proof (mem_input_read_spec state size Hok Hsize)
        as (_ & H2 & H3 & _).
      cbv zeta in H2, H3.
      destruct (mem_input_read state size) as [[data error] st'].
      cbn [fst snd] in *. subst st'. cbn [mis_buffer mis_pos].
      split; [reflexivity | lia].
    - cbn. split; [reflexivity | lia]. }
  destruct Hr as [Hb Hp].
  set (r := DP_input_read mem_input_methods state true size) in *.
  destruct Hok as [Hlo Hhi]. split.
  - unfold DP_input_rewind_by. cbn [mem_input_methods input_rewind_by].
    destruct (0 <? Z.of_nat (length (fst (fst r)))) eqn:E.
    + unfold mem_input_rewind_by. rewrite Hp, Hb.
      replace (Z.of_nat (length (fst (fst r)))
               <=? mis_pos state + Z.of_nat (length (fst (fst r))))
        with true by (symmetry; apply Z.leb_le; lia).
      replace (mis_pos state + Z.of_nat (length (fst (fst r)))
               - Z.of_nat (length (fst (fst r)))) with (mis_pos state)
        by lia.
      destruct state; reflexivity.
    + apply Z.ltb_ge in E.
      assert (Hzero : Z.of_nat (length (fst (fst r))) = 0) by lia.
      rewrite Hzero, Z.add_0_r in Hp.
      destruct (snd r) as [buf pos], state as [buf0 pos0].
      cbn in Hb, Hp. subst. reflexivity.
  - intros more Hmore. unfold DP_input_rewind_by.
    cbn [mem_input_methods input_rewind_by].
    replace (0 <? more) with true by (symmetry; apply Z.ltb_lt; lia).
    unfold mem_input_rewind_by.
    replace (more <=? mis_pos (snd r)) with false
      by (symmetry; apply Z.leb_gt; lia).
    reflexivity.
Qed.

End MemInput.

Lemma mem_input_reads_compose_witness :
  mem_input_ok sample_mem_input
  /\ 0 <= 2
  /\ 0 <= 5
  /\ fst (fst (DP_input_read mem_input_methods sample_mem_input true (2 + 5)))
     = fst (fst (DP_input_read mem_input_methods sample_mem_input true 2))
       ++ fst (fst (DP_input_read mem_input_methods
                      (snd (DP_input_read mem_input_methods sample_mem_input
                              true 2))
                      true 5)).
Proof.
  assert (Hok : mem_input_ok sample_mem_input)
    by (vm_compute; intuition congruence).
  assert (Ha : 0 <= 2) by lia.
  assert (Hb : 0 <= 5) by lia.
  split; [exact Hok|]. split; [exact Ha|]. split; [exact Hb|].
  exact (proj1 (mem_input_reads_compose sample_mem_input 2 5 Hok Ha Hb)).
Defined.

Lemma mem_input_read_rewind_round_trip_witness :
  mem_input_ok sample_mem_input
  /\ 0 <= 7
  /\ DP_input_rewind_by mem_input_methods
       (snd (DP_input_read mem_input_methods sample_mem_input true 7))
       (Z.of_nat
          (length
             (fst (fst (DP_input_read mem_input_methods sample_mem_input
                          true 7)))))
     = ((true, None), sample_mem_input).
Proof.
  assert (Hok : mem_input_ok sample_mem_input)
    by (vm_compute; intuition congruence).
  assert (Hs : 0 <= 7) by lia.
  split; [exact Hok|]. split; [exact Hs|].
  exact (proj1 (mem_input_read_rewind_round_trip sample_mem_input 7 Hok Hs)).
Defined.

Section MemOutput.

Lemma loop_indices_plus :
  forall a b,
    0 <= a -> 0 <= b ->
    loop_indices (a + b)
    = loop_indices a ++ map (fun i => a + i) (loop_indices b).
Proof.
  intros a b Ha Hb. unfold loop_indices.
  replace (Z.to_nat (a + b)) with (Z.to_nat a + Z.to_nat b)%nat by lia.
  rewrite seq_app, map_app. f_equal. cbn [Nat.add].
  rewrite map_map.
  rewrite <- (Nat.add_0_r (Z.to_nat a)) at 1.
  generalize 0%nat. induction (Z.to_nat b) as [|n IH]; intros s;
    [reflexivity|].
  cbn [seq map]. f_equal; [lia|].
  rewrite <- Nat.add_succ_r. apply IH.
Qed.

Lemma map_nth_loop_indices :
  forall (data : list byte) d,
    map (fun i => nth (Z.to_nat i) data d)
      (loop_indices (Z.of_nat (length data)))
    = data.
Proof.
  intros data d. unfold loop_indices. rewrite Nat2Z.id, map_map.
  induction data as [|x data IH]; [reflexivity|].
  cbn [length seq map]. f_equal.
  rewrite <- seq_shift, map_map.
  rewrite <- IH at 2. apply map_ext. intros k.
  rewrite !Nat2Z.id. reflexivity.
Qed.

Lemma mem_output_grow_spec :
  forall used size rounds capacity,
    1 <= capacity ->
    used + size + 1 - capacity <= Z.of_nat rounds ->
    size <= mem_output_space (mem_output_grow rounds capacity used size) used
    /\ exists k,
         mem_output_grow rounds capacity used size = capacity * 2 ^ Z.of_nat k.
Proof.
  intros used size. unfold mem_output_space.
  induction rounds as [|rounds IH]; intros capacity Hcap Hrounds.
  - cbn [mem_output_grow]. split; [lia|]. exists O. cbn. lia.
  - cbn [mem_output_grow]. unfold mem_output_space.
    destruct (capacity * 2 - used - 1 <? size) eqn:E.
    + apply Z.ltb_lt in E.
      destruct (IH (capacity * 2) ltac:(lia) ltac:(lia)) as (Hfit & k & Hk).
      split; [exact Hfit|]. exists (S k). rewrite Hk.
      rewrite Nat2Z.inj_succ, Z.pow_succ_r by lia. lia.
    + apply Z.ltb_ge in E. split; [lia|]. exists 1%nat. cbn. lia.
Qed.

(** One [DP_output_write] to a mem output, field by field. *)
Lemma mem_output_write_spec :
  forall state data,
    mem_output_ok state ->
    let r := DP_output_write mem_output_methods state (Some data) in
    fst r = true
    /\ mem_output_ok (snd r)
    /\ mem_output_contents (snd r) = mem_output_contents state ++ data
    /\ (data <> [] -> mos_buffer (snd r) (mos_used (snd r)) = Byte.x00)
    /\ (data = [] -> snd r = state)
    /\ (exists k,
          mos_capacity (snd r) = mos_capacity state * 2 ^ Z.of_nat k
          /\ (Z.of_nat (length data)
              <= mem_output_space (mos_capacity state) (mos_used state) ->
              k = O)).
Proof.
  intros state data [Hlo Hhi]. cbv zeta. unfold DP_output_write.
  destruct (0 <? Z.of_nat (length data)) eqn:Hpos.
  - apply Z.ltb_lt in Hpos.
    cbn [mem_output_methods output_write]. unfold mem_output_write.
    cbn [fst snd]. rewrite Z.eqb_refl.
    set (size := Z.of_nat (length data)) in *.
    assert (Hcap :
              size <= mem_output_space
                        (if mem_output_space (mos_capacity state)
                              (mos_used state) <? size
                         then mem_output_grow
                                (Z.to_nat (mos_used state + size + 1))
                                (mos_capacity state) (mos_used state) size
                         else mos_capacity state) (mos_used state)
              /\ exists k,
                   (if mem_output_space (mos_capacity state)
                         (mos_used state) <? size
                    then mem_output_grow
                           (Z.to_nat (mos_used state + size + 1))
                           (mos_capacity state) (mos_used state) size
                    else mos_capacity state)
                   = mos_capacity state * 2 ^ Z.of_nat k
                   /\ (size <= mem_output_space (mos_capacity state)
                                 (mos_used state) ->
                       k = O)).
    { destruct (mem_output_space (mos_capacity state) (mos_used state)
                <? size) eqn:E.
      - apply Z.ltb_lt in E.
        destruct (mem_output_grow_spec (mos_used state) size
                    (Z.to_nat (mos_used state + size + 1))
                    (mos_capacity state) ltac:(lia) ltac:(lia))
          as (Hfit & k & Hk).
        split; [exact Hfit|]. exists k. split; [exact Hk | lia].
      - apply Z.ltb_ge in E. split; [exact E|]. exists O.
        split; [cbn; lia | reflexivity]. }
    set (capacity' :=
           if mem_output_space (mos_capacity state) (mos_used state) <? size
           then mem_output_grow (Z.to_nat (mos_used state + size + 1))
                  (mos_capacity state) (mos_used state) size
           else mos_capacity state) in *.
    destruct Hcap as (Hfit & k & Hk & Hk0).
    unfold mem_output_space in Hfit.
    split; [reflexivity|]. split; [|split; [|split; [|split]]].
    + unfold mem_output_ok. cbn [mos_used mos_capacity]. lia.
    + unfold mem_output_contents. cbn [mos_used mos_buffer].
      rewrite loop_indices_plus by lia. rewrite map_app. f_equal.
      * apply map_ext_in. intros i Hi. apply loop_indices_in in Hi.
        rewrite array_set_other by lia. unfold memcpy.
        replace (mos_used state <=? i) with false
          by (symmetry; apply Z.leb_gt; lia).
        reflexivity.
      * rewrite map_map.
        transitivity (map (fun i => nth (Z.to_nat i) data Byte.x00)
                        (loop_indices size));
          [|apply map_nth_loop_indices].
        apply map_ext_in. intros i Hi. apply loop_indices_in in Hi.
        rewrite array_set_other by lia. unfold memcpy.
        replace (mos_used state <=? mos_used state + i) with true
          by (symmetry; apply Z.leb_le; lia).
        replace (mos_used state + i <? mos_used state + Z.of_nat (length data))
          with true by (symmetry; apply Z.ltb_lt; unfold size in *; lia).
        cbn [andb]. f_equal. lia.
    + intros _. cbn [mos_used mos_buffer]. apply array_set_same.
    + intros ->. cbn in Hpos. lia.
    + exists k. cbn [mos_capacity]. split; assumption.
  - apply Z.ltb_ge in Hpos.
    assert (data = []) as ->
      by (destruct data; [reflexivity | cbn in Hpos; lia]).
    cbn [fst snd]. split; [reflexivity|].
    split; [split; assumption|]. split; [rewrite app_nil_r; reflexivity|].
    split; [intros H; contradiction H; reflexivity|].
    split; [reflexivity|]. exists O. split; [cbn; lia | reflexivity].
Qed.

(** X27: writing to a mem output appends: the bytes held afterwards are the
    bytes held before followed by the bytes written, a NUL follows them,
    and there is always room for it, because the capacity is doubled, as
    often as needed and only then, before anything is copied.  Writing no
    bytes changes nothing. *)
Theorem mem_output_write_appends :
  forall state data,
    mem_output_ok state ->
    let r := DP_output_write mem_output_methods state (Some data) in
    fst r = true
    /\ mem_output_ok (snd r)
    /\ mem_output_contents (snd r) = mem_output_contents state ++ data
    /\ (data <> [] -> mos_buffer (snd r) (mos_used (snd r)) = Byte.x00)
    /\ (data = [] -> snd r = state)
    /\ (exists k,
          mos_capacity (snd r) = mos_capacity state * 2 ^ Z.of_nat k
          /\ (Z.of_nat (length data)
              <= mem_output_space (mos_capacity state) (mos_used state) ->
              k = O)).
Proof. exact mem_output_write_spec. Qed.

(** X28: a fresh mem output is empty and has room, at least the minimum
    capacity; whatever is then written to it, in any number of writes,
    comes back as its contents, in order. *)
Theorem mem_output_collects_writes :
  forall initial_capacity allocation (writes : list (list byte)),
    let state :=
      fold_left
        (fun state data =>
           snd (DP_output_write mem_output_methods state (Some data)))
        writes (DP_mem_output_new initial_capacity allocation) in
    mem_output_contents state = concat writes
    /\ mem_output_ok state
    /\ DP_MEM_OUTPUT_MIN_CAPACITY <= mos_capacity state
    /\ initial_capacity <= mos_capacity state
    /\ (concat writes <> [] ->
        mos_buffer state (mos_used state) = Byte.x00).
Proof.
  intros initial_capacity allocation writes. cbv zeta.
  set (new := DP_mem_output_new initial_capacity allocation).
  assert (Hnew : mem_output_contents new = []
                 /\ mem_output_ok new
                 /\ DP_MEM_OUTPUT_MIN_CAPACITY <= mos_capacity new
                 /\ initial_capacity <= mos_capacity new).
  { unfold new, DP_mem_output_new, mem_output_ok, mem_output_contents,
      DP_MEM_OUTPUT_MIN_CAPACITY.
    cbn [mos_used mos_capacity].
    destruct (initial_capacity <? 32) eqn:E;
      [apply Z.ltb_lt in E | apply Z.ltb_ge in E];
      repeat split; try reflexivity; lia. }
  destruct Hnew as (Hc & Hok & Hmin & Hinit).
  assert (Hgen : forall writes state before,
             mem_output_contents state = before ->
             mem_output_ok state ->
             DP_MEM_OUTPUT_MIN_CAPACITY <= mos_capacity state ->
             initial_capacity <= mos_capacity state ->
             (before <> [] -> mos_buffer state (mos_used state) = Byte.x00) ->
             let state' :=
               fold_left
                 (fun state data =>
                    snd (DP_output_write mem_output_methods state
                           (Some data)))
                 writes state in
             mem_output_contents state' = before ++ concat writes
             /\ mem_output_ok state'
             /\ DP_MEM_OUTPUT_MIN_CAPACITY <= mos_capacity state'
             /\ initial_capacity <= mos_capacity state'
             /\ (before ++ concat writes <> [] ->
                 mos_buffer state' (mos_used state') = Byte.x00)).
  { clear. induction writes as [|data rest IH];
      intros state before Hc Hok Hmin Hinit Hnul; cbv zeta.
    - cbn [fold_left concat]. rewrite app_nil_r. auto.
    - cbn [fold_left concat].
      destruct (mem_output_write_spec state data Hok)
        as (_ & Hok' & Hc' & Hnul' & Hsame & k & Hk & _).
      cbv zeta in Hok', Hc', Hnul', Hsame, Hk.
      assert (Hgrow : mos_capacity state
                      <= mos_capacity
                           (snd (DP_output_write mem_output_methods state
                                   (Some data)))).
      { rewrite Hk. destruct Hok as [Hlo Hhi].
        assert (0 < 2 ^ Z.of_nat k) by (apply Z.pow_pos_nonneg; lia).
        nia. }
      rewrite app_assoc. apply IH.
      + rewrite Hc', Hc. reflexivity.
      + exact Hok'.
      + lia.
      + lia.
      + intros Hne. destruct data as [|b data].
        * rewrite (Hsame eq_refl). apply Hnul. rewrite app_nil_r in Hne.
          exact Hne.
        * apply Hnul'. discriminate. }
  apply (Hgen writes new [] Hc Hok Hmin Hinit).
  intros H. contradiction H.
Qed.

(** X29: clearing a mem output empties it, keeps its allocation, and
    NUL-terminates the empty contents. *)
Theorem mem_output_clear_empties :
  forall state,
    mem_output_ok state ->
    let r := DP_output_clear mem_output_methods state in
    fst r = (true, None)
    /\ mem_output_contents (snd r) = []
    /\ mos_buffer (snd r) 0 = Byte.x00
    /\ mos_capacity (snd r) = mos_capacity state
    /\ mem_output_ok (snd r)
    /\ forall data,
         mem_output_contents
           (snd (DP_output_write mem_output_methods (snd r) (Some data)))
         = data.
Proof.
  intros state [Hlo Hhi]. cbv zeta.
  unfold DP_output_clear. cbn [mem_output_methods output_clear].
  unfold mem_output_clear. cbn [fst snd].
  assert (Hok : mem_output_ok
                  {| mos_buffer := array_set (mos_buffer state) 0 Byte.x00;
                     mos_capacity := mos_capacity state;
                     mos_used := 0 |})
    by (unfold mem_output_ok; cbn [mos_used mos_capacity]; lia).
  split; [reflexivity|]. split; [reflexivity|].
  split; [apply array_set_same|]. split; [reflexivity|].
  split; [exact Hok|].
  intros data.
  destruct (mem_output_write_spec _ data Hok) as (_ & _ & Hc & _).
  cbv zeta in Hc. rewrite Hc. reflexivity.
Qed.

End MemOutput.

Lemma mem_output_write_appends_witness :
  mem_output_ok sample_mem_output
  /\ mem_output_contents
       (snd (DP_output_write mem_output_methods sample_mem_output
               (Some [Byte.x61; Byte.x62])))
     = mem_output_contents sample_mem_output ++ [Byte.x61; Byte.x62]
  /\ mos_capacity
       (snd (DP_output_write mem_output_methods sample_mem_output
               (Some [Byte.x61; Byte.x62]))) = 64.
Proof.
  assert (Hok : mem_output_ok sample_mem_output)
    by (vm_compute; intuition congruence).
  split; [exact Hok|].
  split; [|reflexivity].
  exact (proj1 (proj2 (proj2 (mem_output_write_appends sample_mem_output
                                [Byte.x61; Byte.x62] Hok)))).
Defined.

Lemma mem_output_clear_empties_witness :
  mem_output_ok sample_mem_output
  /\ mem_output_contents
       (snd (DP_output_clear mem_output_methods sample_mem_output)) = []
  /\ mos_capacity
       (snd (DP_output_clear mem_output_methods sample_mem_output)) = 32.
Proof.
  assert (Hok : mem_output_ok sample_mem_output)
    by (vm_compute; intuition congruence).
  split; [exact Hok|].
  split; [|reflexivity].
  exact (proj1 (proj2 (mem_output_clear_empties sample_mem_output Hok))).
Defined.

Section TickReports.

Context {AclState CanvasState LayerPropsList : Type}.
Variable api : @CanvasApi CanvasState LayerPropsList.
Local Abbreviation Engine :=
  (@DP_PaintEngine AclState CanvasState LayerPropsList).

Lemma emit_changes_no_catchup :
  forall prev cs ucb progress,
    ~ In (CbCatchup progress) (emit_changes api prev cs ucb).
Proof.
  intros prev cs ucb progress. unfold emit_changes.
  destruct (DP_canvas_state_diff api cs prev) as [positions changed].
  rewrite !in_app_iff.
  intros [H | [H | [H | [H | [H | H]]]]].
  - destruct (_ || _); [destruct H as [H | []]; discriminate | destruct H].
  - apply in_map_iff in H. destruct H as (xy & H & _). discriminate.
  - destruct changed; [destruct H as [H | []]; discriminate | destruct H].
  - destruct (negb _); [destruct H as [H | []]; discriminate | destruct H].
  - destruct (negb _); [destruct H as [H | []]; discriminate | destruct H].
  - apply in_map_iff in H. destruct H as (uc & H & _). discriminate.
Qed.

(** The callbacks of a tick: the catch-up report, if one is pending, and
    then nothing that is one. *)
Lemma tick_catchup_call :
  forall (pe : Engine) compare_and_get,
    exists rest,
      snd (fst (DP_paint_engine_tick api pe compare_and_get))
      = (if negb (catchup pe =? -1) then [CbCatchup (catchup pe)] else [])
        ++ rest
      /\ forall progress, ~ In (CbCatchup progress) rest.
Proof.
  intros pe compare_and_get. unfold DP_paint_engine_tick.
  cbn [history_cs with_catchup].
  destruct (compare_and_get (history_cs pe)) as [next_history_cs ucb].
  set (pe0 := match next_history_cs with
              | Some cs => with_history_cs (with_catchup pe (-1)) cs
              | None => with_catchup pe (-1)
              end).
  assert (Hend : forall (q : Engine) (effects : list Effect) have,
             exists rest,
               snd (fst (if have : bool
                         then
                           let '(q1, next_view_cs) :=
                             apply_local_layer_props api q
                               (apply_inspect api q
                                  (apply_preview api q (history_cs q))) in
                           (with_view_cs q1 next_view_cs,
                            (if negb (catchup pe =? -1)
                             then [CbCatchup (catchup pe)] else [])
                            ++ emit_changes api (view_cs q) next_view_cs ucb,
                            effects)
                         else
                           (q,
                            if negb (catchup pe =? -1)
                            then [CbCatchup (catchup pe)] else [],
                            effects)))
               = (if negb (catchup pe =? -1)
                  then [CbCatchup (catchup pe)] else [])
                 ++ rest
               /\ forall progress, ~ In (CbCatchup progress) rest).
  { intros q effects have. destruct have.
    - destruct (apply_local_layer_props api q _) as [q1 next_view_cs].
      cbn [fst snd]. eexists. split; [reflexivity|].
      intros progress. apply emit_changes_no_catchup.
    - cbn [fst snd]. exists []. rewrite app_nil_r. split; [reflexivity|].
      intros progress []. }
  destruct (next_preview pe0) as [| |p]; apply Hend.
Qed.

(** X18: catch-up progress is delivered once: after the paint thread has
    handled a catch-up message, the next tick calls [catchup] with its
    progress, first of all its callbacks, and the tick after that does not
    call [catchup] again.  A progress of -1 is never reported. *)
Theorem catchup_progress_reported_once :
  forall (pe : Engine) progress first_history second_history,
    let pe1 := fst (handle_internal pe (InternalCatchup progress)) in
    let tick1 := DP_paint_engine_tick api pe1 first_history in
    let tick2 := DP_paint_engine_tick api (fst (fst tick1)) second_history in
    (exists rest,
       snd (fst tick1)
       = (if progress =? -1 then [] else [CbCatchup progress]) ++ rest
       /\ forall p, ~ In (CbCatchup p) rest)
    /\ forall p, ~ In (CbCatchup p) (snd (fst tick2)).
Proof.
  intros pe progress first_history second_history. cbv zeta.
  cbn [handle_internal fst].
  destruct (tick_catchup_call (with_catchup pe progress) first_history)
    as (rest & Hcalls & Hrest).
  cbn [catchup with_catchup] in Hcalls.
  split.
  - exists rest. split; [|exact Hrest]. rewrite Hcalls.
    destruct (progress =? -1); reflexivity.
  - pose proof (tick_leaves_steady_state api (with_catchup pe progress)
                  first_history) as (Hsteady & _).
    cbv zeta in Hsteady.
    destruct (tick_catchup_call
                (fst (fst (DP_paint_engine_tick api
                             (with_catchup pe progress) first_history)))
                second_history) as (rest2 & Hcalls2 & Hrest2).
    rewrite Hsteady in Hcalls2. cbn [Z.eqb negb app] in Hcalls2.
    change (-1 =? -1) with true in Hcalls2. cbn [negb app] in Hcalls2.
    rewrite Hcalls2. exact Hrest2.
Qed.

(** X17: the references [preview_dabs_inc] takes on the messages it is given
    are the ones the preview it queues gives back when it is disposed: the
    same messages, in the same order, [count] of them. *)
Theorem preview_dabs_references_balance :
  forall (pe : Engine) layer_id count messages,
    0 < count ->
    count <= Z.of_nat (length messages) ->
    let r := DP_paint_engine_preview_dabs_inc api pe layer_id count messages in
    exists p,
      local_queue (fst r)
      = local_queue pe
        ++ [Message 0 (MsgInternal (InternalPreview (PreviewAt p)))]
      /\ increfs (snd r) = firstn (Z.to_nat count) messages
      /\ decrefs (preview_dispose p) = increfs (snd r)
      /\ Z.of_nat (length (increfs (snd r))) = count.
Proof.
  intros pe layer_id count messages Hpos Hlen. cbv zeta.
  unfold DP_paint_engine_preview_dabs_inc.
  replace (0 <? count) with true by (symmetry; apply Z.ltb_lt; exact Hpos).
  cbn [fst snd]. eexists. split; [reflexivity|].
  assert (Hinc : forall l, increfs (map EMessageIncref l) = l).
  { induction l as [|m l IH]; [reflexivity|]. cbn. f_equal. exact IH. }
  assert (Hdec : forall l, decrefs (map EMessageDecref l) = l).
  { induction l as [|m l IH]; [reflexivity|]. cbn. f_equal. exact IH. }
  rewrite Hinc. split; [reflexivity|]. split.
  - cbn [preview_dispose]. unfold dabs_preview_dispose.
    rewrite Hdec, firstn_firstn, Nat.min_id. reflexivity.
  - rewrite length_firstn. lia.
Qed.

End TickReports.

Lemma preview_dabs_references_balance_witness :
  0 < 2
  /\ 2 <= Z.of_nat (length overshoot_queue)
  /\ exists p,
       local_queue
         (fst (DP_paint_engine_preview_dabs_inc sample_api sample_engine 7 2
                 overshoot_queue))
       = local_queue sample_engine
         ++ [Message 0 (MsgInternal (InternalPreview (PreviewAt p)))]
       /\ increfs
            (snd (DP_paint_engine_preview_dabs_inc sample_api sample_engine
                    7 2 overshoot_queue))
          = firstn (Z.to_nat 2) overshoot_queue
       /\ decrefs (preview_dispose p)
          = increfs
              (snd (DP_paint_engine_preview_dabs_inc sample_api
                      sample_engine 7 2 overshoot_queue))
       /\ Z.of_nat
            (length
               (increfs
                  (snd (DP_paint_engine_preview_dabs_inc sample_api
                          sample_engine 7 2 overshoot_queue)))) = 2.
Proof.
  assert (H1 : 0 < 2) by lia.
  assert (H2 : 2 <= Z.of_nat (length overshoot_queue)) by (cbn; lia).
  split; [exact H1|]. split; [exact H2|].
  exact (preview_dabs_references_balance sample_api sample_engine 7 2
           overshoot_queue H1 H2).
Defined.

Section LocalViewSetters.

Context {AclState CanvasState LayerPropsList : Type}.
Local Abbreviation Engine :=
  (@DP_PaintEngine AclState CanvasState LayerPropsList).

Local Ltac setter_simpl :=
  cbn [negb andb orb Bool.eqb DP_LayerViewMode_eqb
       local_view with_local_view active_layer_id active_frame_index
       layer_view_mode reveal_censored inspect_context_id
       with_active_layer_id with_active_frame_index with_layer_view_mode
       with_reveal_censored with_inspect_context_id with_prev_lpl];
  rewrite ?Z.eqb_refl;
  repeat match goal with
         | H : ?a <> ?b |- context [?a =? ?b] =>
             rewrite (proj2 (Z.eqb_neq a b) H)
         end;
  cbn [negb andb orb Bool.eqb DP_LayerViewMode_eqb
       local_view with_local_view active_layer_id active_frame_index
       layer_view_mode reveal_censored inspect_context_id
       with_active_layer_id with_active_frame_index with_layer_view_mode
       with_reveal_censored with_inspect_context_id with_prev_lpl].

Local Ltac setter_solve al af ic m r layer_id frame_index context_id mode
    reveal :=
  unfold DP_paint_engine_active_layer_id_set,
    DP_paint_engine_active_frame_index_set, DP_paint_engine_view_mode_set,
    DP_paint_engine_reveal_censored_set,
    DP_paint_engine_inspect_context_id_set, invalidate_local_view;
  setter_simpl;
  first
    [ reflexivity
    | destruct (Z.eqb_spec al layer_id), (Z.eqb_spec af frame_index),
        (Z.eqb_spec ic context_id);
      subst; setter_simpl;
      first
        [ reflexivity
        | destruct r, reveal; setter_simpl;
          first [reflexivity | destruct m, mode; setter_simpl; reflexivity]
        | destruct m, mode; setter_simpl; reflexivity ] ].

(** X23: between two ticks the order of the view setter calls does not matter:
    any two of the five scalar setters commute, also where the invalidation
    of one depends on the mode the other sets, and setting a value twice
    is setting it once. *)
Theorem local_view_setters_commute :
  forall (pe : Engine) layer_id frame_index mode reveal context_id,
    let set_layer :=
      fun pe => DP_paint_engine_active_layer_id_set pe layer_id in
    let set_frame :=
      fun pe => DP_paint_engine_active_frame_index_set pe frame_index in
    let set_mode := fun pe => DP_paint_engine_view_mode_set pe mode in
    let set_reveal := fun pe => DP_paint_engine_reveal_censored_set pe reveal in
    let set_inspect :=
      fun pe => DP_paint_engine_inspect_context_id_set pe context_id in
    set_layer (set_mode pe) = set_mode (set_layer pe)
    /\ set_frame (set_mode pe) = set_mode (set_frame pe)
    /\ set_layer (set_frame pe) = set_frame (set_layer pe)
    /\ set_layer (set_reveal pe) = set_reveal (set_layer pe)
    /\ set_layer (set_inspect pe) = set_inspect (set_layer pe)
    /\ set_frame (set_reveal pe) = set_reveal (set_frame pe)
    /\ set_frame (set_inspect pe) = set_inspect (set_frame pe)
    /\ set_mode (set_reveal pe) = set_reveal (set_mode pe)
    /\ set_mode (set_inspect pe) = set_inspect (set_mode pe)
    /\ set_reveal (set_inspect pe) = set_inspect (set_reveal pe)
    /\ set_layer (set_layer pe) = set_layer pe
    /\ set_frame (set_frame pe) = set_frame pe
    /\ set_mode (set_mode pe) = set_mode pe
    /\ set_reveal (set_reveal pe) = set_reveal pe
    /\ set_inspect (set_inspect pe) = set_inspect pe.
Proof.
  intros pe layer_id frame_index mode reveal context_id. cbv zeta beta.
  destruct pe as [a h v lv p lq rq s run c n mb].
  destruct lv as [al af m r ic hl pl l].
  repeat split;
    setter_solve al af ic m r layer_id frame_index context_id mode reveal.
Qed.

End LocalViewSetters.
